(** * FindCar: the listing pipeline of [scripts/fetch_cars.py]

    A shallow embedding of the extraction pipeline (price normalisation,
    JSON-LD parsing, fallback anchor scan, de-duplication, filtering and the
    top-level error containment of [main]) together with the properties the
    specification states about it.

    Python values are modelled as the program has them: a [str] is a
    sequence of Unicode code points, an [int] is a [Z], a [float] is an
    IEEE-754 binary64 number given by sign, integral significand and binary
    exponent, a [dict] is an insertion-ordered association list, and a
    raised exception is the [Raise] branch of the result type [res]. *)

From Stdlib Require Import String Ascii.
From Stdlib Require Import PrimFloat FloatOps.
From Stdlib Require Import List ZArith NArith Lia Bool Arith.
Import ListNotations.

Set Implicit Arguments.

Local Open Scope Z_scope.

(* ================================================================== *)
(** * Python strings *)
(* ================================================================== *)

(** A code point. *)
Definition char := N.

(** [str]: an immutable sequence of code points. *)
Definition str := list char.

(** Decoder used to write [str] literals: the bytes of a Rocq string
    literal are read as UTF-8. *)
Fixpoint utf8_decode (bs : list N) : str :=
  match bs with
  | [] => []
  | b :: r =>
      if (b <? 128)%N then b :: utf8_decode r
      else if (b <? 224)%N then
        match r with
        | c1 :: r1 => ((b mod 32) * 64 + c1 mod 64)%N :: utf8_decode r1
        | [] => []
        end
      else if (b <? 240)%N then
        match r with
        | c1 :: c2 :: r2 =>
            ((b mod 16) * 4096 + (c1 mod 64) * 64 + c2 mod 64)%N :: utf8_decode r2
        | _ => []
        end
      else
        match r with
        | c1 :: c2 :: c3 :: r3 =>
            ((b mod 8) * 262144 + (c1 mod 64) * 4096 + (c2 mod 64) * 64 + c3 mod 64)%N
              :: utf8_decode r3
        | _ => []
        end
  end.

Definition lit (s : string) : str :=
  utf8_decode (map (fun a => N_of_ascii a) (list_ascii_of_string s)).

Definition char_eqb (a b : char) : bool := N.eqb a b.

Fixpoint str_eqb (a b : str) : bool :=
  match a, b with
  | [], [] => true
  | x :: a', y :: b' => N.eqb x y && str_eqb a' b'
  | _, _ => false
  end.

(** Truth value of a string: [bool(s)], false exactly for the empty one. *)
Definition truthy_str (s : str) : bool :=
  match s with [] => false | _ :: _ => true end.

(** [Py_UNICODE_ISSPACE]: the code points that [str.strip()], [str.isspace()]
    and the regular-expression class [\s] treat as white space. *)
Definition is_space (c : char) : bool :=
  ((9 <=? c) && (c <=? 13) || (28 <=? c) && (c <=? 32)
   || (c =? 133) || (c =? 160) || (c =? 5760)
   || (8192 <=? c) && (c <=? 8202)
   || (c =? 8232) || (c =? 8233) || (c =? 8239) || (c =? 8287) || (c =? 12288))%N.

Fixpoint lstrip (s : str) : str :=
  match s with
  | c :: s' => if is_space c then lstrip s' else s
  | [] => []
  end.

Definition rstrip (s : str) : str := rev (lstrip (rev s)).

(** [s.strip()] *)
Definition strip (s : str) : str := rstrip (lstrip s).

(** [s.replace(c, "")] for a one-character [c]. *)
Definition remove_char (c : char) (s : str) : str :=
  filter (fun x => negb (char_eqb x c)) s.

Fixpoint starts_with (p s : str) : bool :=
  match p, s with
  | [], _ => true
  | x :: p', y :: s' => char_eqb x y && starts_with p' s'
  | _ :: _, [] => false
  end.

(** [p in s] on strings: [p] occurs in [s] as a contiguous substring. *)
Fixpoint contains (p s : str) : bool :=
  starts_with p s ||
  match s with
  | [] => false
  | _ :: s' => contains p s'
  end.

(** [sep.join(parts)] *)
Fixpoint join (sep : str) (parts : list str) : str :=
  match parts with
  | [] => []
  | [p] => p
  | p :: rest => p ++ sep ++ join sep rest
  end.

(* ================================================================== *)
(** * Exceptions *)
(* ================================================================== *)

(** The classes under [Exception] this program can meet. *)
Inductive exc_class :=
| ValueError | OverflowError | AttributeError | JSONDecodeError
| URLError | TimeoutError | OSError
| RecursionError | UnicodeEncodeError.

(** An exception instance: its class and [str(exc)] (the wording of the
    message, without the operand some messages quote). *)
Record exn := Exn { exn_class : exc_class; exn_str : str }.

Inductive res (A : Type) :=
| Ok (a : A)
| Raise (e : exn).
Arguments Ok {A} a.
Arguments Raise {A} e.

Definition bind {A B} (m : res A) (f : A -> res B) : res B :=
  match m with
  | Ok a => f a
  | Raise e => Raise e
  end.

Declare Scope res_scope.
Delimit Scope res_scope with res.
Notation "x <- m ;; k" := (bind m (fun x => k))
  (at level 61, m at next level, right associativity) : res_scope.
Local Open Scope res_scope.

Definition raise {A} (c : exc_class) (m : string) : res A := Raise (Exn c (lit m)).

Definition raises {A} (m : res A) (c : exc_class) : Prop :=
  exists msg, m = Raise (Exn c msg).

(* ================================================================== *)
(** * Python floats (IEEE-754 binary64) *)
(* ================================================================== *)

(** A finite float is [(-1)^neg * m * 2^e] with [m < 2^53] and
    [-1074 <= e <= 971]; every finite value below is produced by
    [round_ne], which rounds an exact rational to the nearest such number,
    ties to the even significand. *)
Inductive float :=
| FNan
| FInf (neg : bool)
| FFin (neg : bool) (m : Z) (e : Z).

(** [p / q] as a fraction once divided by [2^e]. *)
Definition scaled (p q e : Z) : Z * Z :=
  if 0 <=? e then (p, q * 2 ^ e) else (p * 2 ^ (- e), q).

(** Nearest binary64 to the rational [p / q] ([0 <= p], [0 < q]). *)
Definition round_ne (neg : bool) (p q : Z) : float :=
  if p =? 0 then FFin neg 0 (-1074)
  else
    let e0 := Z.max (Z.log2 p - Z.log2 q - 53) (-1074) in
    let e := if 2 ^ 53 <=? fst (scaled p q e0) / snd (scaled p q e0)
             then e0 + 1 else e0 in
    let n := fst (scaled p q e) in
    let d := snd (scaled p q e) in
    let m := n / d in
    let r := n mod d in
    let m1 := if (d <? 2 * r) || ((d =? 2 * r) && Z.odd m) then m + 1 else m in
    let e1 := if m1 =? 2 ^ 53 then e + 1 else e in
    let m2 := if m1 =? 2 ^ 53 then 2 ^ 52 else m1 in
    if 971 <? e1 then FInf neg else FFin neg m2 e1.

(** The float denoted by the decimal numeral [d * 10^x] ([0 <= d]). *)
Definition float_of_decimal (neg : bool) (d x : Z) : float :=
  if 0 <=? x then round_ne neg (d * 10 ^ x) 1 else round_ne neg d (10 ^ (- x)).

(** [float(n)] for a small integer constant. *)
Definition float_of_Z (n : Z) : float := round_ne (n <? 0) (Z.abs n) 1.

(** [a * b] *)
Definition fmul (a b : float) : float :=
  match a, b with
  | FNan, _ => FNan
  | _, FNan => FNan
  | FInf s, FInf t => FInf (xorb s t)
  | FInf s, FFin t m _ => if m =? 0 then FNan else FInf (xorb s t)
  | FFin s m _, FInf t => if m =? 0 then FNan else FInf (xorb s t)
  | FFin s m1 e1, FFin t m2 e2 =>
      if 0 <=? e1 + e2
      then round_ne (xorb s t) (m1 * m2 * 2 ^ (e1 + e2)) 1
      else round_ne (xorb s t) (m1 * m2) (2 ^ (- (e1 + e2)))
  end.

(** [int(f)]: truncation toward zero; NaN and the infinities raise. *)
Definition int_of_float (f : float) : res Z :=
  match f with
  | FNan => raise ValueError "cannot convert float NaN to integer"
  | FInf _ => raise OverflowError "cannot convert float infinity to integer"
  | FFin neg m e =>
      let a := if 0 <=? e then m * 2 ^ e else m / 2 ^ (- e) in
      Ok (if neg then - a else a)
  end.

(* ------------------------------------------------------------------ *)
(** ** Numerals *)

Definition is_digit (c : char) : bool := ((48 <=? c) && (c <=? 57))%N.

(** Longest prefix of characters in a class, and the rest. *)
Fixpoint span (p : char -> bool) (s : str) : str * str :=
  match s with
  | c :: s' => if p c then (c :: fst (span p s'), snd (span p s')) else ([], s)
  | [] => ([], [])
  end.

(** Value of a string of ASCII digits, most significant first. *)
Definition digits_val (ds : str) : Z :=
  fold_left (fun acc c => 10 * acc + (Z.of_N c - 48)) ds 0.

(** PEP 515: an underscore is accepted only between two digits; the
    result is the text with the underscores removed. *)
Fixpoint strip_underscores (prev : char) (s : str) : option str :=
  match s with
  | [] => if (prev =? 95)%N then None else Some []
  | c :: s' =>
      if (c =? 95)%N then
        if is_digit prev then strip_underscores c s' else None
      else if (prev =? 95)%N && negb (is_digit c) then None
      else option_map (cons c) (strip_underscores c s')
  end.

(** An optional sign, [-] or [+], and the text after it. *)
Definition split_sign (s : str) : bool * str :=
  match s with
  | c :: r =>
      if (c =? 45)%N then (true, r)
      else if (c =? 43)%N then (false, r)
      else (false, s)
  | [] => (false, s)
  end.

(** ASCII lower-casing, as the numeric parsers apply it to [inf]/[nan]. *)
Definition ascii_lower_char (c : char) : char :=
  if ((65 <=? c) && (c <=? 90))%N then (c + 32)%N else c.

(** Mantissa, optional fraction and optional exponent after the sign; the
    whole text has to be consumed and carry at least one digit. *)
Definition float_body (neg : bool) (s : str) : option float :=
  let ip := fst (span is_digit s) in
  let r1 := snd (span is_digit s) in
  let has_dot := match r1 with c :: _ => (c =? 46)%N | [] => false end in
  let fp := if has_dot then fst (span is_digit (tl r1)) else [] in
  let r2 := if has_dot then snd (span is_digit (tl r1)) else r1 in
  match ip ++ fp with
  | [] => None
  | _ :: _ =>
      let ex :=
        match r2 with
        | c :: r =>
            if ((c =? 101) || (c =? 69))%N then
              let sg := fst (split_sign r) in
              let ds := fst (span is_digit (snd (split_sign r))) in
              let r3 := snd (span is_digit (snd (split_sign r))) in
              match ds with
              | [] => (0, r2)
              | _ :: _ => (if sg then - digits_val ds else digits_val ds, r3)
              end
            else (0, r2)
        | [] => (0, r2)
        end in
      match snd ex with
      | [] => Some (float_of_decimal neg (digits_val (ip ++ fp))
                      (fst ex - Z.of_nat (length fp)))
      | _ :: _ => None
      end
  end.

(** [Py_ISSPACE]: the ASCII white space the numeric parsers skip. *)
Definition is_ascii_space (c : char) : bool :=
  ((9 <=? c) && (c <=? 13) || (c =? 32))%N.

Fixpoint lstrip_ascii (s : str) : str :=
  match s with
  | c :: s' => if is_ascii_space c then lstrip_ascii s' else s
  | [] => []
  end.

Definition strip_ascii (s : str) : str := rev (lstrip_ascii (rev (lstrip_ascii s))).

(** The digit zero of each run of ten decimal digits (Unicode 14.0, the
    character database of CPython 3.11; later versions add runs). *)
Definition decimal_zeros : list N :=
  [48; 1632; 1776; 1984; 2406; 2534; 2662; 2790; 2918; 3046; 3174; 3302; 3430;
   3558; 3664; 3792; 3872; 4160; 4240; 6112; 6160; 6470; 6608; 6784; 6800; 6992;
   7088; 7232; 7248; 42528; 43216; 43264; 43472; 43504; 43600; 44016; 65296;
   66720; 68912; 69734; 69872; 69942; 70096; 70384; 70736; 70864; 71248; 71360;
   71472; 71904; 72016; 72784; 73040; 73120; 92768; 92864; 93008; 120782;
   120792; 120802; 120812; 120822; 123200; 123632; 125264; 130032]%N.

(** [Py_UNICODE_TODECIMAL]: the value of a decimal digit of any script. *)
Definition decimal_value (c : char) : option N :=
  match find (fun z => (z <=? c) && (c <? z + 10))%N decimal_zeros with
  | Some z => Some (c - z)%N
  | None => None
  end.

(** What [float()] and [int()] make of a text that is not all ASCII
    before they parse it: a character below 127 is kept, white space
    becomes a space, a decimal digit its ASCII digit, and at anything
    else the text is cut and ends with a question mark. *)
Fixpoint decimal_and_space_to_ascii (s : str) : str :=
  match s with
  | [] => []
  | c :: r =>
      if (c <? 127)%N then c :: decimal_and_space_to_ascii r
      else if is_space c then 32%N :: decimal_and_space_to_ascii r
      else match decimal_value c with
           | Some d => (48 + d)%N :: decimal_and_space_to_ascii r
           | None => [63%N]
           end
  end.

(** The ASCII text the numeric parsers read: the transformation above
    (an ASCII text is taken as it is), the digit-separating underscores
    removed, and the ASCII white space around it dropped.  [None] is the
    [ValueError] for a misplaced underscore. *)
Definition numeric_text (s : str) : option str :=
  let t := if forallb (fun c => c <? 128)%N s then s
           else decimal_and_space_to_ascii s in
  option_map strip_ascii (strip_underscores 0%N t).

(** [float(s)] for a string [s]: a signed decimal numeral, [inf],
    [infinity] or [nan] (any case), in the text [numeric_text] gives.
    Anything else is a [ValueError]. *)
Definition float_of_str (s : str) : res float :=
  match numeric_text s with
  | None => raise ValueError "could not convert string to float"
  | Some t =>
      let neg := fst (split_sign t) in
      let body := snd (split_sign t) in
      let low := map ascii_lower_char body in
      if str_eqb low (lit "inf") || str_eqb low (lit "infinity") then Ok (FInf neg)
      else if str_eqb low (lit "nan") then Ok FNan
      else match float_body neg body with
           | Some f => Ok f
           | None => raise ValueError "could not convert string to float"
           end
  end.

(** The interpreter's default limit on the number of digits of a text
    converted to an [int] and of an [int] converted to text. *)
Definition int_max_str_digits : Z := 4300.

(** [int(s)] in base 10: a [ValueError] also for a text of more digits
    than the limit. *)
Definition int_of_str (s : str) : res Z :=
  match numeric_text s with
  | None => raise ValueError "invalid literal for int() with base 10"
  | Some t =>
      let neg := fst (split_sign t) in
      let body := snd (split_sign t) in
      match body with
      | [] => raise ValueError "invalid literal for int() with base 10"
      | _ :: _ =>
          if forallb is_digit body
          then
            if int_max_str_digits <? Z.of_nat (length body)
            then raise ValueError
                   "Exceeds the limit (4300 digits) for integer string conversion"
            else Ok (if neg then - digits_val body else digits_val body)
          else raise ValueError "invalid literal for int() with base 10"
      end
  end.

(** Decimal digits of a natural number. *)
Fixpoint digits_of_fuel (fuel : nat) (n : Z) (acc : str) : str :=
  match fuel with
  | O => acc
  | S k =>
      let acc' := Z.to_N (48 + n mod 10) :: acc in
      if n <? 10 then acc' else digits_of_fuel k (n / 10) acc'
  end.

Definition digits_of (n : Z) : str := digits_of_fuel (S (Z.to_nat (Z.log2 n))) n [].

(** [str(n)] for an [int]. *)
Definition str_of_int (n : Z) : str :=
  if n <? 0 then 45%N :: digits_of (- n) else digits_of n.

(** Grouping by thousands: a comma before every block of three digits
    counted from the right. *)
Fixpoint group3 (rds : str) : str :=
  match rds with
  | a :: b :: c :: ((_ :: _) as rest) => a :: b :: c :: 44%N :: group3_aux rest
  | _ => rds
  end
with group3_aux (rds : str) : str :=
  match rds with
  | a :: b :: c :: ((_ :: _) as rest) => a :: b :: c :: 44%N :: group3 rest
  | _ => rds
  end.

(** [format(n, ",")], the [{n:,}] of an f-string. *)
Definition format_thousands (n : Z) : str :=
  let body := rev (group3 (rev (digits_of (Z.abs n)))) in
  if n <? 0 then 45%N :: body else body.

(* ================================================================== *)
(** * Python objects decoded from JSON *)
(* ================================================================== *)

(** What [json.loads] returns: [None], [bool], [int], [float], [str],
    [list], and [dict] with string keys in insertion order. *)
#[local] Unset Elimination Schemes.
Inductive value :=
| VNone
| VBool (b : bool)
| VInt (z : Z)
| VFloat (f : float)
| VStr (s : str)
| VList (l : list value)
| VDict (d : list (str * value)).
#[local] Set Elimination Schemes.

Definition pydict := list (str * value).

(** [bool(v)]: the truth value used by [or], [if v] and [if not v]. *)
Definition truthy (v : value) : bool :=
  match v with
  | VNone => false
  | VBool b => b
  | VInt z => negb (z =? 0)
  | VFloat (FFin _ m _) => negb (m =? 0)
  | VFloat _ => true
  | VStr s => truthy_str s
  | VList l => match l with [] => false | _ :: _ => true end
  | VDict d => match d with [] => false | _ :: _ => true end
  end.

(** [a or b] *)
Definition py_or (a b : value) : value := if truthy a then a else b.

(** Lookup in an association list keyed by strings. *)
Fixpoint assoc {V} (k : str) (d : list (str * V)) : option V :=
  match d with
  | [] => None
  | (k', v) :: d' => if str_eqb k k' then Some v else assoc k d'
  end.

(** [d.get(k)], with [None] when the key is absent. *)
Definition dict_get (d : pydict) (k : str) : value :=
  match assoc k d with Some v => v | None => VNone end.

(** [d.get(k, default)] *)
Definition dict_get_default (d : pydict) (k : str) (default : value) : value :=
  match assoc k d with Some v => v | None => default end.

(** [d[k] = v]: an existing key keeps its position, a new key goes last. *)
Fixpoint dict_setitem {V} (k : str) (v : V) (d : list (str * V)) : list (str * V) :=
  match d with
  | [] => [(k, v)]
  | (k', v') :: d' =>
      if str_eqb k k' then (k, v) :: d' else (k', v') :: dict_setitem k v d'
  end.

(** [list(d.values())] *)
Definition dict_values {V} (d : list (str * V)) : list V := map snd d.

(** [isinstance(v, dict)] with the dictionary at hand. *)
Definition as_dict (v : value) : option pydict :=
  match v with VDict d => Some d | _ => None end.

(* ================================================================== *)
(** * The library the program calls *)
(* ================================================================== *)

(** Callbacks [HTMLParser.feed] issues while it scans a document. *)
Inductive event :=
| StartTag (tag : str) (attrs : list (str * option str))
| EndTag (tag : str)
| Data (data : str).

(** Library functions whose behaviour is taken as given: their results
    are used by the program but not computed here.
    - [lower]: [str.lower()];
    - [urljoin]: [urllib.parse.urljoin], which raises [ValueError] on a
      reference it cannot split;
    - [repr]: the text [str()] gives for a [float], a [list] or a [dict];
    - [html_events]: the callback sequence of [HTMLParser.feed]. *)
Class PyLib := {
  lower : str -> str;
  urljoin : str -> str -> res str;
  repr : value -> str;
  html_events : str -> list event
}.

(** [str(v)] *)
Definition py_str {L : PyLib} (v : value) : str :=
  match v with
  | VNone => lit "None"
  | VBool true => lit "True"
  | VBool false => lit "False"
  | VInt z => str_of_int z
  | VStr s => s
  | VFloat _ | VList _ | VDict _ => repr v
  end.

(* ================================================================== *)
(** * Regular expressions *)
(* ================================================================== *)

(** The fragment of [re] syntax the program's patterns are written in:
    one character of a class, a greedy bounded repetition of a class, a
    sequence, a greedy optional group and a capturing group. *)
Inductive re :=
| Chr (p : char -> bool)
| Rep (p : char -> bool) (lo : nat) (hi : option nat)
| Cat (r1 r2 : re)
| Opt (r : re)
| Grp (name : nat) (r : re).

Definition Plus (p : char -> bool) : re := Rep p 1 None.
Definition Star (p : char -> bool) : re := Rep p 0 None.
Definition is_char (c : char) : char -> bool := fun x => char_eqb x c.
Definition not_char (c : char) : char -> bool := fun x => negb (char_eqb x c).

(** Captured groups, most recent first. *)
Definition groups := list (nat * str).

Fixpoint group (n : nat) (g : groups) : str :=
  match g with
  | [] => []
  | (n', t) :: g' => if Nat.eqb n n' then t else group n g'
  end.

Section Backtracking.
Variable R : Type.

Definition may_take (hi : option nat) : bool :=
  match hi with Some O => false | _ => true end.

(** Greedy repetition of a class: take one more character when the
    class and the upper bound allow it, and only if the rest of the
    pattern then fails, stop here (allowed once [lo] characters have
    been taken).  The continuation receives the text consumed and the
    text left. *)
Fixpoint rep (p : char -> bool) (lo : nat) (hi : option nat) (s : str)
    (k : str -> str -> option R) : option R :=
  let stop := match lo with O => k [] s | S _ => None end in
  match s with
  | c :: s' =>
      if p c && may_take hi then
        match rep p (pred lo) (option_map pred hi) s' (fun t rest => k (c :: t) rest) with
        | Some x => Some x
        | None => stop
        end
      else stop
  | [] => stop
  end.

(** Backtracking matcher in continuation-passing style: alternatives
    are tried in the order the [re] module tries them and the first
    complete success is the result. *)
Fixpoint rmatch (r : re) (s : str) (g : groups)
    (k : str -> str -> groups -> option R) : option R :=
  match r with
  | Chr p =>
      match s with
      | c :: s' => if p c then k [c] s' g else None
      | [] => None
      end
  | Rep p lo hi => rep p lo hi s (fun t rest => k t rest g)
  | Cat r1 r2 =>
      rmatch r1 s g (fun t1 s1 g1 =>
        rmatch r2 s1 g1 (fun t2 s2 g2 => k (t1 ++ t2) s2 g2))
  | Opt r1 =>
      match rmatch r1 s g k with
      | Some x => Some x
      | None => k [] s g
      end
  | Grp n r1 => rmatch r1 s g (fun t s1 g1 => k t s1 ((n, t) :: g1))
  end.
End Backtracking.

(** A match: the text matched, the groups, and the text after it. *)
Definition rmatch_result : Type := str * groups * str.

(** [pattern.match(s)]: a match anchored at the start of [s]. *)
Definition match_at (r : re) (s : str) : option rmatch_result :=
  rmatch r s [] (fun t rest g => Some (t, g, rest)).

(** [re.search]: the match at the leftmost position that has one,
    together with the text skipped before it. *)
Fixpoint search (r : re) (s : str) : option (str * rmatch_result) :=
  match match_at r s with
  | Some m => Some ([], m)
  | None =>
      match s with
      | [] => None
      | c :: s' =>
          match search r s' with
          | Some (pre, m) => Some (c :: pre, m)
          | None => None
          end
      end
  end.

(** [pattern.finditer(s)]: successive non-overlapping matches, each
    search resuming where the previous match ended (one character further
    after an empty match). *)
Fixpoint finditer_fuel (fuel : nat) (r : re) (s : str) : list rmatch_result :=
  match fuel with
  | O => []
  | S fuel' =>
      match search r s with
      | None => []
      | Some (_, (t, g, rest)) =>
          (t, g, rest) ::
          match t, rest with
          | [], [] => []
          | [], _ :: rest' => finditer_fuel fuel' r rest'
          | _ :: _, _ => finditer_fuel fuel' r rest
          end
      end
  end.

Definition finditer (r : re) (s : str) : list rmatch_result :=
  finditer_fuel (S (length s)) r s.

(** [re.sub(pattern, repl, s)] with a literal replacement. *)
Fixpoint sub_fuel (fuel : nat) (r : re) (repl s : str) : str :=
  match fuel with
  | O => s
  | S fuel' =>
      match search r s with
      | None => s
      | Some (pre, (t, _, rest)) =>
          pre ++ repl ++
          match t, rest with
          | [], [] => []
          | [], c :: rest' => c :: sub_fuel fuel' r repl rest'
          | _ :: _, _ => sub_fuel fuel' r repl rest
          end
      end
  end.

Definition re_sub (r : re) (repl s : str) : str := sub_fuel (S (length s)) r repl s.

(* ================================================================== *)
(** * [json.loads] *)
(* ================================================================== *)

Definition c_quote : char := 34%N.
Definition c_backslash : char := 92%N.

Definition is_json_ws (c : char) : bool :=
  ((c =? 32) || (c =? 9) || (c =? 10) || (c =? 13))%N.

Fixpoint skip_ws (s : str) : str :=
  match s with
  | c :: s' => if is_json_ws c then skip_ws s' else s
  | [] => []
  end.

Definition hex_val (c : char) : option N :=
  if is_digit c then Some (c - 48)%N
  else if ((97 <=? c) && (c <=? 102))%N then Some (c - 87)%N
  else if ((65 <=? c) && (c <=? 70))%N then Some (c - 55)%N
  else None.

(** Four hexadecimal digits of a [\uXXXX] escape. *)
Definition hex4 (s : str) : option (N * str) :=
  match s with
  | a :: b :: c :: d :: r =>
      match hex_val a, hex_val b, hex_val c, hex_val d with
      | Some x, Some y, Some z, Some w => Some (x * 4096 + y * 256 + z * 16 + w, r)%N
      | _, _, _, _ => None
      end
  | _ => None
  end.

Definition simple_escape (c : char) : option char :=
  if (c =? 34)%N then Some 34%N        (* quote *)
  else if (c =? 92)%N then Some 92%N   (* backslash *)
  else if (c =? 47)%N then Some 47%N   (* slash *)
  else if (c =? 98)%N then Some 8%N    (* b *)
  else if (c =? 102)%N then Some 12%N  (* f *)
  else if (c =? 110)%N then Some 10%N  (* n *)
  else if (c =? 114)%N then Some 13%N  (* r *)
  else if (c =? 116)%N then Some 9%N   (* t *)
  else None.

(** The body of a string literal up to its closing quote (strict mode:
    a raw control character is an error), and the text after it. *)
Fixpoint scanstring (fuel : nat) (s : str) : option (str * str) :=
  match fuel with
  | O => None
  | S fuel' =>
      match s with
      | [] => None
      | c :: r =>
          if (c =? c_quote)%N then Some ([], r)
          else if (c =? c_backslash)%N then
            match r with
            | [] => None
            | e :: r1 =>
                if (e =? 117)%N then
                  match hex4 r1 with
                  | None => None
                  | Some (uni, r2) =>
                      let joined :=
                        if ((55296 <=? uni) && (uni <=? 56319))%N then
                          match r2 with
                          | 92%N :: 117%N :: r3 =>
                              match hex4 r3 with
                              | Some (uni2, r4) =>
                                  if ((56320 <=? uni2) && (uni2 <=? 57343))%N
                                  then Some (Some (65536 + (uni - 55296) * 1024 + (uni2 - 56320), r4)%N)
                                  else Some None
                              | None => None
                              end
                          | _ => Some None
                          end
                        else Some None in
                      match joined with
                      | None => None
                      | Some (Some (ch, r4)) =>
                          option_map (fun p => (ch :: fst p, snd p)) (scanstring fuel' r4)
                      | Some None =>
                          option_map (fun p => (uni :: fst p, snd p)) (scanstring fuel' r2)
                      end
                  end
                else
                  match simple_escape e with
                  | Some ch => option_map (fun p => (ch :: fst p, snd p)) (scanstring fuel' r1)
                  | None => None
                  end
            end
          else if (c <? 32)%N then None
          else option_map (fun p => (c :: fst p, snd p)) (scanstring fuel' r)
      end
  end.

(** What the decoder raises on a malformed document (the message
    names what was expected and where). *)
Definition decode_error {A} : res A := raise JSONDecodeError "Expecting value".

(** A JSON number: an optional minus sign, then [0] or a digit string
    not starting with [0], then an optional fraction (a dot and at least
    one digit) and an optional exponent ([e] or [E], an optional sign, at
    least one digit).  It is an [int] when there is neither fraction nor
    exponent, a [float] otherwise; an [int] of more digits than the
    interpreter's limit is a [ValueError], not a [JSONDecodeError]. *)
Definition scan_number (s : str) : res (value * str) :=
  let neg := match s with 45%N :: _ => true | _ => false end in
  let s0 := match s with 45%N :: r => r | _ => s end in
  let int_part :=
    match s0 with
    | c :: r =>
        if (c =? 48)%N then Some ([c], r)
        else if is_digit c then Some (span is_digit s0)
        else None
    | [] => None
    end in
  match int_part with
  | None => decode_error
  | Some (ip, r1) =>
      let frac :=
        match r1 with
        | 46%N :: ((d :: _) as r) =>
            if is_digit d then Some (span is_digit r) else None
        | _ => None
        end in
      let fp := match frac with Some (ds, _) => ds | None => [] end in
      let r2 := match frac with Some (_, r) => r | None => r1 end in
      let expo :=
        match r2 with
        | c :: r =>
            if ((c =? 101) || (c =? 69))%N then
              let sg := match r with 45%N :: _ => true | _ => false end in
              let r' := match r with 45%N :: t => t | 43%N :: t => t | _ => r end in
              match fst (span is_digit r') with
              | [] => None
              | (_ :: _) as ds => Some (if sg then - digits_val ds else digits_val ds,
                                       snd (span is_digit r'))
              end
            else None
        | [] => None
        end in
      match frac, expo with
      | None, None =>
          if int_max_str_digits <? Z.of_nat (length ip)
          then raise ValueError
                 "Exceeds the limit (4300 digits) for integer string conversion"
          else Ok (VInt (if neg then - digits_val ip else digits_val ip), r1)
      | _, _ =>
          let x := match expo with Some (e, _) => e | None => 0 end in
          let r3 := match expo with Some (_, r) => r | None => r2 end in
          Ok (VFloat (float_of_decimal neg (digits_val (ip ++ fp)) (x - Z.of_nat (length fp))), r3)
      end
  end.

(** The scanner: one JSON term at the head of [s], and the text after
    it.  [depth] is the number of containers that can still be entered
    before the interpreter's recursion check stops the decoder with a
    [RecursionError]. *)
Fixpoint scan_once (fuel depth : nat) (s : str) {struct fuel} : res (value * str) :=
  match fuel with
  | O => decode_error
  | S fuel' =>
      match s with
      | [] => decode_error
      | c :: r =>
          if (c =? c_quote)%N then
            match scanstring (S (length r)) r with
            | Some p => Ok (VStr (fst p), snd p)
            | None => decode_error
            end
          else if (c =? 123)%N then
            match depth with
            | O => raise RecursionError
                     "maximum recursion depth exceeded while decoding a JSON object from a unicode string"
            | S depth' =>
                match skip_ws r with
                | 125%N :: r1 => Ok (VDict [], r1)
                | r1 => p <- object_members fuel' depth' r1 [] ;; Ok (VDict (fst p), snd p)
                end
            end
          else if (c =? 91)%N then
            match depth with
            | O => raise RecursionError
                     "maximum recursion depth exceeded while decoding a JSON array from a unicode string"
            | S depth' =>
                match skip_ws r with
                | 93%N :: r1 => Ok (VList [], r1)
                | r1 => p <- array_items fuel' depth' r1 [] ;; Ok (VList (fst p), snd p)
                end
            end
          else if starts_with (lit "null") s then Ok (VNone, skipn 4 s)
          else if starts_with (lit "true") s then Ok (VBool true, skipn 4 s)
          else if starts_with (lit "false") s then Ok (VBool false, skipn 5 s)
          else if starts_with (lit "NaN") s then Ok (VFloat FNan, skipn 3 s)
          else if starts_with (lit "Infinity") s then Ok (VFloat (FInf false), skipn 8 s)
          else if starts_with (lit "-Infinity") s then Ok (VFloat (FInf true), skipn 9 s)
          else scan_number s
      end
  end
with object_members (fuel depth : nat) (s : str) (acc : pydict) {struct fuel}
    : res (pydict * str) :=
  match fuel with
  | O => decode_error
  | S fuel' =>
      match s with
      | 34%N :: r =>
          match scanstring (S (length r)) r with
          | None => decode_error
          | Some (key, r1) =>
              match skip_ws r1 with
              | 58%N :: r2 =>
                  p <- scan_once fuel' depth (skip_ws r2) ;;
                  let acc' := dict_setitem key (fst p) acc in
                  match skip_ws (snd p) with
                  | 125%N :: r4 => Ok (acc', r4)
                  | 44%N :: r4 => object_members fuel' depth (skip_ws r4) acc'
                  | _ => decode_error
                  end
              | _ => decode_error
              end
          end
      | _ => decode_error
      end
  end
with array_items (fuel depth : nat) (s : str) (acc : list value) {struct fuel}
    : res (list value * str) :=
  match fuel with
  | O => decode_error
  | S fuel' =>
      p <- scan_once fuel' depth s ;;
      match skip_ws (snd p) with
      | 93%N :: r2 => Ok (acc ++ [fst p], r2)
      | 44%N :: r2 => array_items fuel' depth (skip_ws r2) (acc ++ [fst p])
      | _ => decode_error
      end
  end.

(** The number of nested JSON containers the decoder enters before the
    recursion check fires, where [parse_json_ld] calls it under [main]
    (CPython 3.11 with the default recursion limit of 1000; another
    limit or another interpreter version gives another number). *)
Definition json_nesting_limit : nat := 992.

(** [json.loads(s)] on a [str]: a leading byte-order mark, a malformed
    term and trailing text are each a [JSONDecodeError]; an integer
    literal over the digit limit is a [ValueError] and a nesting over
    the recursion limit a [RecursionError]. *)
Definition json_loads (s : str) : res value :=
  match s with
  | 65279%N :: _ => raise JSONDecodeError "Unexpected UTF-8 BOM (decode using utf-8-sig)"
  | _ =>
      p <- scan_once (2 * length s + 2) json_nesting_limit (skip_ws s) ;;
      match skip_ws (snd p) with
      | [] => Ok (fst p)
      | _ :: _ => raise JSONDecodeError "Extra data"
      end
  end.

(* ================================================================== *)
(** * The program *)
(* ================================================================== *)

Definition BASE_URL : str := lit "https://www.carsensor.net".

Definition SEARCH_URL : str :=
  lit "https://www.carsensor.net/usedcar/freeword/Honda+N-VAN+%E3%82%BF%E3%83%BC%E3%83%9C+%E3%83%9B%E3%83%AF%E3%82%A4%E3%83%88/index.html".

(* ------------------------------------------------------------------ *)
(** ** [JsonLdExtractor] *)

Module JsonLdExtractor.

Record t := mk {
  _in_json_ld : bool;
  _buf : list str;
  blocks : list str
}.

(** [__init__] *)
Definition init : t := mk false [] [].

Definition handle_starttag {L : PyLib} (self : t) (tag : str)
    (attrs : list (str * option str)) : t :=
  let attr_map :=
    fold_left (fun m kv => dict_setitem (lower (fst kv)) (snd kv) m) attrs [] in
  let type_attr :=
    match assoc (lit "type") attr_map with
    | Some (Some v) => v
    | _ => []
    end in
  if str_eqb (lower tag) (lit "script")
     && str_eqb (lower type_attr) (lit "application/ld+json")
  then mk true [] (blocks self)
  else self.

Definition handle_data (self : t) (data : str) : t :=
  if _in_json_ld self then mk true (_buf self ++ [data]) (blocks self) else self.

Definition handle_endtag {L : PyLib} (self : t) (tag : str) : t :=
  if str_eqb (lower tag) (lit "script") && _in_json_ld self then
    let raw := strip (concat (_buf self)) in
    mk false [] (if truthy_str raw then blocks self ++ [raw] else blocks self)
  else self.

Definition handle {L : PyLib} (self : t) (ev : event) : t :=
  match ev with
  | StartTag tag attrs => handle_starttag self tag attrs
  | EndTag tag => handle_endtag self tag
  | Data data => handle_data self data
  end.

(** [feed]: the handlers run over the callbacks of the scan. *)
Definition feed {L : PyLib} (self : t) (html : str) : t :=
  fold_left handle (html_events html) self.

End JsonLdExtractor.

(* ------------------------------------------------------------------ *)
(** ** [Listing] *)

(** The [Listing] dataclass. *)
Record Listing := mkListing {
  title : str;
  price_yen : option Z;
  price_label : str;
  location : str;
  image_url : str;
  detail_url : str;
  source : str
}.

(** Constructor call without the defaulted [source] argument. *)
Definition new_Listing (t : str) (py : option Z) (pl loc img det : str) : Listing :=
  mkListing t py pl loc img det (lit "carsensor.net").

(* ------------------------------------------------------------------ *)
(** ** [normalize_price] *)

Definition c_comma : char := 44%N.
Definition c_dot : char := 46%N.
(** U+4E07, the ten-thousand unit. *)
Definition c_man : char := 19975%N.
(** U+5186, the yen unit. *)
Definition c_yen : char := 20870%N.

(** [([0-9]+(?:\.[0-9]+)?)\s*万円] *)
Definition re_man_yen : re :=
  Cat (Grp 1 (Cat (Plus is_digit) (Opt (Cat (Chr (is_char c_dot)) (Plus is_digit)))))
      (Cat (Star is_space) (Cat (Chr (is_char c_man)) (Chr (is_char c_yen)))).

(** [([0-9]+)\s*円] *)
Definition re_yen : re :=
  Cat (Grp 1 (Plus is_digit)) (Cat (Star is_space) (Chr (is_char c_yen))).

Definition normalize_price (text : str) : res (option Z) :=
  let cleaned := remove_char c_comma text in
  match search re_man_yen cleaned with
  | Some (_, (_, g, _)) =>
      f <- float_of_str (group 1 g) ;;
      n <- int_of_float (fmul f (float_of_Z 10000)) ;;
      Ok (Some n)
  | None =>
      match search re_yen cleaned with
      | Some (_, (_, g, _)) =>
          n <- int_of_str (group 1 g) ;;
          Ok (Some n)
      | None => Ok None
      end
  end.

(* ------------------------------------------------------------------ *)
(** ** [parse_json_ld] *)

(** [except C] catches instances of [C] and of its subclasses. *)
Definition is_instance (e : exn) (c : exc_class) : bool :=
  match c, exn_class e with
  | ValueError, ValueError | ValueError, JSONDecodeError
  | ValueError, UnicodeEncodeError => true
  | RecursionError, RecursionError => true
  | UnicodeEncodeError, UnicodeEncodeError => true
  | OverflowError, OverflowError => true
  | AttributeError, AttributeError => true
  | JSONDecodeError, JSONDecodeError => true
  | URLError, URLError | OSError, URLError => true
  | TimeoutError, TimeoutError | OSError, TimeoutError => true
  | OSError, OSError => true
  | _, _ => false
  end.

(** The sequence [items] built from the decoded block. *)
Definition items_of (data : value) : list value :=
  match data with
  | VDict d =>
      match assoc (lit "itemListElement") d with
      | Some (VList l) =>
          flat_map (fun x =>
                      match x with
                      | VDict xd => [dict_get_default xd (lit "item") x]
                      | _ => []
                      end) l
      | _ => [data]
      end
  | VList l => filter (fun x => match x with VDict _ => true | _ => false end) l
  | _ => []
  end.

(** [type(v).__name__] *)
Definition type_name (v : value) : str :=
  match v with
  | VNone => lit "NoneType"
  | VBool _ => lit "bool"
  | VInt _ => lit "int"
  | VFloat _ => lit "float"
  | VStr _ => lit "str"
  | VList _ => lit "list"
  | VDict _ => lit "dict"
  end.

(** Attribute lookup [item.get]: only a [dict] has the method. *)
Definition get_method (item : value) : res pydict :=
  match item with
  | VDict d => Ok d
  | _ => Raise (Exn AttributeError
                  (lit "'" ++ type_name item ++ lit "' object has no attribute 'get'"))
  end.

(** [price_yen] and [price_label] from the [offers] dictionary
    (source lines 101 to 113). *)
Definition price_fields {L : PyLib} (offers : pydict) : res (option Z * str) :=
  let price := dict_get offers (lit "price") in
  let price_currency := dict_get offers (lit "priceCurrency") in
  match price with
  | VNone => Ok (None, [])
  | _ =>
      price_yen <-
        match (f <- float_of_str (py_str price) ;; n <- int_of_float f ;; Ok (Some n)) with
        | Ok r => Ok r
        | Raise e =>
            if is_instance e ValueError then normalize_price (py_str price)
            else Raise e
        end ;;
      match price_yen with
      | Some n => Ok (price_yen, format_thousands n ++ lit " 円")
      | None =>
          Ok (None,
              strip (py_str price ++ lit " " ++
                     (if truthy price_currency then py_str price_currency else [])))
      end
  end.

(** [location] (source lines 115 to 117 and 132). *)
Definition location_field {L : PyLib} (item : pydict) : str :=
  let area := py_or (py_or (dict_get item (lit "areaServed"))
                           (dict_get item (lit "address")))
                    (VStr []) in
  match area with
  | VDict a =>
      join (lit " ") (map py_str (filter truthy (dict_values a)))
  | _ => py_str area
  end.

(** [image_url] (source lines 119 to 123). *)
Definition image_field {L : PyLib} (item : pydict) : res str :=
  let image := dict_get item (lit "image") in
  match image with
  | VList l =>
      match l with
      | first :: _ => urljoin BASE_URL (py_str first)
      | [] => Ok []
      end
  | _ => urljoin BASE_URL (py_str (py_or image (VStr [])))
  end.

(** [detail_url] (source line 125). *)
Definition detail_field {L : PyLib} (item : pydict) : res str :=
  urljoin BASE_URL (py_str (py_or (dict_get item (lit "url")) (VStr []))).

(** One turn of the loop over [items]: [None] is the [continue] taken
    for an empty title, [Some] the listing appended. *)
Definition listing_of_item {L : PyLib} (item : value) : res (option Listing) :=
  d <- get_method item ;;
  let title := strip (py_str (dict_get_default d (lit "name") (VStr []))) in
  if negb (truthy_str title) then Ok None
  else
    let offers :=
      match dict_get d (lit "offers") with
      | VDict o => o
      | _ => []
      end in
    pf <- price_fields offers ;;
    let area := location_field d in
    image_url <- image_field d ;;
    detail_url <- detail_field d ;;
    Ok (Some (new_Listing title (fst pf) (snd pf) area image_url detail_url)).

(** The loop over [items], appending to [listings]. *)
Fixpoint items_loop {L : PyLib} (items : list value) (listings : list Listing)
    : res (list Listing) :=
  match items with
  | [] => Ok listings
  | item :: rest =>
      r <- listing_of_item item ;;
      items_loop rest (match r with Some l => listings ++ [l] | None => listings end)
  end.

(** The loop over [parser.blocks] (source lines 76 to 136). *)
Fixpoint blocks_loop {L : PyLib} (blocks : list str) (listings : list Listing)
    : res (list Listing) :=
  match blocks with
  | [] => Ok listings
  | raw :: rest =>
      match json_loads raw with
      | Raise e =>
          if is_instance e JSONDecodeError then blocks_loop rest listings
          else Raise e
      | Ok data =>
          listings' <- items_loop (items_of data) listings ;;
          blocks_loop rest listings'
      end
  end.

Definition parse_json_ld {L : PyLib} (html : str) : res (list Listing) :=
  let parser := JsonLdExtractor.feed JsonLdExtractor.init html in
  blocks_loop (JsonLdExtractor.blocks parser) [].

(* ------------------------------------------------------------------ *)
(** ** [parse_fallback_html] *)

(** How a cased literal of a pattern compiled with [re.IGNORECASE]
    compares with a character of the text: the text character is
    lower-cased (among the non-ASCII code points only U+0130 and U+212A
    lower-case to an ASCII letter), and [i] and [s] also accept U+0131
    and U+017F. *)
Definition sre_lower (c : char) : char :=
  if ((65 <=? c) && (c <=? 90))%N then (c + 32)%N
  else if (c =? 304)%N then 105%N
  else if (c =? 8490)%N then 107%N
  else c.

Definition ci (pc : char) : char -> bool :=
  fun c =>
    let lo := ascii_lower_char pc in
    ((sre_lower c =? lo) || ((lo =? 105) && (c =? 305)) || ((lo =? 115) && (c =? 383)))%N.

(** A literal text of the pattern, under [re.IGNORECASE]. *)
Fixpoint Lit_ci (first : char) (rest : str) : re :=
  match rest with
  | [] => Chr (ci first)
  | c :: rest' => Cat (Chr (ci first)) (Lit_ci c rest')
  end.

Definition c_lt : char := 60%N.
Definition c_gt : char := 62%N.
Definition c_slash : char := 47%N.

(** The pattern of [parse_fallback_html]: an anchor whose [href] starts
    with [/usedcar/detail/]; group 1 is [url], group 2 is [title]. *)
Definition re_detail_anchor : re :=
  Cat (Lit_ci c_lt (lit "a"))
 (Cat (Plus (not_char c_gt))
 (Cat (Lit_ci 104%N (lit "ref=" ++ [c_quote]))
 (Cat (Grp 1 (Cat (Lit_ci c_slash (lit "usedcar/detail/")) (Plus (not_char c_quote))))
 (Cat (Chr (is_char c_quote))
 (Cat (Star (not_char c_gt))
 (Cat (Chr (is_char c_gt))
 (Cat (Grp 2 (Rep (not_char c_lt) 2 (Some 200%nat)))
      (Lit_ci c_lt (lit "/a>"))))))))).

(** The loop over the matches. *)
Fixpoint fallback_loop {L : PyLib} (ms : list rmatch_result) (listings : list Listing)
    : res (list Listing) :=
  match ms with
  | [] => Ok listings
  | (_, g, _) :: rest =>
      let title := strip (re_sub (Plus is_space) (lit " ") (group 2 g)) in
      if negb (truthy_str title) then fallback_loop rest listings
      else
        detail_url <- urljoin BASE_URL (group 1 g) ;;
        let listings' := listings ++ [new_Listing title None [] [] [] detail_url] in
        if (60 <=? length listings')%nat then Ok listings'
        else fallback_loop rest listings'
  end.

Definition parse_fallback_html {L : PyLib} (html : str) : res (list Listing) :=
  fallback_loop (finditer re_detail_anchor html) [].

(* ------------------------------------------------------------------ *)
(** ** [scrape] *)

(** [item.detail_url or f"{item.title}-{item.price_label}-{item.location}"] *)
Definition listing_key (item : Listing) : str :=
  if truthy_str (detail_url item) then detail_url item
  else title item ++ lit "-" ++ price_label item ++ lit "-" ++ location item.

(** The dictionary [uniq] after the loop over [listings]. *)
Definition uniq_of (listings : list Listing) : list (str * Listing) :=
  fold_left (fun uniq item => dict_setitem (listing_key item) item uniq) listings [].

(** [list(uniq.values())] *)
Definition dedupe (listings : list Listing) : list Listing :=
  dict_values (uniq_of listings).

(** [scrape]: [response] is what the request yields, the decoded body
    or the exception [urlopen] or [read] raises. *)
Definition scrape {L : PyLib} (response : res str) : res (list Listing) :=
  html <- response ;;
  listings <- parse_json_ld html ;;
  listings <- match listings with
              | [] => parse_fallback_html html
              | _ :: _ => Ok listings
              end ;;
  Ok (dedupe listings).

(* ------------------------------------------------------------------ *)
(** ** [apply_filters] *)

Definition price_within (max_price : Z) (item : Listing) : bool :=
  match price_yen item with
  | None => true
  | Some p => p <=? max_price
  end.

Definition apply_filters {L : PyLib} (listings : list Listing)
    (max_price : option Z) (region_keyword : option str) : list Listing :=
  let filtered := listings in
  let filtered :=
    match max_price with
    | Some mp => filter (price_within mp) filtered
    | None => filtered
    end in
  let filtered :=
    match region_keyword with
    | Some kw =>
        if truthy_str kw then
          let region_kw := lower kw in
          filter (fun item => contains region_kw (lower (location item))) filtered
        else filtered
    | None => filtered
    end in
  filtered.

(* ------------------------------------------------------------------ *)
(** ** [main] *)

(** Parsed command line. *)
Record Args := mkArgs {
  max_price : option Z;
  region : option str;
  out : str
}.

Record Query := mkQuery {
  q_model : str;
  q_color : str;
  q_feature : str;
  q_max_price : option Z;
  q_region : option str
}.

(** The dictionary [payload]. *)
Record Payload := mkPayload {
  generated_at : str;
  p_source : str;
  query : Query;
  error : option str;
  count : nat;
  items : list Listing
}.

(** A surrogate code point: a [str] can hold one (a JSON escape such as
    [\ud800] decodes to one), UTF-8 cannot encode it. *)
Definition is_surrogate (c : char) : bool := ((55296 <=? c) && (c <=? 57343))%N.

Definition utf8_encodable (s : str) : bool := negb (existsb is_surrogate s).

Definition listing_texts (l : Listing) : list str :=
  [title l; price_label l; location l; image_url l; detail_url l; source l].

Definition option_text (o : option str) : list str :=
  match o with Some s => [s] | None => [] end.

(** The texts of the payload, which [json.dumps(..., ensure_ascii=False)]
    writes out character for character (the keys and the numbers are
    ASCII). *)
Definition payload_texts (p : Payload) : list str :=
  [generated_at p; p_source p; q_model (query p); q_color (query p); q_feature (query p)]
  ++ option_text (q_region (query p)) ++ option_text (error p)
  ++ flat_map listing_texts (items p).

(** What [main] does to the file system, as a record of its calls:
    [dirs] holds the paths whose parent directory [mkdir] was asked for,
    latest first, and [files] the [write_text] calls in order, each with
    the path it was given and the document it wrote, or [None] when the
    file was opened (so created or emptied) and the write raised.
    Creating the directory and opening the file are taken to succeed (a
    full disk or a missing permission is outside the model). *)
Record FS := mkFS {
  dirs : list str;
  files : list (str * option Payload)
}.

(** [args.out.parent.mkdir(parents=True, exist_ok=True)] *)
Definition mkdir_parent (path : str) (fs : FS) : FS :=
  mkFS (path :: dirs fs) (files fs).

(** [args.out.write_text(json.dumps(payload, ensure_ascii=False, indent=2),
    encoding="utf-8")]: the file is opened for writing, then the text is
    encoded, which raises [UnicodeEncodeError] when it holds a
    surrogate. *)
Definition write_text (path : str) (doc : Payload) (fs : FS) : FS * res unit :=
  if forallb utf8_encodable (payload_texts doc)
  then (mkFS (dirs fs) (files fs ++ [(path, Some doc)]), Ok tt)
  else (mkFS (dirs fs) (files fs ++ [(path, None)]),
        raise UnicodeEncodeError
          "'utf-8' codec can't encode character: surrogates not allowed").

(** [main]: [args] is the parsed command line, [response] the outcome of
    the request, [now] the clock reading.  The result is the file system
    after the run and how the run ends: normally, or with the exception
    that leaves [main]. *)
Definition main {L : PyLib} (args : Args) (response : res str) (now : str) (fs : FS)
    : FS * res unit :=
  let caught :=
    match scrape response with
    | Ok listings => (listings, None)
    | Raise exc => ([], Some (exn_str exc))
    end in
  let listings := apply_filters (fst caught) (max_price args) (region args) in
  let payload :=
    mkPayload now SEARCH_URL
      (mkQuery (lit "Honda N-VAN") (lit "white") (lit "turbo")
               (max_price args) (region args))
      (snd caught) (length listings) listings in
  write_text (out args) payload (mkdir_parent (out args) fs).

(* ================================================================== *)
(** * A reference instance of the library *)
(* ================================================================== *)

(** [str.lower()] restricted to the ASCII letters. *)
Definition ascii_lower (s : str) : str := map ascii_lower_char s.

(** [urljoin] for a base that is a bare origin, on the references met in
    the examples: the empty reference gives the base, an absolute path is
    appended to it, a reference with a scheme is kept, a
    network-path reference takes the scheme of the base and anything else
    is placed under the root.  (Dot segments, queries, fragments and
    malformed authorities are not treated.) *)
Definition origin_urljoin (base url : str) : res str :=
  match url with
  | [] => Ok base
  | c :: _ =>
      if contains (lit "://") url then Ok url
      else if starts_with (lit "//") url then Ok (lit "https:" ++ url)
      else if (c =? c_slash)%N then Ok (base ++ url)
      else Ok (base ++ lit "/" ++ url)
  end.

(** The authority of a network-path reference: the text after [//] up
    to the next [/], [?] or [#]. *)
Definition authority_of (url : str) : str :=
  fst (span (fun c => negb ((c =? 47) || (c =? 63) || (c =? 35)))%N (skipn 2 url)).

(** The fullwidth forms of [#], [/], [:], [?] and [@], which
    compatibility normalisation turns into those delimiters. *)
Definition fullwidth_delimiter (c : char) : bool :=
  ((c =? 65283) || (c =? 65295) || (c =? 65306) || (c =? 65311) || (c =? 65312))%N.

(** [origin_urljoin] with the check [urlsplit] makes on the authority: a
    character that normalises to a delimiter is a [ValueError] whose
    message quotes the authority as it is. *)
Definition checking_urljoin (base url : str) : res str :=
  if starts_with (lit "//") url && existsb fullwidth_delimiter (authority_of url)
  then Raise (Exn ValueError
                (lit "netloc '" ++ authority_of url
                 ++ lit "' contains invalid characters under NFKC normalization"))
  else origin_urljoin base url.

(** The library with the callbacks of the document scan supplied by
    [events]; [repr] is a placeholder, the examples never print a
    [float], a [list] or a [dict]. *)
Definition ref_lib (events : str -> list event) : PyLib :=
  {| lower := ascii_lower;
     urljoin := origin_urljoin;
     repr := fun _ => lit "<object>";
     html_events := events |}.

(** The same library with the checking [urljoin]. *)
Definition checking_lib (events : str -> list event) : PyLib :=
  {| lower := ascii_lower;
     urljoin := checking_urljoin;
     repr := fun _ => lit "<object>";
     html_events := events |}.

(** A document without markup. *)
Definition no_events : str -> list event := fun _ => [].

(** The callbacks for a document that consists of JSON-LD script
    elements with the given contents. *)
Definition script_events (raws : list str) : str -> list event :=
  fun _ =>
    flat_map (fun raw =>
                [StartTag (lit "script") [(lit "type", Some (lit "application/ld+json"))];
                 Data raw;
                 EndTag (lit "script")]) raws.

(** A text written with an apostrophe in place of each double quote. *)
Definition quoted (s : string) : str :=
  map (fun c => if (c =? 39)%N then c_quote else c) (lit s).

(** Sample JSON-LD blocks. *)
Definition block_item_list : str :=
  quoted "{'@type':'ItemList','itemListElement':[{'@type':'ListItem','position':1,'item':{'name':'Honda N-VAN','url':'/usedcar/detail/AU1/index.html','offers':{'price':'1480000','priceCurrency':'JPY'},'areaServed':'Tokyo'}},{'item':{'name':'  '}},{'item':{'name':'N-VAN Turbo','offers':{'price':'98.5万円'}}}]}".

Definition block_malformed : str := quoted "{'name': 'broken', ".

(** A list item whose [item] is a URL string, not an object. *)
Definition block_item_is_url : str :=
  quoted "{'itemListElement':[{'item':'/usedcar/detail/AU1/index.html'}]}".

Definition block_negative_price : str :=
  quoted "{'name':'Honda N-VAN','offers':{'price':-5}}".

Definition block_no_offers : str := quoted "{'name':'Honda N-VAN'}".

(** A candidate whose [url] is a network-path reference with a lone
    surrogate (the escape [\ud800]) and a fullwidth number sign in its
    authority. *)
Definition block_surrogate_url : str := quoted "{'name':'x','url':'//a\ud800＃b'}".

(** The message [urljoin] raises for it: the authority quoted, with the
    surrogate in it. *)
Definition surrogate_netloc_message : str :=
  lit "netloc 'a" ++ [55296%N] ++ lit "＃b' contains invalid characters under NFKC normalization".

(** A results page without structured data: two detail anchors, then
    one whose text is blank. *)
Definition page_with_anchors : str :=
  quoted "<ul><li><a class='c' href='/usedcar/detail/AU1/index.html'>Honda   N-VAN </a></li><li><A HREF='/usedcar/detail/AU2/index.html' id='x'>N-VAN Turbo</A></li><li><a x href='/usedcar/detail/AU3/'>    </a></li></ul>".

(** Command line and clock used in the examples. *)
Definition example_args : Args := mkArgs (Some 1000000) None (lit "data/listings.json").
Definition example_now : str := lit "2024-01-01T00:00:00+00:00".
Definition empty_fs : FS := mkFS [] [].

(** Sample listings. *)
Definition listing_shibuya : Listing :=
  new_Listing (lit "Honda N-VAN") None [] (lit "Tokyo-to Shibuya-ku") []
    (lit "https://www.carsensor.net/usedcar/detail/AU1/index.html").

Definition listing_osaka : Listing :=
  new_Listing (lit "Honda N-VAN") (Some 1500000) (lit "1,500,000 円") (lit "Osaka") []
    (lit "https://www.carsensor.net/usedcar/detail/AU1/index.html").

Definition listing_other : Listing :=
  new_Listing (lit "N-VAN Turbo") (Some 985000) (lit "985,000 円") (lit "Tokyo") []
    (lit "https://www.carsensor.net/usedcar/detail/AU2/index.html").

(* ================================================================== *)
(** * The specification's wording of the list operations *)
(* ================================================================== *)

(** [p] occurs in [s]. *)
Definition substring (p s : str) : Prop := exists pre post, s = pre ++ p ++ post.

(** Max-price rule: the price is unknown or at most the threshold. *)
Definition price_rule (max_price : option Z) (item : Listing) : bool :=
  match max_price with
  | None => true
  | Some mp =>
      match price_yen item with
      | None => true
      | Some p => p <=? mp
      end
  end.

(** Region rule: the lower-cased keyword occurs in the lower-cased
    location; an absent or empty keyword keeps every listing. *)
Definition region_rule {L : PyLib} (region_keyword : option str) (item : Listing) : bool :=
  match region_keyword with
  | None => true
  | Some [] => true
  | Some kw => contains (lower kw) (lower (location item))
  end.

(** The keys of a sequence in the order of their first occurrence. *)
Fixpoint first_seen (ks : list str) : list str :=
  match ks with
  | [] => []
  | k :: rest => k :: filter (fun k' => negb (str_eqb k' k)) (first_seen rest)
  end.

(** [k in ks] *)
Definition key_in (k : str) (ks : list str) : bool := existsb (str_eqb k) ks.

(** The last listing of a sequence that has the key [k]. *)
Definition last_with_key (k : str) (l : list Listing) : option Listing :=
  find (fun x => str_eqb (listing_key x) k) (rev l).

(** ** What it means for a pattern to match a text

    [matches r t g g']: the pattern [r] matches exactly the text [t],
    taking the captured groups from [g] to [g']. *)
Definition within (hi : option nat) (n : nat) : Prop :=
  match hi with
  | Some h => (n <= h)%nat
  | None => True
  end.

Fixpoint matches (r : re) (t : str) (g g' : groups) : Prop :=
  match r with
  | Chr p => exists c, t = [c] /\ p c = true /\ g' = g
  | Rep p lo hi =>
      forallb p t = true /\ (lo <= length t)%nat /\ within hi (length t) /\ g' = g
  | Cat r1 r2 =>
      exists t1 t2 g1, t = t1 ++ t2 /\ matches r1 t1 g g1 /\ matches r2 t2 g1 g'
  | Opt r1 => matches r1 t g g' \/ (t = [] /\ g' = g)
  | Grp n r1 => exists g1, matches r1 t g g1 /\ g' = (n, t) :: g1
  end.

(** ** Numerals and unit markers in a price text *)

(** A non-empty string of ASCII digits. *)
Definition digit_string (ds : str) : Prop := ds <> [] /\ forallb is_digit ds = true.

(** An integer or decimal numeral: digits, optionally a dot and digits. *)
Definition numeral (g : str) : Prop :=
  digit_string g \/
  exists ip fp, g = ip ++ [c_dot] ++ fp /\ digit_string ip /\ digit_string fp.

(** After [pre], the text [s] continues with the numeral [g], optional
    white space and the marker 万円. *)
Definition man_yen_at (s pre g : str) : Prop :=
  exists ws post,
    s = pre ++ g ++ ws ++ [c_man; c_yen] ++ post
    /\ numeral g /\ forallb is_space ws = true.

(** After [pre], the text [s] continues with the digit string [g],
    optional white space and the marker 円. *)
Definition yen_at (s pre g : str) : Prop :=
  exists ws post,
    s = pre ++ g ++ ws ++ [c_yen] ++ post
    /\ digit_string g /\ forallb is_space ws = true.

(** The float a numeral denotes: its digits without the dot, scaled by
    the number of fraction digits. *)
Definition numeral_float (g : str) : float :=
  let ip := fst (span is_digit g) in
  let fp := tl (snd (span is_digit g)) in
  float_of_decimal false (digits_val (ip ++ fp)) (- Z.of_nat (length fp)).

(** ** [normalize_price] as the specification words it

    A numeral immediately followed by 万円 gives the numeral times 10,000,
    truncated, in exact arithmetic; otherwise an integer numeral followed
    by 円 gives that integer; otherwise there is no match. *)
Definition re_numeral : re :=
  Cat (Plus is_digit) (Opt (Cat (Chr (is_char c_dot)) (Plus is_digit))).

Definition re_man_yen_adjacent : re :=
  Cat (Grp 1 re_numeral) (Cat (Chr (is_char c_man)) (Chr (is_char c_yen))).

Definition times_10000_truncated (g : str) : Z :=
  let ip := fst (span is_digit g) in
  let fp := tl (snd (span is_digit g)) in
  (digits_val (ip ++ fp) * 10000) / 10 ^ Z.of_nat (length fp).

Definition normalize_price_as_worded (text : str) : option Z :=
  let cleaned := remove_char c_comma text in
  match search re_man_yen_adjacent cleaned with
  | Some (_, (_, g, _)) => Some (times_10000_truncated (group 1 g))
  | None =>
      match search re_yen cleaned with
      | Some (_, (_, g, _)) => Some (digits_val (group 1 g))
      | None => None
      end
  end.

(** Characters of a numeral: digits and the dot. *)
Definition numeral_char (c : char) : bool := is_digit c || char_eqb c c_dot.

(** A float that is not negative: [+inf], or finite with sign bit clear
    and a significand at least 0. *)
Definition nonneg_float (f : float) : Prop :=
  match f with
  | FNan => False
  | FInf neg => neg = false
  | FFin neg m _ => neg = false /\ 0 <= m
  end.

(** The fields of a fallback listing made from the match [m]. *)
Definition fallback_listing_of {L : PyLib} (m : rmatch_result) (l : Listing) : Prop :=
  title l = strip (re_sub (Plus is_space) (lit " ") (group 2 (snd (fst m))))
  /\ title l <> []
  /\ urljoin BASE_URL (group 1 (snd (fst m))) = Ok (detail_url l)
  /\ price_yen l = None /\ price_label l = [] /\ location l = []
  /\ image_url l = [].


(** The field [k] of a candidate is absent, [null] or the empty string. *)
Definition empty_field (d : pydict) (k : str) : Prop :=
  assoc k d = None \/ assoc k d = Some VNone \/ assoc k d = Some (VStr []).

(** The listing [l] got the price [n] from a candidate whose [offers]
    price converts directly: [n = int(float(str(price)))]. *)
Definition direct_price {L : PyLib} (l : Listing) (n : Z) : Prop :=
  exists d o f,
    listing_of_item (VDict d) = Ok (Some l)
    /\ dict_get d (lit "offers") = VDict o
    /\ float_of_str (py_str (dict_get o (lit "price"))) = Ok f
    /\ int_of_float f = Ok n.

(** A present price is not negative, or it was converted directly. *)
Definition price_sign_rule {L : PyLib} (l : Listing) : Prop :=
  forall n, price_yen l = Some n -> 0 <= n \/ direct_price l n.

(** ** The kernel's binary64 numbers, for comparison *)

Definition of_prim (f : PrimFloat.float) : float :=
  match Prim2SF f with
  | SpecFloat.S754_finite s m e => FFin s (Zpos m) e
  | SpecFloat.S754_zero s => FFin s 0 (-1074)
  | SpecFloat.S754_infinity s => FInf s
  | SpecFloat.S754_nan => FNan
  end.

(* ================================================================== *)
(** * Vocabulary for the further properties *)
(* ================================================================== *)

Definition is_start_tag (ev : event) : bool :=
  match ev with StartTag _ _ => true | _ => false end.

Definition is_end_tag (ev : event) : bool :=
  match ev with EndTag _ => true | _ => false end.

(** No white space at either end. *)
Definition trimmed (s : str) : Prop :=
  (forall c r, s = c :: r -> is_space c = false)
  /\ (forall r c, s = r ++ [c] -> is_space c = false).

(** A collected block: not empty, and unchanged by trimming. *)
Definition block_ok (b : str) : Prop := b <> [] /\ strip b = b /\ trimmed b.

(** [1] when the scanner is inside a JSON-LD script element. *)
Definition open_elements (st : JsonLdExtractor.t) : nat :=
  if JsonLdExtractor._in_json_ld st then 1%nat else 0%nat.

(** The text starts with a white-space character. *)
Definition starts_space (s : str) : bool :=
  match s with c :: _ => is_space c | [] => false end.

(** Every run of white space replaced by one U+0020. *)
Fixpoint squeeze (s : str) : str :=
  match s with
  | [] => []
  | c :: r =>
      if is_space c then (if starts_space r then squeeze r else 32%N :: squeeze r)
      else c :: squeeze r
  end.

(** Every white-space character of the text is a U+0020 that no white
    space follows. *)
Fixpoint single_spaced (t : str) : bool :=
  match t with
  | [] => true
  | c :: r =>
      (negb (is_space c) || ((c =? 32)%N && negb (starts_space r))) && single_spaced r
  end.

(** The title [parse_fallback_html] computes from a match. *)
Definition fallback_title (m : rmatch_result) : str :=
  strip (re_sub (Plus is_space) (lit " ") (group 2 (snd (fst m)))).

(** The match has a title once its white space is collapsed and trimmed. *)
Definition titled_match (m : rmatch_result) : bool := truthy_str (fallback_title m).

(** The candidate is an object whose trimmed name is not empty. *)
Definition titled {L : PyLib} (item : value) : bool :=
  match item with
  | VDict d => truthy_str (strip (py_str (dict_get_default d (lit "name") (VStr []))))
  | _ => false
  end.

(** The candidates of the blocks that decode, in document order. *)
Definition candidates (blocks : list str) : list value :=
  flat_map (fun raw => match json_loads raw with
                       | Ok data => items_of data
                       | Raise _ => []
                       end) blocks.

(** An event that is not the start tag of a [script] element. *)
Definition other_markup {L : PyLib} (ev : event) : Prop :=
  match ev with
  | StartTag tag _ => lower tag <> lit "script"
  | _ => True
  end.

(** The callbacks of one JSON-LD script element whose text comes in the
    given chunks. *)
Definition json_ld_element (chunks : list str) : list event :=
  StartTag (lit "script") [(lit "type", Some (lit "application/ld+json"))]
    :: map Data chunks ++ [EndTag (lit "script")].

(** The callbacks of a page: JSON-LD elements, each after some other
    markup, and other markup at the end. *)
Definition page_events (segs : list (list event * list str)) (tail : list event)
    : list event :=
  flat_map (fun seg => fst seg ++ json_ld_element (snd seg)) segs ++ tail.

(* ================================================================== *)
(** * Properties *)
(* ================================================================== *)

Unset Implicit Arguments.

(** ** Strings *)

Lemma str_eqb_eq (a b : str) : str_eqb a b = true <-> a = b.
Proof.
  revert b; induction a as [|x a IH]; destruct b as [|y b]; simpl;
    try (split; congruence).
  rewrite andb_true_iff, N.eqb_eq, IH. split.
  - intros [-> ->]; reflexivity.
  - intros E; injection E; auto.
Qed.

Lemma str_eqb_refl (a : str) : str_eqb a a = true.
Proof. apply str_eqb_eq; reflexivity. Qed.

Lemma str_eqb_neq (a b : str) : str_eqb a b = false <-> a <> b.
Proof.
  rewrite <- str_eqb_eq. destruct (str_eqb a b); split; congruence.
Qed.

Lemma str_eqb_sym (a b : str) : str_eqb a b = str_eqb b a.
Proof.
  destruct (str_eqb a b) eqn:E.
  - apply str_eqb_eq in E; subst; symmetry; apply str_eqb_refl.
  - symmetry; apply str_eqb_neq; apply str_eqb_neq in E; congruence.
Qed.


(** ** [apply_filters] *)

Lemma starts_with_prefix (p s : str) :
  starts_with p s = true <-> exists post, s = p ++ post.
Proof.
  revert s; induction p as [|x p IH]; intros s; simpl.
  - split; [intros _; exists s; reflexivity | reflexivity].
  - destruct s as [|y s].
    + split; [discriminate | intros [post E]; discriminate].
    + unfold char_eqb. rewrite andb_true_iff, N.eqb_eq, IH. split.
      * intros [-> [post ->]]. exists post; reflexivity.
      * intros [post E]. injection E as -> ->. split; [reflexivity | eauto].
Qed.

Lemma contains_substring (p s : str) : contains p s = true <-> substring p s.
Proof.
  unfold substring. induction s as [|c s IH].
  - simpl. rewrite orb_false_r, starts_with_prefix. split.
    + intros [post E]. exists [], post. exact E.
    + intros [pre [post E]]. destruct pre; [|discriminate].
      exists post. exact E.
  - cbn [contains]. rewrite orb_true_iff, starts_with_prefix, IH. split.
    + intros [[post E] | [pre [post E]]].
      * exists [], post. exact E.
      * exists (c :: pre), post. rewrite E. reflexivity.
    + intros [pre [post E]]. destruct pre as [|c' pre].
      * left. exists post. exact E.
      * right. injection E as _ E. exists pre, post. exact E.
Qed.

Lemma filter_filter_and {A} (f g : A -> bool) (l : list A) :
  filter g (filter f l) = filter (fun x => f x && g x) l.
Proof.
  induction l as [|x l IH]; simpl; [reflexivity|].
  destruct (f x); simpl; [destruct (g x)|]; rewrite IH; reflexivity.
Qed.

Lemma filter_true {A} (l : list A) : filter (fun _ => true) l = l.
Proof. induction l; simpl; congruence. Qed.

Lemma filter_idem {A} (f : A -> bool) (l : list A) :
  filter f (filter f l) = filter f l.
Proof.
  rewrite filter_filter_and. apply filter_ext. intros x. destruct (f x); reflexivity.
Qed.

(** The two conditional comprehensions of [apply_filters] amount to one
    pass with the conjunction of the two rules. *)
Lemma apply_filters_filter {L : PyLib} (l : list Listing) (m : option Z) (r : option str) :
  apply_filters l m r = filter (fun item => price_rule m item && region_rule r item) l.
Proof.
  unfold apply_filters, price_rule, region_rule, price_within.
  destruct m as [mp|]; destruct r as [[|c kw]|]; simpl truthy_str; cbv iota;
    try rewrite filter_filter_and;
    try (apply filter_ext; intros x; destruct (price_yen x); try destruct (_ <=? _);
         reflexivity);
    try (symmetry; apply filter_true).
Qed.

(** C6: [apply_filters] keeps, in their order, exactly the listings that
    pass the max-price rule (price absent or at most the threshold, when a
    threshold is set) and the region rule (lower-cased keyword a substring
    of the lower-cased location, when a non-empty keyword is set); an
    unset threshold and an unset or empty keyword keep everything, and the
    two filters compose sequentially. *)
Theorem apply_filters_keeps_exactly {L : PyLib}
    (l : list Listing) (m : option Z) (r : option str) :
  apply_filters l m r = filter (fun item => price_rule m item && region_rule r item) l
  /\ (forall item, price_rule m item = true <->
        (m = None \/
         exists mp, m = Some mp /\
           (price_yen item = None \/ exists p, price_yen item = Some p /\ p <= mp)))
  /\ (forall item, region_rule r item = true <->
        (r = None \/ r = Some [] \/
         exists kw, r = Some kw /\ kw <> [] /\
           substring (lower kw) (lower (location item))))
  /\ apply_filters l None None = l
  /\ apply_filters l m (Some []) = apply_filters l m None
  /\ apply_filters l m r = apply_filters (apply_filters l m None) None r.
Proof.
  split; [apply apply_filters_filter|].
  split.
  { intros item. unfold price_rule. destruct m as [mp|].
    - destruct (price_yen item) as [p|].
      + rewrite Z.leb_le. split.
        * intros Hle. right. exists mp. split; [reflexivity|]. right. exists p. auto.
        * intros [E | [mp' [E [E' | [p' [E' Hle]]]]]]; try discriminate.
          injection E as <-. injection E' as <-. exact Hle.
      + split; [|reflexivity]. intros _. right. exists mp. auto.
    - split; [auto | reflexivity]. }
  split.
  { intros item. unfold region_rule. destruct r as [[|c kw]|].
    - split; [auto | reflexivity].
    - rewrite contains_substring. split.
      + intros Hs. right; right. exists (c :: kw). repeat split; [discriminate | exact Hs].
      + intros [E | [E | [kw' [E [_ Hs]]]]]; try discriminate.
        injection E as <-. exact Hs.
    - split; [auto | reflexivity]. }
  split; [reflexivity|].
  split; [destruct m; reflexivity|].
  rewrite !apply_filters_filter, filter_filter_and.
  apply filter_ext. intros x. unfold region_rule at 2. unfold price_rule at 3.
  rewrite andb_true_r. reflexivity.
Qed.

(** C9: filtering an already filtered list again with the same
    parameters changes nothing. *)
Theorem apply_filters_idempotent {L : PyLib}
    (l : list Listing) (m : option Z) (r : option str) :
  apply_filters (apply_filters l m r) m r = apply_filters l m r.
Proof.
  rewrite !apply_filters_filter. apply filter_idem.
Qed.

(** ** De-duplication *)

Section Dedupe.


Lemma key_in_In (k : str) (ks : list str) : key_in k ks = true <-> In k ks.
Proof.
  unfold key_in. rewrite existsb_exists. split.
  - intros [x [Hin E]]. apply str_eqb_eq in E. subst. exact Hin.
  - intros Hin. exists k. split; [exact Hin | apply str_eqb_refl].
Qed.

Lemma first_seen_In (k : str) (ks : list str) : In k (first_seen ks) <-> In k ks.
Proof.
  induction ks as [|a ks IH]; simpl; [tauto|].
  rewrite filter_In, IH, negb_true_iff, str_eqb_neq.
  destruct (str_eqb k a) eqn:E.
  - apply str_eqb_eq in E. subst. tauto.
  - apply str_eqb_neq in E. split; [tauto|]. intros [Ha|Hin]; [left; exact Ha|].
    right. split; assumption.
Qed.

Lemma first_seen_NoDup (ks : list str) : NoDup (first_seen ks).
Proof.
  induction ks as [|a ks IH]; simpl; constructor.
  - rewrite filter_In, negb_true_iff, str_eqb_neq. intros [_ Hne]. congruence.
  - apply NoDup_filter. exact IH.
Qed.

Lemma filter_app_snoc (f : str -> bool) (l : list str) (k : str) :
  filter f (l ++ [k]) = if f k then filter f l ++ [k] else filter f l.
Proof.
  rewrite filter_app. simpl. destruct (f k); [reflexivity | apply app_nil_r].
Qed.

(** Appending a key: it is new at the end, or already placed. *)
Lemma first_seen_snoc (ks : list str) (k : str) :
  first_seen (ks ++ [k]) = if key_in k ks then first_seen ks else first_seen ks ++ [k].
Proof.
  induction ks as [|a ks IH]; simpl; [reflexivity|].
  rewrite IH. rewrite (str_eqb_sym k a).
  destruct (str_eqb a k) eqn:E; simpl.
  - destruct (key_in k ks); [reflexivity|].
    rewrite filter_app_snoc.
    apply str_eqb_eq in E. subst a. rewrite str_eqb_refl. reflexivity.
  - destruct (key_in k ks); [reflexivity|].
    rewrite filter_app_snoc.
    rewrite str_eqb_sym, E. reflexivity.
Qed.

Lemma dict_setitem_keys {V} (k : str) (v : V) (d : list (str * V)) :
  map fst (dict_setitem k v d) =
  if key_in k (map fst d) then map fst d else map fst d ++ [k].
Proof.
  induction d as [|[k' v'] d IH]; simpl; [reflexivity|].
  destruct (str_eqb k k') eqn:E; simpl.
  - apply str_eqb_eq in E. subst. reflexivity.
  - rewrite IH. destruct (key_in k (map fst d)); reflexivity.
Qed.

Lemma assoc_setitem {V} (k : str) (v : V) (d : list (str * V)) (k' : str) :
  assoc k' (dict_setitem k v d) = if str_eqb k' k then Some v else assoc k' d.
Proof.
  induction d as [|[a b] d IH]; simpl.
  - destruct (str_eqb k' k); reflexivity.
  - destruct (str_eqb k a) eqn:E; simpl.
    + apply str_eqb_eq in E. subst a. destruct (str_eqb k' k); reflexivity.
    + rewrite IH. destruct (str_eqb k' k) eqn:E2; [|reflexivity].
      apply str_eqb_eq in E2. subst k'. rewrite E. reflexivity.
Qed.

Lemma assoc_In_NoDup {V} (k : str) (v : V) (d : list (str * V)) :
  NoDup (map fst d) -> In (k, v) d -> assoc k d = Some v.
Proof.
  induction d as [|[a b] d IH]; simpl; [tauto|].
  intros Hnd [E|Hin].
  - injection E as -> ->. rewrite str_eqb_refl. reflexivity.
  - inversion Hnd as [|? ? Hnotin Hnd']; subst.
    destruct (str_eqb k a) eqn:E.
    + apply str_eqb_eq in E. subst a. exfalso. apply Hnotin.
      apply in_map_iff. exists (k, v). split; [reflexivity | exact Hin].
    + apply IH; assumption.
Qed.

Lemma last_with_key_snoc (k : str) (l : list Listing) (x : Listing) :
  last_with_key k (l ++ [x]) =
  if str_eqb (listing_key x) k then Some x else last_with_key k l.
Proof. unfold last_with_key. rewrite rev_unit. reflexivity. Qed.

Lemma last_with_key_Some (k : str) (l : list Listing) (x : Listing) :
  last_with_key k l = Some x -> In x l /\ listing_key x = k.
Proof.
  unfold last_with_key. intros Hf. apply find_some in Hf. destruct Hf as [Hin E].
  split; [apply in_rev; exact Hin | apply str_eqb_eq; exact E].
Qed.

Lemma uniq_of_snoc (l : list Listing) (x : Listing) :
  uniq_of (l ++ [x]) = dict_setitem (listing_key x) x (uniq_of l).
Proof. unfold uniq_of. rewrite fold_left_app. reflexivity. Qed.

(** The dictionary after the loop: its keys are the keys of the input
    in first-occurrence order, and each key is bound to the last input
    listing that carries it. *)
Lemma uniq_of_invariant (l : list Listing) :
  map fst (uniq_of l) = first_seen (map listing_key l)
  /\ forall k, assoc k (uniq_of l) = last_with_key k l.
Proof.
  induction l as [|x l [IHk IHv]] using rev_ind.
  - split; reflexivity.
  - rewrite uniq_of_snoc. split.
    + rewrite dict_setitem_keys, map_app. cbn [map].
      rewrite first_seen_snoc, IHk.
      destruct (key_in (listing_key x) (map listing_key l)) eqn:E.
      * assert (Hin : In (listing_key x) (first_seen (map listing_key l)))
          by (apply first_seen_In, key_in_In; exact E).
        apply key_in_In in Hin. rewrite Hin. reflexivity.
      * destruct (key_in (listing_key x) (first_seen (map listing_key l))) eqn:E2;
          [|reflexivity].
        apply (proj1 (key_in_In _ _)) in E2.
        apply (proj1 (first_seen_In _ _)) in E2.
        apply (proj2 (key_in_In _ _)) in E2. rewrite E2 in E. discriminate E.
    + intros k. rewrite assoc_setitem, last_with_key_snoc, IHv.
      rewrite (str_eqb_sym k). reflexivity.
Qed.

End Dedupe.

(** Every output listing is the last input listing of its key. *)
Lemma dedupe_last_of_key (l : list Listing) (x : Listing) :
  In x (dedupe l) -> last_with_key (listing_key x) l = Some x.
Proof.
  destruct (uniq_of_invariant l) as [Hk Hv].
  intros Hin. unfold dedupe, dict_values in Hin.
  apply in_map_iff in Hin. destruct Hin as [[k y] [E Hin]]. simpl in E. subst y.
  assert (Hl : last_with_key k l = Some x).
  { rewrite <- Hv. apply assoc_In_NoDup; [|exact Hin].
    rewrite Hk. apply first_seen_NoDup. }
  destruct (last_with_key_Some _ _ _ Hl) as [_ Ek]. rewrite Ek. exact Hl.
Qed.

Lemma dedupe_incl (l : list Listing) (x : Listing) : In x (dedupe l) -> In x l.
Proof.
  intros Hin. apply dedupe_last_of_key in Hin.
  apply last_with_key_Some in Hin. apply Hin.
Qed.

(** C5: the listings are keyed by [detail_url] when it is non-empty and
    by the composite of [title], [price_label] and [location] otherwise;
    the output carries each key once, at the position of the key's first
    occurrence, with the fields of the last input listing of that key. *)
Theorem dedupe_first_position_last_value (l : list Listing) :
  (forall item, detail_url item <> [] -> listing_key item = detail_url item)
  /\ (forall item, detail_url item = [] ->
        listing_key item =
        title item ++ lit "-" ++ price_label item ++ lit "-" ++ location item)
  /\ map listing_key (dedupe l) = first_seen (map listing_key l)
  /\ NoDup (map listing_key (dedupe l))
  /\ (forall k, In k (map listing_key l) <-> In k (map listing_key (dedupe l)))
  /\ (forall x, In x (dedupe l) -> last_with_key (listing_key x) l = Some x).
Proof.
  destruct (uniq_of_invariant l) as [Hk Hv].
  assert (Hbound : forall k x, In (k, x) (uniq_of l) -> last_with_key k l = Some x).
  { intros k x Hin. rewrite <- Hv. apply assoc_In_NoDup; [|exact Hin].
    rewrite Hk. apply first_seen_NoDup. }
  assert (Hkeys : map listing_key (dedupe l) = map fst (uniq_of l)).
  { unfold dedupe, dict_values. rewrite map_map.
    apply map_ext_in. intros [k x] Hin. simpl.
    apply Hbound, last_with_key_Some in Hin. apply Hin. }
  split.
  { intros item Hne. unfold listing_key.
    destruct (detail_url item); [congruence | reflexivity]. }
  split.
  { intros item He. unfold listing_key. rewrite He. reflexivity. }
  split; [rewrite Hkeys; exact Hk|].
  split; [rewrite Hkeys, Hk; apply first_seen_NoDup|].
  split; [intros k; rewrite Hkeys, Hk, first_seen_In; tauto|].
  intros x Hin. unfold dedupe, dict_values in Hin.
  apply in_map_iff in Hin. destruct Hin as [[k y] [E Hin]]. simpl in E. subst y.
  pose proof (Hbound _ _ Hin) as Hl.
  destruct (last_with_key_Some _ _ _ Hl) as [_ Ek]. rewrite Ek. exact Hl.
Qed.

(** ** [main] *)

Lemma apply_filters_nil {L : PyLib} (m : option Z) (r : option str) :
  apply_filters [] m r = [].
Proof. rewrite apply_filters_filter. reflexivity. Qed.

(** A failed request is a failed [scrape]: nothing in it catches. *)
Lemma scrape_fetch_failure {L : PyLib} (exc : exn) : scrape (Raise exc) = Raise exc.
Proof. reflexivity. Qed.

Lemma forallb_false_In {A} (p : A -> bool) (l : list A) (x : A) :
  In x l -> p x = false -> forallb p l = false.
Proof.
  intros Hin Hx. destruct (forallb p l) eqn:E; [|reflexivity].
  rewrite forallb_forall in E. rewrite (E x Hin) in Hx. discriminate.
Qed.

(** What [main] hands to [write_text] when [scrape] raised. *)
Lemma main_after_failure {L : PyLib}
    (args : Args) (response : res str) (now : str) (fs : FS) (exc : exn) :
  scrape response = Raise exc ->
  main args response now fs
  = write_text (out args)
      (mkPayload now SEARCH_URL
         (mkQuery (lit "Honda N-VAN") (lit "white") (lit "turbo")
                  (max_price args) (region args))
         (Some (exn_str exc)) 0 [])
      (mkdir_parent (out args) fs).
Proof.
  intros Hs. unfold main. rewrite Hs. cbn [fst snd].
  rewrite apply_filters_nil. reflexivity.
Qed.

(** C2: [main] catches whatever [scrape] raises and builds the document
    with the description of the exception as [error], [count] 0 and no
    items (and with [error] null when [scrape] returned), but the claim
    that the run then completes and the document is written fails on the
    code: when the description holds a surrogate code point the write
    raises [UnicodeEncodeError], which nothing catches, and the output
    file is left empty.  That happens for the page whose JSON-LD
    candidate has the [url] [//a\ud800＃b]: [urljoin] raises a
    [ValueError] whose message quotes the authority. *)
Theorem main_aborts_when_error_text_has_surrogate :
  (forall (L : PyLib) args response now fs,
      exists payload,
        main args response now fs
        = write_text (out args) payload (mkdir_parent (out args) fs)
        /\ (forall exc, scrape response = Raise exc ->
              error payload = Some (exn_str exc)
              /\ count payload = 0%nat /\ items payload = [])
        /\ (forall listings, scrape response = Ok listings -> error payload = None))
  /\ (forall (L : PyLib) args response now fs exc,
        scrape response = Raise exc ->
        utf8_encodable (exn_str exc) = false ->
        main args response now fs
        = (mkFS (out args :: dirs fs) (files fs ++ [(out args, None)]),
           raise UnicodeEncodeError
             "'utf-8' codec can't encode character: surrogates not allowed"))
  /\ scrape (L := checking_lib (script_events [block_surrogate_url])) (Ok [])
     = Raise (Exn ValueError surrogate_netloc_message)
  /\ utf8_encodable surrogate_netloc_message = false
  /\ main (L := checking_lib (script_events [block_surrogate_url]))
       example_args (Ok []) example_now empty_fs
     = (mkFS [out example_args] [(out example_args, None)],
        raise UnicodeEncodeError
          "'utf-8' codec can't encode character: surrogates not allowed").
Proof.
  split.
  { intros L args response now fs. unfold main. eexists. split; [reflexivity|].
    split.
    - intros exc Hs. rewrite Hs. cbn [fst snd error count items].
      rewrite apply_filters_nil. repeat split.
    - intros listings Hs. rewrite Hs. reflexivity. }
  split.
  { intros L args response now fs exc Hs Henc.
    rewrite (main_after_failure args response now fs exc Hs).
    unfold write_text.
    rewrite (forallb_false_In _ _ (exn_str exc)); [reflexivity | | exact Henc].
    unfold payload_texts. cbn [error option_text].
    apply in_or_app. right. apply in_or_app. right.
    apply in_or_app. left. left. reflexivity. }
  split; [vm_compute; reflexivity|].
  split; vm_compute; reflexivity.
Qed.

(** The request times out: the document is written with the error
    recorded and nothing listed. *)
Example main_timeout_written :
  exists payload,
    main (L := ref_lib no_events) example_args
      (raise TimeoutError "timed out") example_now empty_fs
    = (mkFS [out example_args] [(out example_args, Some payload)], Ok tt)
    /\ error payload = Some (lit "timed out")
    /\ count payload = 0%nat /\ items payload = [].
Proof. eexists. split; [vm_compute; reflexivity|]. repeat split. Qed.

(** ** The matcher against the meaning of patterns *)

Section Matcher.
Variable R : Type.

Lemma rep_sound (p : char -> bool) (s : str) :
  forall lo hi (k : str -> str -> option R) x,
    rep p lo hi s k = Some x ->
    exists t rest,
      s = t ++ rest /\ forallb p t = true /\ (lo <= length t)%nat
      /\ within hi (length t) /\ k t rest = Some x.
Proof.
  induction s as [|c s IH]; intros lo hi k x Hr; simpl in Hr.
  - destruct lo; [|discriminate].
    exists [], []. repeat split; simpl; auto.
    destruct hi; simpl; lia.
  - assert (Hstop : match lo with O => k [] (c :: s) | S _ => None end = Some x ->
                    exists t rest, c :: s = t ++ rest /\ forallb p t = true
                      /\ (lo <= length t)%nat /\ within hi (length t)
                      /\ k t rest = Some x).
    { destruct lo; [|discriminate]. intros Hk.
      exists [], (c :: s). repeat split; simpl; auto.
      destruct hi; simpl; lia. }
    destruct (p c && may_take hi) eqn:Hpc; [|auto].
    destruct (rep p (pred lo) (option_map pred hi) s (fun t rest => k (c :: t) rest))
      as [y|] eqn:Hin; [|auto].
    injection Hr as ->.
    apply andb_true_iff in Hpc. destruct Hpc as [Hp Hm].
    apply IH in Hin. destruct Hin as [t [rest [-> [Hall [Hlo [Hhi Hk]]]]]].
    exists (c :: t), rest. repeat split; simpl; auto.
    + rewrite Hp, Hall. reflexivity.
    + lia.
    + destruct hi as [[|h]|]; simpl in *; try discriminate; lia.
Qed.

Lemma rep_complete (p : char -> bool) (t : str) :
  forall rest lo hi (k : str -> str -> option R),
    forallb p t = true -> (lo <= length t)%nat -> within hi (length t) ->
    k t rest <> None ->
    rep p lo hi (t ++ rest) k <> None.
Proof.
  induction t as [|c t IH]; intros rest lo hi k Hall Hlo Hhi Hk.
  - simpl in Hlo. assert (lo = O) by lia. subst lo.
    simpl app. destruct rest as [|c rest]; simpl; [exact Hk|].
    destruct (p c && may_take hi); [|exact Hk].
    destruct (rep p _ _ rest _); [discriminate | exact Hk].
  - simpl in Hall. apply andb_true_iff in Hall. destruct Hall as [Hp Hall].
    simpl app. simpl rep. rewrite Hp.
    assert (Hm : may_take hi = true).
    { destruct hi as [[|h]|]; simpl in *; auto; lia. }
    rewrite Hm. simpl andb. cbv iota.
    assert (Hin : rep p (pred lo) (option_map pred hi) (t ++ rest)
                    (fun t0 rest0 => k (c :: t0) rest0) <> None).
    { apply IH; auto.
      - simpl in Hlo. lia.
      - destruct hi as [h|]; simpl in *; [lia | exact I]. }
    destruct (rep p (pred lo) (option_map pred hi) (t ++ rest) _); [discriminate|].
    contradiction.
Qed.

(** Soundness: a success of the matcher is a match of the pattern on a
    prefix, handed to the continuation. *)
Lemma rmatch_sound (r : re) :
  forall s g (k : str -> str -> groups -> option R) x,
    rmatch r s g k = Some x ->
    exists t rest g',
      s = t ++ rest /\ matches r t g g' /\ k t rest g' = Some x.
Proof.
  induction r as [p|p lo hi|r1 IH1 r2 IH2|r1 IH1|n r1 IH1]; intros s g k x Hm;
    simpl in Hm.
  - destruct s as [|c s]; [discriminate|].
    destruct (p c) eqn:Hp; [|discriminate].
    exists [c], s, g. repeat split; auto. exists c. auto.
  - apply rep_sound in Hm. destruct Hm as [t [rest [-> [Ha [Hlo [Hhi Hk]]]]]].
    exists t, rest, g. simpl. repeat split; auto.
  - apply IH1 in Hm. destruct Hm as [t1 [s1 [g1 [-> [M1 Hm]]]]].
    apply IH2 in Hm. destruct Hm as [t2 [s2 [g2 [-> [M2 Hk]]]]].
    exists (t1 ++ t2), s2, g2. rewrite app_assoc.
    split; [reflexivity|]. split; [|exact Hk].
    simpl. exists t1, t2, g1. repeat split; auto.
  - destruct (rmatch r1 s g k) as [y|] eqn:Hr.
    + injection Hm as ->. apply IH1 in Hr.
      destruct Hr as [t [rest [g' [-> [M Hk]]]]].
      exists t, rest, g'. simpl. repeat split; auto.
    + exists [], s, g. simpl. repeat split; auto.
  - apply IH1 in Hm. destruct Hm as [t [rest [g1 [-> [M Hk]]]]].
    exists t, rest, ((n, t) :: g1). simpl.
    split; [reflexivity|]. split; [|exact Hk].
    exists g1. auto.
Qed.

(** Completeness: when the pattern matches a prefix on which the
    continuation succeeds, backtracking finds a success. *)
Lemma rmatch_complete (r : re) :
  forall t rest g g' (k : str -> str -> groups -> option R),
    matches r t g g' -> k t rest g' <> None ->
    rmatch r (t ++ rest) g k <> None.
Proof.
  induction r as [p|p lo hi|r1 IH1 r2 IH2|r1 IH1|n r1 IH1];
    intros t rest g g' k M Hk; simpl in M.
  - destruct M as [c [-> [Hp ->]]]. simpl. rewrite Hp. exact Hk.
  - destruct M as [Ha [Hlo [Hhi ->]]]. simpl.
    apply rep_complete; auto.
  - destruct M as [t1 [t2 [g1 [-> [M1 M2]]]]]. simpl.
    rewrite <- app_assoc. apply (IH1 t1 (t2 ++ rest) g g1); [exact M1|].
    apply (IH2 t2 rest g1 g'); [exact M2 | exact Hk].
  - simpl. destruct (rmatch r1 (t ++ rest) g k) eqn:Hr; [discriminate|].
    destruct M as [M | [-> ->]].
    + exfalso. revert Hr. apply (IH1 t rest g g'); assumption.
    + exact Hk.
  - destruct M as [g1 [M ->]]. simpl.
    apply (IH1 t rest g g1); [exact M | exact Hk].
Qed.
End Matcher.

Lemma match_at_sound (r : re) (s t rest : str) (g : groups) :
  match_at r s = Some (t, g, rest) -> s = t ++ rest /\ matches r t [] g.
Proof.
  unfold match_at. intros Hm. apply rmatch_sound in Hm.
  destruct Hm as [t' [rest' [g' [-> [M E]]]]]. injection E as <- <- <-. auto.
Qed.

Lemma match_at_complete (r : re) (t rest : str) (g : groups) :
  matches r t [] g -> match_at r (t ++ rest) <> None.
Proof.
  intros M. unfold match_at. apply (@rmatch_complete _ r t rest [] g _ M). discriminate.
Qed.

(** [search] returns a match of the pattern, at the leftmost position
    where the pattern matches at all. *)
Lemma search_sound (r : re) (s : str) :
  forall pre t g rest,
    search r s = Some (pre, (t, g, rest)) ->
    s = pre ++ t ++ rest /\ matches r t [] g
    /\ forall pre' t' g' rest',
         s = pre' ++ t' ++ rest' -> matches r t' [] g' ->
         (length pre <= length pre')%nat.
Proof.
  induction s as [|c s IH]; intros pre t g rest Hs; simpl in Hs.
  - destruct (match_at r []) as [[[t0 g0] rest0]|] eqn:Hm; [|discriminate].
    injection Hs as <- <- <- <-. apply match_at_sound in Hm.
    destruct Hm as [E M]. repeat split; auto. simpl. intros; lia.
  - destruct (match_at r (c :: s)) as [[[t0 g0] rest0]|] eqn:Hm.
    + injection Hs as <- <- <- <-. apply match_at_sound in Hm.
      destruct Hm as [E M]. repeat split; auto. simpl. intros; lia.
    + destruct (search r s) as [[pre0 [[t0 g0] rest0]]|] eqn:Hr; [|discriminate].
      injection Hs as <- <- <- <-.
      destruct (IH _ _ _ _ eq_refl) as [E [M Hleft]].
      split; [simpl; rewrite E; reflexivity|]. split; [exact M|].
      intros pre' t' g' rest' E' M'. destruct pre' as [|c' pre'].
      * exfalso. simpl in E'. rewrite E' in Hm.
        revert Hm. apply (@match_at_complete r t' rest' g' M').
      * simpl in E'. injection E' as _ E'. simpl.
        apply le_n_S. apply (Hleft pre' t' g' rest'); assumption.
Qed.

Lemma search_complete (r : re) (s : str) :
  forall pre t g rest,
    s = pre ++ t ++ rest -> matches r t [] g -> search r s <> None.
Proof.
  induction s as [|c s IH]; intros pre t g rest E M.
  - destruct pre; [|discriminate]. simpl in E. simpl.
    destruct (match_at r []) eqn:Hm; [discriminate|].
    exfalso. rewrite E in Hm. revert Hm. apply (@match_at_complete r t rest g M).
  - simpl. destruct (match_at r (c :: s)) eqn:Hm; [discriminate|].
    destruct pre as [|c' pre].
    + exfalso. simpl in E. rewrite E in Hm. revert Hm.
      apply (@match_at_complete r t rest g M).
    + simpl in E. injection E as _ E.
      specialize (IH pre t g rest E M).
      destruct (search r s) as [[? ?]|]; [discriminate | contradiction].
Qed.

(** ** Numerals read as numbers *)

Ltac char_facts :=
  unfold is_digit, is_space, is_ascii_space, ascii_lower_char, char_eqb, is_char, not_char,
    c_dot, c_man, c_yen, c_comma in *;
  repeat match goal with
         | H : _ |- _ =>
             first [ rewrite andb_true_iff in H | rewrite orb_true_iff in H
                   | rewrite N.leb_le in H | rewrite N.eqb_eq in H
                   | rewrite negb_true_iff in H | rewrite N.eqb_neq in H ]
         end;
  repeat first [ rewrite andb_false_iff | rewrite orb_false_iff
               | rewrite andb_true_iff | rewrite orb_true_iff
               | rewrite N.leb_gt | rewrite N.leb_le
               | rewrite N.eqb_neq | rewrite N.eqb_eq
               | rewrite negb_true_iff | rewrite negb_false_iff ];
  try lia.

Lemma digit_not_space (c : char) : is_digit c = true -> is_space c = false.
Proof. intros H. char_facts. Qed.

Lemma digit_range (c : char) : is_digit c = true -> (48 <= c <= 57)%N.
Proof. intros H. char_facts. Qed.

Lemma span_all (p : char -> bool) (a b : str) :
  forallb p a = true ->
  match b with [] => True | c :: _ => p c = false end ->
  span p (a ++ b) = (a, b).
Proof.
  intros Ha Hb. induction a as [|x a IH]; simpl.
  - destruct b as [|c b]; [reflexivity|]. simpl. rewrite Hb. reflexivity.
  - simpl in Ha. apply andb_true_iff in Ha. destruct Ha as [Hx Ha].
    rewrite Hx, (IH Ha). reflexivity.
Qed.




Lemma numeral_char_not_space (c : char) : numeral_char c = true -> is_space c = false.
Proof. unfold numeral_char. intros H. char_facts. Qed.

Lemma strip_underscores_id (s : str) :
  forall prev, prev <> 95%N -> forallb numeral_char s = true ->
               strip_underscores prev s = Some s.
Proof.
  induction s as [|c s IH]; intros prev Hp Hs; simpl.
  - apply N.eqb_neq in Hp. rewrite Hp. reflexivity.
  - simpl in Hs. apply andb_true_iff in Hs. destruct Hs as [Hc Hs].
    assert (Hc95 : c <> 95%N) by (unfold numeral_char in Hc; char_facts).
    apply N.eqb_neq in Hp. rewrite Hp.
    destruct (N.eqb_spec c 95); [contradiction|]. simpl.
    rewrite (IH c Hc95 Hs). reflexivity.
Qed.

Lemma numeral_char_not_ascii_space (c : char) :
  numeral_char c = true -> is_ascii_space c = false.
Proof. unfold numeral_char. intros H. char_facts. Qed.

Lemma numeral_char_ascii (c : char) : numeral_char c = true -> (c <? 128)%N = true.
Proof. unfold numeral_char. intros H. apply N.ltb_lt. char_facts. Qed.

Lemma lstrip_ascii_numeral_chars (s : str) :
  forallb numeral_char s = true -> lstrip_ascii s = s.
Proof.
  destruct s as [|c s]; [reflexivity|]. simpl. intros H.
  apply andb_true_iff in H. destruct H as [Hc _].
  rewrite (numeral_char_not_ascii_space _ Hc). reflexivity.
Qed.

(** The numeric parsers read a text of digits and dots as it is. *)
Lemma numeric_text_numeral_chars (s : str) :
  forallb numeral_char s = true -> numeric_text s = Some s.
Proof.
  intros H. unfold numeric_text.
  assert (Ha : forallb (fun c => c <? 128)%N s = true).
  { rewrite forallb_forall in *. intros c Hin. apply numeral_char_ascii, H, Hin. }
  rewrite Ha. rewrite (strip_underscores_id s 0%N) by (discriminate || exact H).
  cbn [option_map]. f_equal. unfold strip_ascii.
  rewrite (lstrip_ascii_numeral_chars _ H).
  rewrite lstrip_ascii_numeral_chars; [apply rev_involutive|].
  rewrite forallb_forall in *. intros c Hin. apply H. apply in_rev. exact Hin.
Qed.

Lemma forallb_digit_numeral_char (s : str) :
  forallb is_digit s = true -> forallb numeral_char s = true.
Proof.
  intros H. rewrite forallb_forall in *. intros c Hin.
  unfold numeral_char. rewrite (H c Hin). reflexivity.
Qed.

Lemma numeral_chars (g : str) : numeral g -> forallb numeral_char g = true.
Proof.
  intros [[_ Hd] | [ip [fp [-> [[_ Hi] [_ Hf]]]]]].
  - apply forallb_digit_numeral_char. exact Hd.
  - rewrite !forallb_app. rewrite (forallb_digit_numeral_char _ Hi),
      (forallb_digit_numeral_char _ Hf). reflexivity.
Qed.


Lemma split_sign_digit (a : char) (s : str) :
  is_digit a = true -> split_sign (a :: s) = (false, a :: s).
Proof.
  intros H. unfold split_sign.
  destruct (N.eqb_spec a 45); [char_facts|].
  destruct (N.eqb_spec a 43); [char_facts|]. reflexivity.
Qed.

Lemma digit_head_not_word (a : char) (s : str) (c : char) (w : str) :
  is_digit a = true -> (97 <= c)%N ->
  str_eqb (map ascii_lower_char (a :: s)) (c :: w) = false.
Proof.
  intros H Hc. simpl.
  assert (E : (ascii_lower_char a =? c)%N = false).
  { apply N.eqb_neq. unfold ascii_lower_char.
    destruct ((65 <=? a) && (a <=? 90))%N eqn:Hu; char_facts. }
  rewrite E. reflexivity.
Qed.

Lemma digit_string_head (ds : str) :
  digit_string ds -> exists a s, ds = a :: s /\ is_digit a = true.
Proof.
  intros [Hne Hd]. destruct ds as [|a s]; [congruence|].
  simpl in Hd. apply andb_true_iff in Hd. exists a, s. tauto.
Qed.

Lemma numeral_head (g : str) :
  numeral g -> exists a s, g = a :: s /\ is_digit a = true.
Proof.
  intros [Hd | [ip [fp [-> [Hi _]]]]].
  - apply digit_string_head. exact Hd.
  - destruct (digit_string_head _ Hi) as [a [s [-> Ha]]].
    exists a, (s ++ [c_dot] ++ fp). split; [reflexivity | exact Ha].
Qed.

(** The digits and fraction digits [numeral_float] reads off a numeral. *)
Lemma span_numeral (g : str) :
  numeral g ->
  (digit_string g /\ span is_digit g = (g, []))
  \/ exists ip fp, g = ip ++ [c_dot] ++ fp /\ digit_string ip /\ digit_string fp
       /\ span is_digit g = (ip, c_dot :: fp) /\ span is_digit fp = (fp, []).
Proof.
  intros [Hd | [ip [fp [-> [Hi Hf]]]]].
  - left. split; [exact Hd|]. destruct Hd as [_ Hd].
    rewrite <- (app_nil_r g) at 1. apply span_all; [exact Hd | exact I].
  - right. exists ip, fp. repeat split; try assumption; try apply Hi; try apply Hf.
    + apply span_all; [apply Hi | reflexivity].
    + rewrite <- (app_nil_r fp) at 1. apply span_all; [apply Hf | exact I].
Qed.

(** [float()] reads a numeral as the float it denotes. *)
Lemma float_of_str_numeral (g : str) :
  numeral g -> float_of_str g = Ok (numeral_float g).
Proof.
  intros Hn. unfold float_of_str.
  rewrite (numeric_text_numeral_chars _ (numeral_chars _ Hn)).
  destruct (numeral_head _ Hn) as [a [s [E Ha]]].
  assert (Hsign : split_sign g = (false, g))
    by (rewrite E; apply split_sign_digit, Ha).
  assert (Hw : forall c w, (97 <= c)%N ->
            str_eqb (map ascii_lower_char g) (c :: w) = false)
    by (intros c w Hc; rewrite E; apply digit_head_not_word; assumption).
  rewrite Hsign. cbn [fst snd].
  change (lit "inf") with [105%N; 110%N; 102%N].
  change (lit "infinity") with [105%N; 110%N; 102%N; 105%N; 110%N; 105%N; 116%N; 121%N].
  change (lit "nan") with [110%N; 97%N; 110%N].
  rewrite !Hw by lia. cbn [orb].
  assert (Hb : float_body false g = Some (numeral_float g)).
  { unfold float_body, numeral_float.
    destruct (span_numeral _ Hn) as [[Hd Hs] | [ip [fp [Eg [Hi [Hf [Hs Hs']]]]]]].
    - rewrite Hs. cbn [fst snd tl]. rewrite app_nil_r.
      destruct g as [|c g']; [destruct Hd; congruence|]. reflexivity.
    - rewrite Hs. cbn [fst snd tl]. change (c_dot =? 46)%N with true. cbv iota.
      rewrite Hs'. cbn [fst snd].
      destruct (ip ++ fp) eqn:Eapp.
      + destruct ip; [destruct Hi; congruence | discriminate].
      + rewrite <- Eapp. reflexivity. }
  rewrite Hb. reflexivity.
Qed.

(** [int()] reads a digit string as its value, unless it has more
    digits than the limit. *)
Lemma int_of_str_digits (g : str) :
  digit_string g ->
  int_of_str g =
  if int_max_str_digits <? Z.of_nat (length g)
  then raise ValueError "Exceeds the limit (4300 digits) for integer string conversion"
  else Ok (digits_val g).
Proof.
  intros Hd. pose proof Hd as [Hne Hall]. unfold int_of_str.
  rewrite (numeric_text_numeral_chars _ (forallb_digit_numeral_char _ Hall)).
  destruct (digit_string_head _ Hd) as [a [s [E Ha]]].
  assert (Hsign : split_sign g = (false, g))
    by (rewrite E; apply split_sign_digit, Ha).
  rewrite Hsign. cbn [fst snd]. rewrite Hall.
  rewrite E at 1. reflexivity.
Qed.

(** ** Products that the double arithmetic computes exactly *)

(** A ratio [w * 2^k / 2^k] with [w] below [2^53] is a double: rounding
    returns it unchanged, normalised to 53 bits. *)
Lemma round_ne_exact (w k : Z) :
  0 < w < 2 ^ 53 -> 0 <= k ->
  round_ne false (w * 2 ^ k) (2 ^ k)
  = FFin false (w * 2 ^ (52 - Z.log2 w)) (Z.log2 w - 52).
Proof.
  intros Hw Hk.
  pose proof (Z.log2_nonneg w) as Hl0.
  destruct (Z.log2_spec w ltac:(lia)) as [Hlo Hhi].
  assert (Hl52 : Z.log2 w < 53) by (apply Z.log2_lt_pow2; lia).
  set (lw := Z.log2 w) in *.
  assert (H2k : 0 < 2 ^ k) by (apply Z.pow_pos_nonneg; lia).
  assert (Hp0 : (w * 2 ^ k =? 0) = false) by (apply Z.eqb_neq; nia).
  assert (Hlp : Z.log2 (w * 2 ^ k) = k + lw) by (apply Z.log2_mul_pow2; lia).
  assert (Hlq : Z.log2 (2 ^ k) = k) by (apply Z.log2_pow2; lia).
  unfold round_ne. rewrite Hp0, Hlp, Hlq.
  replace (k + lw - k - 53) with (lw - 53) by lia.
  rewrite Z.max_l by lia.
  assert (Hs0 : scaled (w * 2 ^ k) (2 ^ k) (lw - 53)
                = (w * 2 ^ (53 - lw) * 2 ^ k, 2 ^ k)).
  { unfold scaled.
    replace (0 <=? lw - 53) with false by (symmetry; apply Z.leb_gt; lia).
    replace (- (lw - 53)) with (53 - lw) by lia. f_equal. ring. }
  rewrite Hs0. cbn [fst snd]. rewrite Z.div_mul by lia.
  assert (Hge : (2 ^ 53 <=? w * 2 ^ (53 - lw)) = true).
  { apply Z.leb_le.
    replace (2 ^ 53) with (2 ^ lw * 2 ^ (53 - lw))
      by (rewrite <- Z.pow_add_r by lia; f_equal; lia).
    apply Z.mul_le_mono_nonneg_r; [apply Z.pow_nonneg; lia | exact Hlo]. }
  rewrite Hge.
  replace (lw - 53 + 1) with (lw - 52) by lia.
  assert (Hs1 : exists d, scaled (w * 2 ^ k) (2 ^ k) (lw - 52)
                          = (w * 2 ^ (52 - lw) * d, d) /\ 0 < d).
  { unfold scaled. destruct (0 <=? lw - 52) eqn:E.
    - apply Z.leb_le in E. assert (E52 : lw = 52) by lia.
      exists (2 ^ k * 2 ^ (lw - 52)). rewrite E52. change (52 - 52) with 0.
      change (2 ^ 0) with 1. split; [f_equal; ring | lia].
    - exists (2 ^ k). replace (- (lw - 52)) with (52 - lw) by lia.
      split; [f_equal; ring | lia]. }
  destruct Hs1 as [d [Hs1 Hd]]. rewrite Hs1. cbn [fst snd].
  rewrite Z.div_mul, Z.mod_mul by lia.
  replace (d <? 2 * 0) with false by (symmetry; apply Z.ltb_ge; lia).
  replace (d =? 2 * 0) with false by (symmetry; apply Z.eqb_neq; lia).
  cbn [orb andb].
  assert (Hm : w * 2 ^ (52 - lw) < 2 ^ 53).
  { replace (2 ^ 53) with (2 ^ Z.succ lw * 2 ^ (52 - lw))
      by (rewrite <- Z.pow_add_r by lia; f_equal; lia).
    apply Z.mul_lt_mono_pos_r; [apply Z.pow_pos_nonneg; lia | exact Hhi]. }
  replace (w * 2 ^ (52 - lw) =? 2 ^ 53) with false
    by (symmetry; apply Z.eqb_neq; lia).
  replace (971 <? lw - 52) with false by (symmetry; apply Z.ltb_ge; lia).
  reflexivity.
Qed.

(** Truncating a normalised double that holds an integer gives that
    integer. *)
Lemma int_of_float_exact (w : Z) :
  0 < w < 2 ^ 53 ->
  int_of_float (FFin false (w * 2 ^ (52 - Z.log2 w)) (Z.log2 w - 52)) = Ok w.
Proof.
  intros Hw.
  assert (Hl52 : Z.log2 w < 53) by (apply Z.log2_lt_pow2; lia).
  unfold int_of_float. f_equal.
  destruct (0 <=? Z.log2 w - 52) eqn:E.
  - apply Z.leb_le in E. assert (E52 : Z.log2 w = 52) by lia.
    rewrite E52. change (52 - 52) with 0. change (2 ^ 0) with 1. lia.
  - replace (- (Z.log2 w - 52)) with (52 - Z.log2 w) by lia.
    apply Z.div_mul. apply Z.pow_nonzero; lia.
Qed.

(** Ten thousand times an integer below [2^53 / 10000], computed on
    doubles and truncated, is exact. *)
Lemma times_10000_exact (v : Z) :
  0 <= v -> v * 10000 < 2 ^ 53 ->
  int_of_float (fmul (round_ne false v 1) (float_of_Z 10000)) = Ok (v * 10000).
Proof.
  intros Hv Hb.
  destruct (Z.eq_dec v 0) as [->|Hnz]; [vm_compute; reflexivity|].
  assert (Hv53 : 0 < v < 2 ^ 53) by lia.
  change (round_ne false v 1) with (round_ne false v (2 ^ 0)).
  replace v with (v * 2 ^ 0) at 1 by (change (2 ^ 0) with 1; lia).
  rewrite (round_ne_exact v 0 Hv53 (Z.le_refl 0)).
  assert (Hl52 : Z.log2 v < 53) by (apply Z.log2_lt_pow2; lia).
  pose proof (Z.log2_nonneg v) as Hl0.
  replace (float_of_Z 10000) with (FFin false (10000 * 2 ^ 39) (-39))
    by (vm_compute; reflexivity).
  unfold fmul.
  replace (0 <=? Z.log2 v - 52 + -39) with false by (symmetry; apply Z.leb_gt; lia).
  cbn [xorb].
  replace (- (Z.log2 v - 52 + -39)) with (91 - Z.log2 v) by lia.
  replace (v * 2 ^ (52 - Z.log2 v) * (10000 * 2 ^ 39))
    with (v * 10000 * 2 ^ (91 - Z.log2 v)).
  2:{ replace (91 - Z.log2 v) with ((52 - Z.log2 v) + 39) by lia.
      rewrite Z.pow_add_r by lia. ring. }
  rewrite (round_ne_exact (v * 10000) (91 - Z.log2 v)) by lia.
  apply int_of_float_exact. lia.
Qed.

Lemma numeral_float_digits (ds : str) :
  digit_string ds -> numeral_float ds = round_ne false (digits_val ds) 1.
Proof.
  intros [_ Hall]. unfold numeral_float.
  rewrite <- (app_nil_r ds) at 1 2 3.
  rewrite (span_all is_digit ds [] Hall I). cbn [fst snd tl length].
  rewrite !app_nil_r. unfold float_of_decimal. cbn [Z.of_nat Z.opp Z.leb Z.compare].
  change (10 ^ 0) with 1. rewrite Z.mul_1_r. reflexivity.
Qed.


(** ** [normalize_price] *)

Lemma length_pos_nonnil {A} (l : list A) : (1 <= length l)%nat <-> l <> [].
Proof.
  destruct l; simpl; split; intros H; try congruence; try lia.
Qed.

Lemma matches_re_numeral (t : str) (g g' : groups) :
  matches re_numeral t g g' <-> numeral t /\ g' = g.
Proof.
  unfold re_numeral, Plus. cbn [matches]. split.
  - intros [t1 [t2 [g1 [-> [[Hd1 [Hl1 [_ ->]]] Hopt]]]]].
    apply length_pos_nonnil in Hl1.
    destruct Hopt as [[ta [tb [gb [-> [[c [-> [Hc ->]]] [Hd2 [Hl2 [_ ->]]]]]]]] | [-> ->]].
    + apply length_pos_nonnil in Hl2. split; [|reflexivity].
      right. exists t1, tb. unfold is_char, char_eqb in Hc. apply N.eqb_eq in Hc. subst c.
      repeat split; assumption.
    + rewrite app_nil_r. split; [|reflexivity]. left. split; assumption.
  - intros [[[Hne Hd] | [ip [fp [-> [[Hni Hdi] [Hnf Hdf]]]]]] ->].
    + exists t, [], g. rewrite app_nil_r. repeat split; auto.
      apply length_pos_nonnil; exact Hne.
    + exists ip, ([c_dot] ++ fp), g. repeat split; auto.
      * apply length_pos_nonnil; exact Hni.
      * left. exists [c_dot], fp, g. repeat split; auto.
        -- exists c_dot. repeat split; auto.
        -- apply length_pos_nonnil; exact Hnf.
Qed.

Lemma matches_re_man_yen (t : str) (g : groups) :
  matches re_man_yen t [] g <->
  exists num ws, numeral num /\ forallb is_space ws = true
                 /\ t = num ++ ws ++ [c_man; c_yen] /\ g = [(1%nat, num)].
Proof.
  change re_man_yen with
    (Cat (Grp 1 re_numeral) (Cat (Star is_space) (Cat (Chr (is_char c_man)) (Chr (is_char c_yen))))).
  unfold Star. cbn [matches]. split.
  - intros [t1 [t2 [g1 [-> [[g0 [Hnum ->]] Hrest]]]]].
    apply matches_re_numeral in Hnum. destruct Hnum as [Hnum ->].
    destruct Hrest as [ws [t3 [g2 [-> [[Hws [_ [_ ->]]] Hunits]]]]].
    destruct Hunits as [ta [tb [g3 [-> [[a [-> [Ha ->]]] [b [-> [Hb ->]]]]]]]].
    unfold is_char, char_eqb in Ha, Hb. apply N.eqb_eq in Ha, Hb. subst a b.
    exists t1, ws. repeat split; assumption.
  - intros [num [ws [Hnum [Hws [-> ->]]]]].
    exists num, (ws ++ [c_man; c_yen]), [(1%nat, num)].
    split; [reflexivity|]. split.
    + exists []. split; [|reflexivity]. apply matches_re_numeral. auto.
    + exists ws, [c_man; c_yen], [(1%nat, num)]. repeat split; auto.
      * lia.
      * exists [c_man], [c_yen], [(1%nat, num)]. repeat split.
        -- exists c_man. repeat split.
        -- exists c_yen. repeat split.
Qed.

Lemma matches_re_yen (t : str) (g : groups) :
  matches re_yen t [] g <->
  exists num ws, digit_string num /\ forallb is_space ws = true
                 /\ t = num ++ ws ++ [c_yen] /\ g = [(1%nat, num)].
Proof.
  unfold re_yen, Plus, Star. cbn [matches]. split.
  - intros [t1 [t2 [g1 [-> [[g0 [[Hd [Hl [_ ->]]] ->]] Hrest]]]]].
    apply length_pos_nonnil in Hl.
    destruct Hrest as [ws [t3 [g2 [-> [[Hws [_ [_ ->]]] [b [-> [Hb ->]]]]]]]].
    unfold is_char, char_eqb in Hb. apply N.eqb_eq in Hb. subst b.
    exists t1, ws. repeat split; assumption.
  - intros [num [ws [[Hne Hd] [Hws [-> ->]]]]].
    exists num, (ws ++ [c_yen]), [(1%nat, num)].
    split; [reflexivity|]. split.
    + exists []. repeat split; auto. apply length_pos_nonnil; exact Hne.
    + exists ws, [c_yen], [(1%nat, num)]. repeat split; auto.
      * lia.
      * exists c_yen. repeat split.
Qed.

(** What the first search of [normalize_price] finds. *)
Lemma search_re_man_yen (s : str) :
  match search re_man_yen s with
  | Some (pre, (_, g, _)) =>
      man_yen_at s pre (group 1 g)
      /\ forall pre' g', man_yen_at s pre' g' -> (length pre <= length pre')%nat
  | None => forall pre g, ~ man_yen_at s pre g
  end.
Proof.
  destruct (search re_man_yen s) as [[pre [[t g] rest]]|] eqn:Hs.
  - apply search_sound in Hs. destruct Hs as [E [M Hleft]].
    apply matches_re_man_yen in M. destruct M as [num [ws [Hnum [Hws [-> ->]]]]].
    split.
    + exists ws, rest. cbn [group Nat.eqb]. repeat split; auto.
      rewrite E, <- !app_assoc. reflexivity.
    + intros pre' g' [ws' [post' [E' [Hnum' Hws']]]].
      apply (Hleft pre' (g' ++ ws' ++ [c_man; c_yen]) [(1%nat, g')] post').
      * rewrite E', <- !app_assoc. reflexivity.
      * apply matches_re_man_yen. exists g', ws'. auto.
  - intros pre g [ws [post [E [Hnum Hws]]]].
    apply (search_complete re_man_yen s pre (g ++ ws ++ [c_man; c_yen]) [(1%nat, g)] post).
    + rewrite E, <- !app_assoc. reflexivity.
    + apply matches_re_man_yen. exists g, ws. auto.
    + exact Hs.
Qed.

(** What the second search finds. *)
Lemma search_re_yen (s : str) :
  match search re_yen s with
  | Some (pre, (_, g, _)) =>
      yen_at s pre (group 1 g)
      /\ forall pre' g', yen_at s pre' g' -> (length pre <= length pre')%nat
  | None => forall pre g, ~ yen_at s pre g
  end.
Proof.
  destruct (search re_yen s) as [[pre [[t g] rest]]|] eqn:Hs.
  - apply search_sound in Hs. destruct Hs as [E [M Hleft]].
    apply matches_re_yen in M. destruct M as [num [ws [Hnum [Hws [-> ->]]]]].
    split.
    + exists ws, rest. cbn [group Nat.eqb]. repeat split; try apply Hnum; auto.
      rewrite E, <- !app_assoc. reflexivity.
    + intros pre' g' [ws' [post' [E' [Hnum' Hws']]]].
      apply (Hleft pre' (g' ++ ws' ++ [c_yen]) [(1%nat, g')] post').
      * rewrite E', <- !app_assoc. reflexivity.
      * apply matches_re_yen. exists g', ws'. auto.
  - intros pre g [ws [post [E [Hnum Hws]]]].
    apply (search_complete re_yen s pre (g ++ ws ++ [c_yen]) [(1%nat, g)] post).
    + rewrite E, <- !app_assoc. reflexivity.
    + apply matches_re_yen. exists g, ws. auto.
    + exact Hs.
Qed.

(** *** Signs *)

Lemma round_ne_nonneg (p q : Z) : 0 <= p -> 0 < q -> nonneg_float (round_ne false p q).
Proof.
  intros Hp Hq. unfold round_ne.
  destruct (p =? 0); [simpl; lia|].
  set (e := if 2 ^ 53 <=? _ then _ else _).
  assert (Hn : 0 <= fst (scaled p q e) /\ 0 < snd (scaled p q e)).
  { unfold scaled. destruct (0 <=? e) eqn:He; simpl.
    - apply Z.leb_le in He. split; [lia|].
      apply Z.mul_pos_pos; [lia | apply Z.pow_pos_nonneg; lia].
    - apply Z.leb_gt in He. split; [|lia].
      apply Z.mul_nonneg_nonneg; [lia | apply Z.pow_nonneg; lia]. }
  destruct Hn as [Hn Hd].
  assert (Hm : 0 <= fst (scaled p q e) / snd (scaled p q e))
    by (apply Z.div_pos; assumption).
  cbv zeta.
  match goal with |- context [if ?c then FInf false else _] => destruct c end;
    [reflexivity|].
  simpl. split; [reflexivity|].
  repeat match goal with |- context [if ?c then _ else _] => destruct c end; lia.
Qed.

Lemma float_of_decimal_nonneg (d x : Z) : 0 <= d -> nonneg_float (float_of_decimal false d x).
Proof.
  intros Hd. unfold float_of_decimal. destruct (0 <=? x) eqn:Hx.
  - apply round_ne_nonneg; [|lia].
    apply Z.mul_nonneg_nonneg; [lia | apply Z.pow_nonneg; lia].
  - apply round_ne_nonneg; [lia|]. apply Z.pow_pos_nonneg; lia.
Qed.

Lemma digits_val_nonneg (ds : str) : forallb is_digit ds = true -> 0 <= digits_val ds.
Proof.
  unfold digits_val. assert (H : forall acc, 0 <= acc -> forallb is_digit ds = true ->
    0 <= fold_left (fun a c => 10 * a + (Z.of_N c - 48)) ds acc).
  { induction ds as [|c ds IH]; intros acc Hacc Hd; cbn [fold_left]; [exact Hacc|].
    cbn [forallb] in Hd. apply andb_true_iff in Hd. destruct Hd as [Hc Hd].
    apply IH; [|exact Hd]. apply digit_range in Hc. lia. }
  apply H. lia.
Qed.

Lemma numeral_float_nonneg (g : str) : numeral g -> nonneg_float (numeral_float g).
Proof.
  intros Hn. unfold numeral_float. apply float_of_decimal_nonneg.
  apply digits_val_nonneg.
  destruct (span_numeral g Hn) as [[[_ Hd] Hs] | [ip [fp [_ [[_ Hi] [[_ Hf] [Hs _]]]]]]];
    rewrite Hs; cbn [fst snd tl]; rewrite forallb_app.
  - rewrite Hd. reflexivity.
  - rewrite Hi, Hf. reflexivity.
Qed.

Lemma fmul_10000_nonneg (f : float) :
  nonneg_float f -> nonneg_float (fmul f (float_of_Z 10000)).
Proof.
  set (c := float_of_Z 10000). vm_compute in c. subst c.
  destruct f as [|neg|neg m e]; simpl; [tauto | intros ->; reflexivity |].
  intros [-> Hm]. cbn [xorb].
  destruct (0 <=? e + -39) eqn:He; apply round_ne_nonneg; lia.
Qed.

Lemma int_of_float_nonneg (f : float) (n : Z) :
  nonneg_float f -> int_of_float f = Ok n -> 0 <= n.
Proof.
  destruct f as [|neg|neg m e]; simpl; try discriminate.
  intros [-> Hm] E. injection E as <-.
  destruct (Z.leb_spec 0 e).
  - apply Z.mul_nonneg_nonneg; [lia | apply Z.pow_nonneg; lia].
  - apply Z.div_pos; [lia|]. apply Z.pow_pos_nonneg; lia.
Qed.

(** *** The result of [normalize_price] *)

(** The two branches of [normalize_price] in terms of what the searches
    find. *)
Lemma normalize_price_cases (text : str) :
  let cleaned := remove_char c_comma text in
  (exists pre g,
      man_yen_at cleaned pre g
      /\ (forall pre' g', man_yen_at cleaned pre' g' -> (length pre <= length pre')%nat)
      /\ normalize_price text =
         (n <- int_of_float (fmul (numeral_float g) (float_of_Z 10000)) ;; Ok (Some n)))
  \/ ((forall pre g, ~ man_yen_at cleaned pre g)
      /\ exists pre g,
           yen_at cleaned pre g
           /\ (forall pre' g', yen_at cleaned pre' g' -> (length pre <= length pre')%nat)
           /\ normalize_price text =
              if int_max_str_digits <? Z.of_nat (length g)
              then raise ValueError
                     "Exceeds the limit (4300 digits) for integer string conversion"
              else Ok (Some (digits_val g)))
  \/ ((forall pre g, ~ man_yen_at cleaned pre g)
      /\ (forall pre g, ~ yen_at cleaned pre g)
      /\ normalize_price text = Ok None).
Proof.
  intros cleaned. unfold normalize_price. fold cleaned.
  pose proof (search_re_man_yen cleaned) as Hman.
  destruct (search re_man_yen cleaned) as [[pre [[t g] rest]]|].
  - left. destruct Hman as [Hat Hleft]. exists pre, (group 1 g).
    split; [exact Hat|]. split; [exact Hleft|].
    destruct Hat as [ws [post [_ [Hnum _]]]].
    rewrite (float_of_str_numeral _ Hnum). reflexivity.
  - right. pose proof (search_re_yen cleaned) as Hyen.
    destruct (search re_yen cleaned) as [[pre [[t g] rest]]|].
    + left. split; [exact Hman|]. destruct Hyen as [Hat Hleft].
      exists pre, (group 1 g). split; [exact Hat|]. split; [exact Hleft|].
      destruct Hat as [ws [post [_ [Hd _]]]].
      rewrite (int_of_str_digits _ Hd).
      destruct (int_max_str_digits <? _); reflexivity.
    + right. auto.
Qed.

(** A price read by [normalize_price] is never negative. *)
Lemma normalize_price_nonneg (text : str) (n : Z) :
  normalize_price text = Ok (Some n) -> 0 <= n.
Proof.
  intros Hn.
  destruct (normalize_price_cases text)
    as [[pre [g [Hat [_ E]]]] | [[_ [pre [g [Hat [_ E]]]]] | [_ [_ E]]]];
    rewrite E in Hn.
  - destruct Hat as [ws [post [_ [Hnum _]]]].
    destruct (int_of_float (fmul (numeral_float g) (float_of_Z 10000))) as [k|e] eqn:Hk;
      [|discriminate].
    simpl in Hn. injection Hn as <-.
    apply (int_of_float_nonneg _ _ (fmul_10000_nonneg _ (numeral_float_nonneg _ Hnum)) Hk).
  - destruct (int_max_str_digits <? _); [discriminate|].
    injection Hn as <-. destruct Hat as [ws [post [_ [[_ Hd] _]]]].
    apply digits_val_nonneg. exact Hd.
  - discriminate.
Qed.

Lemma remove_char_idem (c : char) (s : str) :
  remove_char c (remove_char c s) = remove_char c s.
Proof.
  unfold remove_char. induction s as [|x s IH]; simpl; [reflexivity|].
  destruct (negb (char_eqb x c)) eqn:E; simpl; [rewrite E, IH|]; auto.
Qed.

Lemma remove_char_app (c : char) (a b : str) :
  remove_char c (a ++ b) = remove_char c a ++ remove_char c b.
Proof. unfold remove_char. apply filter_app. Qed.

Lemma remove_char_In (c x : char) (s : str) :
  In x (remove_char c s) -> In x s.
Proof. unfold remove_char. intros H. apply filter_In in H. apply H. Qed.

(** A run of characters of one class at the head of a text is
    determined by the text when what follows it is not of the class. *)
Lemma class_prefix_unique (p : char -> bool) (a b x y : str) :
  a ++ x = b ++ y ->
  forallb p a = true -> forallb p b = true ->
  match x with [] => True | c :: _ => p c = false end ->
  match y with [] => True | c :: _ => p c = false end ->
  a = b /\ x = y.
Proof.
  intros E Ha Hb Hx Hy.
  pose proof (span_all p a x Ha Hx) as Sa.
  pose proof (span_all p b y Hb Hy) as Sb.
  rewrite E in Sa. rewrite Sa in Sb. injection Sb as -> ->. auto.
Qed.

Lemma numeral_char_not_comma (c : char) :
  numeral_char c = true -> negb (char_eqb c c_comma) = true.
Proof. unfold numeral_char. intros H. char_facts. Qed.

Lemma remove_char_numeral_chars (s : str) :
  forallb numeral_char s = true -> remove_char c_comma s = s.
Proof.
  unfold remove_char. induction s as [|c s IH]; simpl; [reflexivity|].
  intros H. apply andb_true_iff in H. destruct H as [Hc Hs].
  rewrite (numeral_char_not_comma _ Hc), (IH Hs). reflexivity.
Qed.

(** What follows a numeral before its unit does not continue it. *)
Lemma after_numeral (ws post : str) (unit_ : str) (u : char) (us : str) :
  forallb is_space ws = true -> unit_ = u :: us -> numeral_char u = false ->
  match ws ++ unit_ ++ post with
  | [] => True
  | c :: _ => numeral_char c = false
  end.
Proof.
  intros Hws -> Hu. destruct ws as [|w ws]; [exact Hu|].
  simpl in Hws. apply andb_true_iff in Hws. destruct Hws as [Hw _].
  simpl. destruct (numeral_char w) eqn:E; [|reflexivity].
  rewrite (numeral_char_not_space _ E) in Hw. discriminate.
Qed.

(** The numeral that stands at a given place before 万円 is unique. *)
Lemma man_yen_at_unique (s pre g g' : str) :
  man_yen_at s pre g -> man_yen_at s pre g' -> g = g'.
Proof.
  intros [ws [post [E [Hn Hws]]]] [ws' [post' [E' [Hn' Hws']]]].
  rewrite E in E'. apply app_inv_head in E'.
  apply (class_prefix_unique numeral_char _ _ _ _ E');
    try (apply numeral_chars; assumption).
  - apply (after_numeral ws post [c_man; c_yen] c_man [c_yen]); auto.
  - apply (after_numeral ws' post' [c_man; c_yen] c_man [c_yen]); auto.
Qed.

(** The result for a text whose leftmost numeral before 万円 is [g] is
    the result for [g] followed by 万円. *)
Lemma normalize_price_of_numeral (g : str) :
  numeral g ->
  normalize_price (g ++ [c_man; c_yen]) =
  (n <- int_of_float (fmul (numeral_float g) (float_of_Z 10000)) ;; Ok (Some n)).
Proof.
  intros Hn.
  assert (Hc : remove_char c_comma (g ++ [c_man; c_yen]) = g ++ [c_man; c_yen]).
  { rewrite remove_char_app, (remove_char_numeral_chars _ (numeral_chars _ Hn)).
    reflexivity. }
  assert (Hat : man_yen_at (g ++ [c_man; c_yen]) [] g).
  { exists [], []. repeat split; auto. }
  destruct (normalize_price_cases (g ++ [c_man; c_yen]))
    as [[pre [g' [Hm [Hleft E]]]] | [[Hno _] | [Hno _]]]; cbv zeta in *;
    rewrite Hc in *;
    try (exfalso; apply (Hno [] g); exact Hat).
  specialize (Hleft [] g Hat). destruct pre; [|simpl in Hleft; lia].
  rewrite E, (man_yen_at_unique _ _ _ _ Hm Hat). reflexivity.
Qed.

(** C4, as amended: after the commas are removed, if some numeral
    (integer or decimal), optionally followed by white space, is followed
    by 万円, the leftmost such numeral alone decides the result, and when
    it is an integer numeral whose product with 10,000 is below [2^53]
    the result is that product; otherwise, if some digit string,
    optionally followed by white space, is followed by 円, the leftmost
    one, when it has at most 4300 digits, is returned as an integer;
    otherwise the result is [None].  The three sample prices come out as
    stated. *)
Theorem normalize_price_leftmost_match (text : str) :
  (forall c, In c (remove_char c_comma text) <-> In c text /\ c <> c_comma)
  /\ ((exists pre g, man_yen_at (remove_char c_comma text) pre g) ->
      exists pre g,
        man_yen_at (remove_char c_comma text) pre g
        /\ (forall pre' g', man_yen_at (remove_char c_comma text) pre' g' ->
                            (length pre <= length pre')%nat)
        /\ normalize_price text = normalize_price (g ++ [c_man; c_yen])
        /\ (digit_string g -> digits_val g * 10000 < 2 ^ 53 ->
            normalize_price text = Ok (Some (digits_val g * 10000))))
  /\ ((forall pre g, ~ man_yen_at (remove_char c_comma text) pre g) ->
      (exists pre g, yen_at (remove_char c_comma text) pre g) ->
      exists pre g,
        yen_at (remove_char c_comma text) pre g
        /\ (forall pre' g', yen_at (remove_char c_comma text) pre' g' ->
                            (length pre <= length pre')%nat)
        /\ (Z.of_nat (length g) <= 4300 ->
            normalize_price text = Ok (Some (digits_val g))))
  /\ ((forall pre g, ~ man_yen_at (remove_char c_comma text) pre g) ->
      (forall pre g, ~ yen_at (remove_char c_comma text) pre g) ->
      normalize_price text = Ok None)
  /\ normalize_price (lit "1,480,000円") = Ok (Some 1480000)
  /\ normalize_price (lit "98.5万円") = Ok (Some 985000)
  /\ normalize_price (lit "no price") = Ok None.
Proof.
  split.
  { intros c. unfold remove_char. rewrite filter_In, negb_true_iff.
    unfold char_eqb. rewrite N.eqb_neq. tauto. }
  pose proof (normalize_price_cases text) as H. cbv zeta in H.
  split.
  { intros [pre0 [g0 Hex]].
    destruct H as [[pre [g [Hat [Hleft E]]]] | [[Hno _] | [Hno _]]];
      try (exfalso; apply (Hno _ _ Hex)).
    exists pre, g. split; [exact Hat|]. split; [exact Hleft|].
    assert (Hnum : numeral g) by (destruct Hat as [ws [post [_ [Hnum _]]]]; exact Hnum).
    split; [rewrite E; symmetry; apply (normalize_price_of_numeral g Hnum)|].
    intros Hd Hb. rewrite E, (numeral_float_digits g Hd).
    rewrite (times_10000_exact (digits_val g)
               (digits_val_nonneg g (proj2 Hd)) Hb).
    reflexivity. }
  split.
  { intros Hno [pre0 [g0 Hex]].
    destruct H as [[pre [g [Hat _]]] | [[_ [pre [g [Hat [Hleft E]]]]] | [_ [Hnoy _]]]].
    - exfalso; apply (Hno _ _ Hat).
    - exists pre, g. split; [exact Hat|]. split; [exact Hleft|].
      intros Hlen. rewrite E.
      replace (int_max_str_digits <? Z.of_nat (length g)) with false; [reflexivity|].
      symmetry. apply Z.ltb_ge. exact Hlen.
    - exfalso; apply (Hnoy _ _ Hex). }
  split.
  { intros Hno Hnoy.
    destruct H as [[pre [g [Hat _]]] | [[_ [pre [g [Hat _]]]] | [_ [_ E]]]].
    - exfalso; apply (Hno _ _ Hat).
    - exfalso; apply (Hnoy _ _ Hat).
    - exact E. }
  split; [vm_compute; reflexivity|].
  split; vm_compute; reflexivity.
Qed.

(** The numeral 98 stands before 万円 with a space between them. *)
Lemma normalize_price_leftmost_match_witness :
  exists pre g,
    man_yen_at (remove_char c_comma (lit "98 万円")) pre g
    /\ (forall pre' g', man_yen_at (remove_char c_comma (lit "98 万円")) pre' g' ->
                        (length pre <= length pre')%nat)
    /\ normalize_price (lit "98 万円") = normalize_price (g ++ [c_man; c_yen])
    /\ (digit_string g -> digits_val g * 10000 < 2 ^ 53 ->
        normalize_price (lit "98 万円") = Ok (Some (digits_val g * 10000))).
Proof.
  apply (proj1 (proj2 (normalize_price_leftmost_match (lit "98 万円")))).
  exists [], (lit "98"), (lit " "), [].
  split; [reflexivity|]. split; [|reflexivity].
  left. split; [discriminate | reflexivity].
Defined.

(** C4 as worded fails: with a space before the unit the code still
    reads the 万円 price, though no numeral is immediately followed by the
    unit. *)
Lemma normalize_price_wording_counterexample :
  normalize_price (lit "98 万円") = Ok (Some 980000)
  /\ normalize_price_as_worded (lit "98 万円") = None.
Proof. split; vm_compute; reflexivity. Qed.

(** ** [parse_json_ld] *)

Section StructuredPath.
Context {L : PyLib}.

(** Every listing the loop over [items] appends comes from one of the
    candidates, and what was collected before stays in front. *)
Lemma items_loop_appends (items : list value) :
  forall acc ls,
    items_loop items acc = Ok ls ->
    exists new,
      ls = acc ++ new
      /\ Forall (fun l => exists item, In item items
                                     /\ listing_of_item item = Ok (Some l)) new.
Proof.
  induction items as [|item items IH]; intros acc ls H; simpl in H.
  - injection H as <-. exists []. rewrite app_nil_r. auto.
  - destruct (listing_of_item item) as [[l|]|e] eqn:Hi; simpl in H; [| |discriminate].
    + apply IH in H. destruct H as [new [-> Hall]].
      exists (l :: new). rewrite <- app_assoc. split; [reflexivity|].
      constructor.
      * exists item. split; [left; reflexivity | exact Hi].
      * eapply Forall_impl; [|exact Hall].
        intros x [it [Hin Hx]]. exists it. split; [right; exact Hin | exact Hx].
    + apply IH in H. destruct H as [new [-> Hall]].
      exists new. split; [reflexivity|].
      eapply Forall_impl; [|exact Hall].
      intros x [it [Hin Hx]]. exists it. split; [right; exact Hin | exact Hx].
Qed.

Lemma blocks_loop_appends (blocks : list str) :
  forall acc ls,
    blocks_loop blocks acc = Ok ls ->
    exists new,
      ls = acc ++ new
      /\ Forall (fun l => exists item, listing_of_item item = Ok (Some l)) new.
Proof.
  induction blocks as [|raw blocks IH]; intros acc ls H; simpl in H.
  - injection H as <-. exists []. rewrite app_nil_r. auto.
  - destruct (json_loads raw) as [data|e]; cbv iota beta in H.
    + destruct (items_loop (items_of data) acc) as [ls1|e] eqn:Hi; simpl in H;
        [|discriminate].
      apply items_loop_appends in Hi. destruct Hi as [new1 [-> Hall1]].
      apply IH in H. destruct H as [new2 [-> Hall2]].
      exists (new1 ++ new2). rewrite app_assoc. split; [reflexivity|].
      apply Forall_app. split; [|exact Hall2].
      eapply Forall_impl; [|exact Hall1]. intros x [it [_ Hx]]. exists it. exact Hx.
    + destruct (exn_class e); try discriminate H.
      apply IH. exact H.
Qed.

(** Every structured listing is what one turn of the loop made of a
    candidate. *)
Lemma parse_json_ld_provenance (html : str) (ls : list Listing) :
  parse_json_ld html = Ok ls ->
  Forall (fun l => exists item, listing_of_item item = Ok (Some l)) ls.
Proof.
  unfold parse_json_ld. intros H. apply blocks_loop_appends in H.
  destruct H as [new [-> Hall]]. exact Hall.
Qed.

(** A block that fails to decode is skipped. *)
Lemma blocks_loop_skips_undecodable (raw : str) (rest : list str)
    (acc : list Listing) (e : exn) :
  json_loads raw = Raise e -> exn_class e = JSONDecodeError ->
  blocks_loop (raw :: rest) acc = blocks_loop rest acc.
Proof.
  intros H Hc. simpl. rewrite H. unfold is_instance. rewrite Hc. reflexivity.
Qed.

(** What a turn of the loop that appends a listing has computed. *)
Lemma listing_of_item_inv (item : value) (l : Listing) :
  listing_of_item item = Ok (Some l) ->
  exists d pf,
    item = VDict d
    /\ price_fields (match dict_get d (lit "offers") with VDict o => o | _ => [] end)
       = Ok pf
    /\ image_field d = Ok (image_url l)
    /\ detail_field d = Ok (detail_url l)
    /\ title l = strip (py_str (dict_get_default d (lit "name") (VStr [])))
    /\ title l <> []
    /\ price_yen l = fst pf /\ price_label l = snd pf
    /\ location l = location_field d.
Proof.
  unfold listing_of_item. intros H.
  destruct item as [| | | | |?|d]; try discriminate. simpl in H.
  destruct (strip (py_str (dict_get_default d (lit "name") (VStr [])))) as [|c t] eqn:Ht;
    [discriminate|]. simpl in H.
  destruct (price_fields _) as [pf|e] eqn:Hp; [|discriminate]. simpl in H.
  destruct (image_field d) as [img|e] eqn:Hi; [|discriminate]. simpl in H.
  destruct (detail_field d) as [det|e] eqn:Hd; [|discriminate]. simpl in H.
  injection H as <-. exists d, pf. simpl. repeat split; auto. discriminate.
Qed.

(** A candidate whose name is empty once trimmed is dropped. *)
Lemma listing_of_item_blank_name (d : pydict) :
  strip (py_str (dict_get_default d (lit "name") (VStr []))) = [] ->
  listing_of_item (VDict d) = Ok None.
Proof. unfold listing_of_item. simpl. intros ->. reflexivity. Qed.

(** A candidate that is not an object stops the whole parse. *)
Lemma listing_of_item_not_dict (item : value) :
  as_dict item = None -> raises (listing_of_item item) AttributeError.
Proof.
  destruct item; simpl; try (intros _; eexists; reflexivity). discriminate.
Qed.

(** The [try] of the price conversion: a negative result can only come
    from the direct conversion, [normalize_price] gives none. *)
Lemma price_try_negative (text : str) (n : Z) :
  match (f <- float_of_str text ;; n0 <- int_of_float f ;; Ok (Some n0)) with
  | Ok r0 => Ok r0
  | Raise e => if is_instance e ValueError then normalize_price text else Raise e
  end = Ok (Some n) ->
  n < 0 ->
  exists f, float_of_str text = Ok f /\ int_of_float f = Ok n.
Proof.
  intros Hr Hneg. unfold bind in Hr.
  destruct (float_of_str text) as [f|e] eqn:Hf.
  - destruct (int_of_float f) as [k|e] eqn:Hk.
    + injection Hr as ->. exists f. auto.
    + destruct (is_instance e ValueError); [|discriminate].
      apply normalize_price_nonneg in Hr. lia.
  - destruct (is_instance e ValueError); [|discriminate].
    apply normalize_price_nonneg in Hr. lia.
Qed.

(** The price of a listing is negative only when the text of the
    candidate's price converts directly to a float. *)
Lemma price_fields_negative (offers : pydict) (n : Z) (label : str) :
  price_fields offers = Ok (Some n, label) -> n < 0 ->
  exists f,
    float_of_str (py_str (dict_get offers (lit "price"))) = Ok f
    /\ int_of_float f = Ok n.
Proof.
  unfold price_fields. intros H Hneg.
  destruct (dict_get offers (lit "price")) eqn:Hprice;
    try (injection H as E _; discriminate E);
    match type of H with
    | (x <- ?m ;; _) = _ => destruct m as [r|e] eqn:Hm; [|discriminate H]
    end;
    unfold bind in H;
    (destruct r as [k|]; [|injection H as E _; discriminate E]);
    injection H as E _; subst k; apply (price_try_negative _ _ Hm Hneg).
Qed.

End StructuredPath.

(** ** [parse_fallback_html] *)

Lemma matches_Lit_ci (rest : str) :
  forall c t g g',
    matches (Lit_ci c rest) t g g' ->
    g' = g /\ exists a more, t = a :: more /\ ci c a = true.
Proof.
  induction rest as [|c' rest IH]; intros c t g g' M; simpl in M.
  - destruct M as [a [-> [Ha ->]]]. split; [reflexivity|]. exists a, []. auto.
  - destruct M as [t1 [t2 [g1 [-> [[a [-> [Ha ->]]] M2]]]]].
    apply IH in M2. destruct M2 as [-> _].
    split; [reflexivity|]. exists a, t2. auto.
Qed.

Lemma ci_slash (a : char) : ci c_slash a = true -> a = c_slash.
Proof.
  unfold ci. change (ascii_lower_char c_slash) with 47%N. cbv zeta.
  unfold sre_lower, c_slash. intros H.
  destruct ((65 <=? a) && (a <=? 90))%N eqn:Hu;
    [|destruct (a =? 304)%N eqn:H1; [|destruct (a =? 8490)%N eqn:H2]];
    char_facts.
Qed.

Lemma ci_u (a : char) : ci 117%N a = true -> a = 117%N \/ a = 85%N.
Proof.
  unfold ci. change (ascii_lower_char 117%N) with 117%N. cbv zeta.
  unfold sre_lower. intros H.
  destruct ((65 <=? a) && (a <=? 90))%N eqn:Hu;
    [|destruct (a =? 304)%N eqn:H1; [|destruct (a =? 8490)%N eqn:H2]];
    char_facts.
Qed.

(** What a match of the anchor pattern has captured: group 1 starts
    with a slash and then [u] or [U] (the head of [/usedcar/detail/]
    under [re.IGNORECASE]), group 2 is a text of 2 to 200 characters
    without [<]. *)
Lemma matches_re_detail_anchor (t : str) (g : groups) :
  matches re_detail_anchor t [] g ->
  exists url title c rest,
    g = [(2%nat, title); (1%nat, url)]
    /\ url = c_slash :: c :: rest /\ (c = 117%N \/ c = 85%N)
    /\ (2 <= length title <= 200)%nat
    /\ forallb (not_char c_lt) title = true.
Proof.
  unfold re_detail_anchor.
  change (lit "usedcar/detail/") with (117%N :: lit "sedcar/detail/").
  unfold Plus, Star. cbn [matches Lit_ci].
  intros [tA [t1 [gA [-> [MA M]]]]].
  apply matches_Lit_ci in MA. destruct MA as [-> _].
  destruct M as [tB [t2 [gB [-> [[_ [_ [_ ->]]] M]]]]].
  destruct M as [tC [t3 [gC [-> [MC M]]]]].
  apply matches_Lit_ci in MC. destruct MC as [-> _].
  destruct M as [url [t4 [gU [-> [[g1 [MU ->]] M]]]]].
  destruct MU as [tD [tE [gD [-> [MD [_ [_ [_ ->]]]]]]]].
  destruct MD as [t5 [t6 [g5 [-> [[a [-> [Ha ->]]] M6]]]]].
  apply matches_Lit_ci in M6. destruct M6 as [-> [c [more [-> Hc]]]].
  apply ci_slash in Ha. subst a. apply ci_u in Hc.
  destruct M as [tq [t7 [gq [-> [[q [-> [_ ->]]] M]]]]].
  destruct M as [tF [t8 [gF [-> [[_ [_ [_ ->]]] M]]]]].
  destruct M as [tG [t9 [gG [-> [[x [-> [_ ->]]] M]]]]].
  destruct M as [title [tZ [gT [-> [[g2 [[Hall [Hlo [Hhi ->]]] ->]] MZ]]]]].
  apply matches_Lit_ci in MZ. destruct MZ as [-> _].
  exists (([c_slash] ++ c :: more) ++ tE), title, c, (more ++ tE).
  simpl in Hhi. repeat split; auto.
Qed.

(** Every element of [finditer] is a match of the pattern. *)
Lemma finditer_fuel_matches (r : re) (fuel : nat) :
  forall s, Forall (fun m : rmatch_result => matches r (fst (fst m)) [] (snd (fst m)))
                   (finditer_fuel fuel r s).
Proof.
  induction fuel as [|fuel IH]; intros s; simpl; [constructor|].
  destruct (search r s) as [[pre [[t g] rest]]|] eqn:Hs; [|constructor].
  apply search_sound in Hs. destruct Hs as [_ [M _]].
  constructor; [exact M|].
  destruct t; [destruct rest|]; try constructor; apply IH.
Qed.

Section FallbackPath.
Context {L : PyLib}.

Lemma fallback_loop_appends (ms : list rmatch_result) :
  forall acc ls,
    fallback_loop ms acc = Ok ls ->
    exists new,
      ls = acc ++ new
      /\ Forall (fun l => exists m, In m ms /\ fallback_listing_of m l) new
      /\ ((length acc < 60)%nat -> (length ls <= 60)%nat).
Proof.
  induction ms as [|[[t g] rest] ms IH]; intros acc ls H;
    cbn [fallback_loop] in H; cbv zeta in H.
  - injection H as <-. exists []. rewrite app_nil_r. repeat split; auto. lia.
  - destruct (strip (re_sub (Plus is_space) (lit " ") (group 2 g))) as [|c ttl] eqn:Ht;
      cbn [truthy_str negb] in H; cbv iota in H.
    + apply IH in H. destruct H as [new [-> [Hall Hlen]]].
      exists new. repeat split; auto.
      eapply Forall_impl; [|exact Hall].
      intros x [m [Hin Hx]]. exists m. split; [right; exact Hin | exact Hx].
    + unfold bind in H.
      destruct (urljoin BASE_URL (group 1 g)) as [det|e] eqn:Hu; [|discriminate H].
      set (item := new_Listing (c :: ttl) None [] [] [] det) in *.
      assert (Hitem : fallback_listing_of (t, g, rest) item).
      { unfold fallback_listing_of, item. simpl. rewrite Ht.
        repeat split; auto. discriminate. }
      destruct (60 <=? length (acc ++ [item]))%nat eqn:Hcap.
      * injection H as <-. exists [item]. split; [reflexivity|]. split.
        -- constructor; [|constructor]. exists (t, g, rest).
           split; [left; reflexivity | exact Hitem].
        -- rewrite length_app. simpl. lia.
      * apply IH in H. destruct H as [new [-> [Hall Hlen]]].
        exists (item :: new). rewrite <- app_assoc. split; [reflexivity|]. split.
        -- constructor.
           ++ exists (t, g, rest). split; [left; reflexivity | exact Hitem].
           ++ eapply Forall_impl; [|exact Hall].
              intros x [m [Hin Hx]]. exists m. split; [right; exact Hin | exact Hx].
        -- intros _. rewrite app_assoc. apply Hlen.
           apply Nat.leb_gt in Hcap. exact Hcap.
Qed.

(** The loop returns when [urljoin] accepts every captured path. *)
Lemma fallback_loop_returns (ms : list rmatch_result) :
  (forall m, In m ms -> exists r, urljoin BASE_URL (group 1 (snd (fst m))) = Ok r) ->
  forall acc, exists ls, fallback_loop ms acc = Ok ls.
Proof.
  induction ms as [|[[t g] rest] ms IH]; intros Hok acc;
    cbn [fallback_loop]; cbv zeta.
  - eexists; reflexivity.
  - assert (Hok' : forall m, In m ms ->
              exists r, urljoin BASE_URL (group 1 (snd (fst m))) = Ok r)
      by (intros m Hin; apply Hok; right; exact Hin).
    destruct (strip (re_sub (Plus is_space) (lit " ") (group 2 g))) as [|c ttl];
      cbn [truthy_str negb]; cbv iota; [apply IH; exact Hok'|].
    destruct (Hok (t, g, rest)) as [r Hr]; [left; reflexivity|].
    cbn [fst snd] in Hr. rewrite Hr. unfold bind.
    destruct (60 <=? _)%nat; [eexists; reflexivity | apply IH; exact Hok'].
Qed.

End FallbackPath.

(** ** The float model against the kernel's binary64 arithmetic *)

(** Reading a decimal numeral and multiplying give the same sign,
    significand and exponent as the primitive floats, on numbers across
    the range: ordinary prices, a tie, the largest finite number, an
    overflow and the subnormals. *)
#[warnings="-inexact-float"]
Example float_model_agrees_with_binary64 :
  float_of_str (lit "98.5") = Ok (of_prim 98.5)
  /\ float_of_str (lit "1.13") = Ok (of_prim 1.13)
  /\ float_of_str (lit "0.1") = Ok (of_prim 0.1)
  /\ float_of_str (lit "9007199254740993") = Ok (of_prim 9007199254740993)
  /\ float_of_str (lit "1e23") = Ok (of_prim 1e23)
  /\ float_of_str (lit "1.7976931348623157e308") = Ok (of_prim 1.7976931348623157e308)
  /\ float_of_str (lit "1.8e308") = Ok (of_prim infinity)
  /\ float_of_str (lit "5e-324") = Ok (of_prim 5e-324)
  /\ float_of_str (lit "2.2250738585072011e-308") = Ok (of_prim 2.2250738585072011e-308)
  /\ float_of_str (lit "-1_000.5e+2") = Ok (of_prim (-100050))
  /\ float_of_Z 10000 = of_prim 10000
  /\ fmul (of_prim 98.5) (of_prim 10000) = of_prim (98.5 * 10000)
  /\ fmul (of_prim 1.13) (of_prim 10000) = of_prim (1.13 * 10000)
  /\ fmul (of_prim 0.0003) (of_prim 10000) = of_prim (0.0003 * 10000)
  /\ fmul (of_prim 1e300) (of_prim 1e300) = of_prim (1e300 * 1e300)
  /\ fmul (of_prim 1e-300) (of_prim 1e-20) = of_prim (1e-300 * 1e-20)
  /\ PrimFloat.ltb (1.13 * 10000) 11300 = true.
Proof. repeat split; vm_compute; reflexivity. Qed.

(** ** Titles *)

Lemma lstrip_nil_iff (s : str) : lstrip s = [] <-> forallb is_space s = true.
Proof.
  induction s as [|c s IH]; simpl; [tauto|].
  destruct (is_space c); simpl; [exact IH|]. split; discriminate.
Qed.

Lemma lstrip_all_space (s : str) :
  lstrip s = [] \/ exists c r, lstrip s = c :: r /\ is_space c = false.
Proof.
  induction s as [|c s IH]; simpl; [left; reflexivity|].
  destruct (is_space c) eqn:Hc; [exact IH|]. right. exists c, s. auto.
Qed.

(** Trimming leaves nothing exactly when the text is white space only. *)
Lemma strip_nil_iff (s : str) : strip s = [] <-> forallb is_space s = true.
Proof.
  unfold strip, rstrip. rewrite <- lstrip_nil_iff. split.
  - intros H. apply (f_equal (@rev char)) in H. rewrite rev_involutive in H.
    simpl in H. apply lstrip_nil_iff in H.
    destruct (lstrip_all_space s) as [E | [c [r [E Hc]]]]; [exact E|].
    rewrite E in H. rewrite forallb_forall in H.
    specialize (H c). rewrite Hc in H. exfalso.
    assert (Hin : In c (rev (c :: r))) by (apply -> in_rev; left; reflexivity).
    specialize (H Hin). discriminate.
  - intros ->. reflexivity.
Qed.

Section Titles.
Context {L : PyLib}.

Lemma parse_json_ld_titles (html : str) (ls : list Listing) :
  parse_json_ld html = Ok ls -> Forall (fun l => title l <> []) ls.
Proof.
  intros H. apply parse_json_ld_provenance in H.
  eapply Forall_impl; [|exact H]. intros l [item Hi].
  apply listing_of_item_inv in Hi.
  destruct Hi as [d [pf [_ [_ [_ [_ [_ [Hne _]]]]]]]]. exact Hne.
Qed.

Lemma parse_fallback_html_listings (html : str) (ls : list Listing) :
  parse_fallback_html html = Ok ls ->
  (length ls <= 60)%nat
  /\ Forall (fun l => exists m, In m (finditer re_detail_anchor html)
                                /\ fallback_listing_of m l) ls.
Proof.
  unfold parse_fallback_html. intros H. apply fallback_loop_appends in H.
  destruct H as [new [-> [Hall Hlen]]]. split; [|exact Hall].
  apply Hlen. simpl. lia.
Qed.

Lemma parse_fallback_html_titles (html : str) (ls : list Listing) :
  parse_fallback_html html = Ok ls -> Forall (fun l => title l <> []) ls.
Proof.
  intros H. apply parse_fallback_html_listings in H. destruct H as [_ H].
  eapply Forall_impl; [|exact H]. intros l [m [_ Hm]]. apply Hm.
Qed.

(** What [scrape] returns is a selection of what one of the two
    parsers returned. *)
Lemma scrape_listings (response : res str) (ls : list Listing) :
  scrape response = Ok ls ->
  exists html parsed,
    response = Ok html
    /\ ls = dedupe parsed
    /\ ((parsed <> [] /\ parse_json_ld html = Ok parsed)
        \/ (parse_json_ld html = Ok [] /\ parse_fallback_html html = Ok parsed)).
Proof.
  unfold scrape, bind. intros H.
  destruct response as [html|e]; [|discriminate].
  destruct (parse_json_ld html) as [[|x xs]|e] eqn:Hp; [| |discriminate].
  - destruct (parse_fallback_html html) as [fl|e] eqn:Hf; [|discriminate].
    injection H as <-. exists html, fl. auto.
  - injection H as <-. exists html, (x :: xs).
    repeat split; auto. left. split; [discriminate | exact Hp].
Qed.

(** C8: every listing of either parsing path, and so every listing
    [scrape] returns, has a non-empty title; a structured candidate whose
    name is empty or white space only is dropped, and so is a fallback
    match whose text is empty once its white space is collapsed and
    trimmed. *)
Theorem listings_have_titles :
  (forall html ls, parse_json_ld html = Ok ls -> Forall (fun l => title l <> []) ls)
  /\ (forall html ls, parse_fallback_html html = Ok ls ->
                      Forall (fun l => title l <> []) ls)
  /\ (forall response ls, scrape response = Ok ls ->
                          Forall (fun l => title l <> []) ls)
  /\ (forall d,
        forallb is_space (py_str (dict_get_default d (lit "name") (VStr []))) = true ->
        listing_of_item (VDict d) = Ok None)
  /\ (forall t g rest ms acc,
        strip (re_sub (Plus is_space) (lit " ") (group 2 g)) = [] ->
        fallback_loop ((t, g, rest) :: ms) acc = fallback_loop ms acc).
Proof.
  split; [exact parse_json_ld_titles|].
  split; [exact parse_fallback_html_titles|].
  split.
  { intros response ls H. apply scrape_listings in H.
    destruct H as [html [parsed [_ [-> Hp]]]].
    assert (Hall : Forall (fun l => title l <> []) parsed).
    { destruct Hp as [[_ Hp] | [_ Hp]];
        [apply (parse_json_ld_titles html) | apply (parse_fallback_html_titles html)];
        exact Hp. }
    rewrite Forall_forall in *. intros x Hin. apply Hall, dedupe_incl, Hin. }
  split.
  { intros d Hs. apply listing_of_item_blank_name. apply strip_nil_iff. exact Hs. }
  intros t g rest ms acc Hs. cbn [fallback_loop]. cbv zeta. rewrite Hs. reflexivity.
Qed.

End Titles.

(** The sample item list: its second candidate has a blank name and is
    dropped, the two others are listed. *)
Lemma listings_have_titles_witness :
  exists ls,
    parse_json_ld (L := ref_lib (script_events [block_item_list])) [] = Ok ls
    /\ length ls = 2%nat
    /\ Forall (fun l => title l <> []) ls.
Proof.
  eexists. split; [vm_compute; reflexivity|]. split; [reflexivity|].
  apply (proj1 (listings_have_titles (L := ref_lib (script_events [block_item_list])))
           []).
  vm_compute; reflexivity.
Defined.

(** ** Prices *)

Section Prices.
Context {L : PyLib}.

Lemma parse_json_ld_price_sign (html : str) (ls : list Listing) :
  parse_json_ld html = Ok ls -> Forall price_sign_rule ls.
Proof.
  intros H. apply parse_json_ld_provenance in H.
  eapply Forall_impl; [|exact H]. intros l [item Hi] n Hn.
  destruct (Z.leb_spec 0 n) as [Hpos|Hneg]; [left; exact Hpos|]. right.
  pose proof (listing_of_item_inv _ _ Hi) as [d [pf [-> [Hp [_ [_ [_ [_ [Hy _]]]]]]]]].
  destruct pf as [py label]. simpl in Hy. rewrite Hn in Hy. subst py.
  assert (Hnone : price_fields [] = Ok (None, [])) by reflexivity.
  destruct (dict_get d (lit "offers")) as [| | | | | |o] eqn:Ho;
    cbv iota in Hp; try (rewrite Hnone in Hp; discriminate Hp).
  destruct (price_fields_negative _ _ _ Hp Hneg) as [f [Hf Hk]].
  exists d, o, f. auto.
Qed.

Lemma parse_fallback_html_no_price (html : str) (ls : list Listing) :
  parse_fallback_html html = Ok ls -> Forall (fun l => price_yen l = None) ls.
Proof.
  intros H. apply parse_fallback_html_listings in H. destruct H as [_ H].
  eapply Forall_impl; [|exact H]. intros l [m [_ Hm]]. apply Hm.
Qed.

(** C3, as amended: a fallback listing has no price; a price read by
    [normalize_price] is never negative; and the price of a structured
    listing, and of any listing [scrape] returns, is non-negative unless
    it is the direct conversion [int(float(str(price)))] of the
    candidate's price. *)
Theorem price_yen_negative_only_when_converted_directly :
  (forall html ls, parse_fallback_html html = Ok ls ->
                   Forall (fun l => price_yen l = None) ls)
  /\ (forall text n, normalize_price text = Ok (Some n) -> 0 <= n)
  /\ (forall html ls, parse_json_ld html = Ok ls -> Forall price_sign_rule ls)
  /\ (forall response ls, scrape response = Ok ls -> Forall price_sign_rule ls).
Proof.
  split; [exact parse_fallback_html_no_price|].
  split; [exact normalize_price_nonneg|].
  split; [exact parse_json_ld_price_sign|].
  intros response ls H. apply scrape_listings in H.
  destruct H as [html [parsed [_ [-> Hp]]]].
  assert (Hall : Forall price_sign_rule parsed).
  { destruct Hp as [[_ Hp] | [_ Hp]].
    - apply (parse_json_ld_price_sign html). exact Hp.
    - apply parse_fallback_html_no_price in Hp.
      eapply Forall_impl; [|exact Hp]. intros l Hl n Hn. congruence. }
  rewrite Forall_forall in *. intros x Hin. apply Hall, dedupe_incl, Hin.
Qed.

End Prices.

(** The price text of the sample item list, 98.5万円, does not convert
    directly and is read by [normalize_price]. *)
Lemma price_yen_negative_only_when_converted_directly_witness :
  exists ls,
    scrape (L := ref_lib (script_events [block_item_list])) (Ok []) = Ok ls
    /\ map price_yen ls = [Some 1480000; Some 985000]
    /\ Forall (price_sign_rule (L := ref_lib (script_events [block_item_list]))) ls.
Proof.
  eexists. split; [vm_compute; reflexivity|]. split; [reflexivity|].
  apply (proj2 (proj2 (proj2
           (price_yen_negative_only_when_converted_directly
              (L := ref_lib (script_events [block_item_list]))))) (Ok [])).
  vm_compute; reflexivity.
Defined.

(** C3 as worded fails: a candidate whose price is the number -5 yields
    a listing whose [price_yen] is -5. *)
Lemma negative_price_counterexample :
  exists l,
    scrape (L := ref_lib (script_events [block_negative_price])) (Ok []) = Ok [l]
    /\ price_yen l = Some (-5)
    /\ ~ (forall n, price_yen l = Some n -> 0 <= n).
Proof.
  eexists. split; [vm_compute; reflexivity|]. split; [reflexivity|].
  intros H. specialize (H (-5) eq_refl). lia.
Qed.

(** ** URLs of structured listings *)

Lemma dict_get_empty_field (d : pydict) (k : str) :
  empty_field d k -> py_or (dict_get d k) (VStr []) = VStr [].
Proof.
  unfold empty_field, dict_get, py_or.
  intros [-> | [-> | ->]]; reflexivity.
Qed.

Section StructuredUrls.
Context {L : PyLib}.

(** An empty reference resolves to the base itself. *)
Hypothesis urljoin_empty : urljoin BASE_URL [] = Ok BASE_URL.

(** A resolved reference is never the empty string. *)
Hypothesis urljoin_nonempty : forall u r, urljoin BASE_URL u = Ok r -> r <> [].

Lemma detail_field_nonempty (d : pydict) (r : str) : detail_field d = Ok r -> r <> [].
Proof. unfold detail_field. apply urljoin_nonempty. Qed.

Lemma image_field_empty_iff (d : pydict) (r : str) :
  image_field d = Ok r -> (r = [] <-> dict_get d (lit "image") = VList []).
Proof.
  unfold image_field. intros H.
  destruct (dict_get d (lit "image")) as [| | | | |l|] eqn:Hi;
    try (split; [intros ->; apply urljoin_nonempty in H; congruence | discriminate]).
  destruct l as [|first l'].
  - injection H as <-. tauto.
  - split; [intros ->; apply urljoin_nonempty in H; congruence | discriminate].
Qed.

Lemma image_field_of_empty (d : pydict) (r : str) :
  empty_field d (lit "image") -> image_field d = Ok r -> r = BASE_URL.
Proof.
  intros He H. unfold image_field in H.
  pose proof (dict_get_empty_field d _ He) as Hor.
  assert (Hnl : forall l, dict_get d (lit "image") <> VList l).
  { intros l E. unfold empty_field, dict_get in *.
    destruct He as [He | [He | He]]; rewrite He in E; discriminate. }
  destruct (dict_get d (lit "image")) as [| | | | |l|] eqn:Hi;
    try (rewrite Hor in H; simpl in H; rewrite urljoin_empty in H;
         injection H as <-; reflexivity).
  exfalso. apply (Hnl l). reflexivity.
Qed.

(** C10: given that [urljoin] returns the base for an empty reference
    and never returns an empty string, for a structured candidate an
    absent, null or empty [url] or [image] resolves to the base origin,
    which is not the empty string; [image_url] is empty only for an empty
    [image] list; [detail_url] is never empty, so the listing is keyed by
    it and the composite key is not used for structured listings. *)
Theorem structured_listing_urls :
  BASE_URL = lit "https://www.carsensor.net" /\ BASE_URL <> []
  /\ (forall d l, listing_of_item (VDict d) = Ok (Some l) ->
        (empty_field d (lit "url") -> detail_url l = BASE_URL)
        /\ (empty_field d (lit "image") -> image_url l = BASE_URL)
        /\ (image_url l = [] <-> dict_get d (lit "image") = VList [])
        /\ detail_url l <> []
        /\ listing_key l = detail_url l)
  /\ (forall html ls, parse_json_ld html = Ok ls ->
        Forall (fun l => detail_url l <> [] /\ listing_key l = detail_url l) ls).
Proof.
  assert (Hkey : forall l, detail_url l <> [] -> listing_key l = detail_url l).
  { intros l Hne. unfold listing_key. destruct (detail_url l); [congruence | reflexivity]. }
  split; [reflexivity|]. split; [discriminate|]. split.
  - intros d l Hl. apply listing_of_item_inv in Hl.
    destruct Hl as [d' [pf [E [_ [Himg [Hdet _]]]]]]. injection E as <-.
    pose proof (detail_field_nonempty _ _ Hdet) as Hne.
    split.
    { intros He. unfold detail_field in Hdet.
      rewrite (dict_get_empty_field _ _ He) in Hdet. simpl in Hdet.
      rewrite urljoin_empty in Hdet. injection Hdet as <-. reflexivity. }
    split; [intros He; apply (image_field_of_empty d _ He Himg)|].
    split; [apply image_field_empty_iff; exact Himg|].
    split; [exact Hne | apply Hkey; exact Hne].
  - intros html ls H. apply parse_json_ld_provenance in H.
    eapply Forall_impl; [|exact H]. intros l [item Hi].
    apply listing_of_item_inv in Hi.
    destruct Hi as [d [pf [_ [_ [_ [Hdet _]]]]]].
    pose proof (detail_field_nonempty _ _ Hdet) as Hne.
    split; [exact Hne | apply Hkey; exact Hne].
Qed.

End StructuredUrls.

Lemma origin_urljoin_nonempty (u r : str) : origin_urljoin BASE_URL u = Ok r -> r <> [].
Proof.
  unfold origin_urljoin. destruct u as [|c u]; [intros E; injection E as <-; discriminate|].
  destruct (contains _ _); [intros E; injection E as <-; discriminate|].
  destruct (starts_with _ _); [intros E; injection E as <-; discriminate|].
  destruct (c =? c_slash)%N; intros E; injection E as <-; discriminate.
Qed.

(** A candidate with only a name: both URLs are the base origin and the
    listing is keyed by its [detail_url]. *)
Lemma structured_listing_urls_witness :
  exists l,
    listing_of_item (L := ref_lib no_events) (VDict [(lit "name", VStr (lit "Honda N-VAN"))])
    = Ok (Some l)
    /\ detail_url l = BASE_URL /\ image_url l = BASE_URL
    /\ detail_url l <> [] /\ listing_key l = detail_url l.
Proof.
  eexists. split; [vm_compute; reflexivity|].
  destruct (structured_listing_urls (L := ref_lib no_events) eq_refl
              origin_urljoin_nonempty) as [_ [_ [H _]]].
  specialize (H [(lit "name", VStr (lit "Honda N-VAN"))] _ eq_refl).
  destruct H as [Hu [Hi [_ [Hne Hk]]]].
  split; [apply Hu; left; reflexivity|].
  split; [apply Hi; left; reflexivity|].
  split; [exact Hne | exact Hk].
Defined.

(** ** Failures inside [parse_json_ld] *)

(** A block on which the decoder raises [JSONDecodeError] is skipped and
    the blocks around it are parsed as if it were not there. *)
Lemma blocks_loop_undecodable_block {L : PyLib}
    (before after : list str) (raw : str) (e : exn) (acc : list Listing) :
  json_loads raw = Raise e -> exn_class e = JSONDecodeError ->
  blocks_loop (before ++ raw :: after) acc = blocks_loop (before ++ after) acc.
Proof.
  intros H Hc. revert acc. induction before as [|b before IH]; intros acc.
  - simpl app. apply (blocks_loop_skips_undecodable raw after acc e H Hc).
  - cbn [app blocks_loop]. destruct (json_loads b) as [data|e'].
    + unfold bind. destruct (items_loop (items_of data) acc); [apply IH | reflexivity].
    + destruct (is_instance e' JSONDecodeError); [apply IH | reflexivity].
Qed.

(** The item list followed by a malformed block: exactly the listings of
    the item list, in order. *)
Example parse_json_ld_skips_malformed_block :
  parse_json_ld (L := ref_lib (script_events [block_item_list; block_malformed])) []
  = parse_json_ld (L := ref_lib (script_events [block_item_list])) []
  /\ exists a b,
       parse_json_ld (L := ref_lib (script_events [block_item_list; block_malformed])) []
       = Ok [a; b]
       /\ title a = lit "Honda N-VAN" /\ price_yen a = Some 1480000
       /\ price_label a = lit "1,480,000 円" /\ location a = lit "Tokyo"
       /\ detail_url a = lit "https://www.carsensor.net/usedcar/detail/AU1/index.html"
       /\ title b = lit "N-VAN Turbo" /\ price_yen b = Some 985000.
Proof.
  split; [vm_compute; reflexivity|].
  do 2 eexists. split; [vm_compute; reflexivity|]. repeat split.
Qed.

(** A candidate without [offers]: no price and an empty label. *)
Example listing_without_offers :
  exists l,
    parse_json_ld (L := ref_lib (script_events [block_no_offers])) [] = Ok [l]
    /\ price_yen l = None /\ price_label l = [].
Proof. eexists. split; [vm_compute; reflexivity|]. split; reflexivity. Qed.

(** C1: the claim that [parse_json_ld] never raises and that no single
    malformed listing aborts the batch fails on the code: a list item
    whose [item] is not an object (here a URL string) makes the loop call
    [get] on it, which raises [AttributeError]; the exception leaves
    [parse_json_ld], the listings already collected from the valid block
    before it are lost, and [main] writes a document with the error and
    no items. *)
Theorem parse_json_ld_raises_on_non_object_item :
  (forall (L : PyLib) (rest : list str) (acc : list Listing),
      raises (blocks_loop (block_item_is_url :: rest) acc) AttributeError)
  /\ (exists ls,
        parse_json_ld (L := ref_lib (script_events [block_item_list])) [] = Ok ls
        /\ length ls = 2%nat)
  /\ raises (parse_json_ld
               (L := ref_lib (script_events [block_item_list; block_item_is_url])) [])
            AttributeError
  /\ (exists payload,
        main (L := ref_lib (script_events [block_item_list; block_item_is_url]))
          example_args (Ok []) example_now empty_fs
        = (mkFS [out example_args] [(out example_args, Some payload)], Ok tt)
        /\ error payload <> None /\ items payload = []).
Proof.
  split.
  { intros L rest acc. cbn [blocks_loop].
    set (r := json_loads block_item_is_url). vm_compute in r. subst r. cbv iota.
    set (its := items_of _). vm_compute in its. subst its.
    cbn [items_loop listing_of_item get_method]. eexists. reflexivity. }
  split; [eexists; split; [vm_compute; reflexivity | reflexivity]|].
  split; [eexists; vm_compute; reflexivity|].
  eexists. split; [vm_compute; reflexivity|]. split; [discriminate | reflexivity].
Qed.

(** ** The fallback path *)

Section Fallback.
Context {L : PyLib}.

(** [urljoin] resolves every reference that starts with [/u] or [/U]:
    such a reference has no scheme and no authority to be split. *)
Hypothesis urljoin_detail_path :
  forall c rest, c = 117%N \/ c = 85%N ->
                 exists r, urljoin BASE_URL (c_slash :: c :: rest) = Ok r.

Lemma parse_fallback_html_returns (html : str) :
  exists ls, parse_fallback_html html = Ok ls.
Proof.
  unfold parse_fallback_html. apply fallback_loop_returns.
  intros m Hin.
  pose proof (finditer_fuel_matches re_detail_anchor (S (length html)) html) as Hall.
  rewrite Forall_forall in Hall. specialize (Hall m Hin).
  apply matches_re_detail_anchor in Hall.
  destruct Hall as [url [ttl [c [rest [Hg [-> [Hc _]]]]]]].
  rewrite Hg. cbn [group Nat.eqb]. apply urljoin_detail_path. exact Hc.
Qed.

(** C7: [scrape] uses the fallback parser only when the structured
    parse returned no listing; given that [urljoin] resolves the captured
    paths, the fallback parser returns, for every page, at most 60
    listings, each made from a match of the anchor
    pattern: its title is the anchor text with white space collapsed and
    trimmed and is not empty, its [detail_url] is the captured path
    joined to the base origin, it has no price and its [price_label],
    [location] and [image_url] are empty. *)
Theorem fallback_only_when_structured_empty_at_most_60 (html : str) :
  (forall x xs, parse_json_ld html = Ok (x :: xs) ->
                scrape (Ok html) = Ok (dedupe (x :: xs)))
  /\ (parse_json_ld html = Ok [] ->
      scrape (Ok html) = (ls <- parse_fallback_html html ;; Ok (dedupe ls)))
  /\ exists ls,
       parse_fallback_html html = Ok ls
       /\ (length ls <= 60)%nat
       /\ Forall (fun l => exists m, In m (finditer re_detail_anchor html)
                                     /\ fallback_listing_of m l) ls.
Proof.
  split; [intros x xs H; unfold scrape, bind; rewrite H; reflexivity|].
  split; [intros H; unfold scrape, bind; rewrite H; reflexivity|].
  destruct (parse_fallback_html_returns html) as [ls Hls].
  exists ls. split; [exact Hls|]. apply parse_fallback_html_listings. exact Hls.
Qed.

End Fallback.

Lemma origin_urljoin_returns (c : char) (rest : str) :
  c = 117%N \/ c = 85%N ->
  exists r, origin_urljoin BASE_URL (c_slash :: c :: rest) = Ok r.
Proof.
  intros _. unfold origin_urljoin.
  destruct (contains _ _); [eexists; reflexivity|].
  destruct (starts_with _ _); [eexists; reflexivity|].
  destruct (c_slash =? c_slash)%N; eexists; reflexivity.
Qed.

(** The sample page: two anchors give listings, the blank one is
    skipped. *)
Lemma fallback_only_when_structured_empty_at_most_60_witness :
  exists ls,
    scrape (L := ref_lib no_events) (Ok page_with_anchors) = Ok ls
    /\ (length ls <= 60)%nat
    /\ map title ls = [lit "Honda N-VAN"; lit "N-VAN Turbo"]
    /\ map detail_url ls =
       [lit "https://www.carsensor.net/usedcar/detail/AU1/index.html";
        lit "https://www.carsensor.net/usedcar/detail/AU2/index.html"].
Proof.
  destruct (fallback_only_when_structured_empty_at_most_60 (L := ref_lib no_events)
              origin_urljoin_returns page_with_anchors)
    as [_ [Hs [ls [Hls [Hlen _]]]]].
  specialize (Hs eq_refl). rewrite Hls in Hs.
  vm_compute in Hls. injection Hls as <-.
  eexists. split; [exact Hs|]. split; [vm_compute; lia|].
  split; vm_compute; reflexivity.
Defined.

(** ** The sample cases of the specification *)

(** Two listings with the same [detail_url] and different locations: the
    second one is kept, at the place of the first. *)
Example dedupe_same_detail_url :
  dedupe [listing_shibuya; listing_other; listing_osaka] = [listing_osaka; listing_other].
Proof. vm_compute; reflexivity. Qed.

(** A threshold of 1,000,000 keeps the listing without a price and the
    one at 985,000 and excludes the one at 1,500,000. *)
Example filter_by_max_price :
  apply_filters (L := ref_lib no_events)
    [listing_shibuya; listing_osaka; listing_other] (Some 1000000) None
  = [listing_shibuya; listing_other].
Proof. vm_compute; reflexivity. Qed.

(** The keyword [Tokyo] keeps [Tokyo-to Shibuya-ku] and excludes [Osaka],
    whatever the case of the keyword. *)
Example filter_by_region :
  apply_filters (L := ref_lib no_events)
    [listing_shibuya; listing_osaka; listing_other] None (Some (lit "TOKYO"))
  = [listing_shibuya; listing_other].
Proof. vm_compute; reflexivity. Qed.

(** ** The numeric parsers and the decoder at their limits *)

(** [float()] and [int()] read the decimal digits of any script, here
    fullwidth ones, and an ideographic space around them. *)
Example float_reads_fullwidth_digits :
  (f <- float_of_str (lit "　１２３　") ;; int_of_float f) = Ok 123
  /\ int_of_str (lit "１２３") = Ok 123.
Proof. split; vm_compute; reflexivity. Qed.

(** The separators U+001C to U+001F are white space for [strip()] but
    not for the numeric parsers. *)
Example float_keeps_separator_controls :
  strip [28%N; 49%N] = [49%N]
  /\ raises (float_of_str [28%N; 49%N]) ValueError
  /\ raises (int_of_str [49%N; 31%N]) ValueError.
Proof.
  split; [reflexivity|]. split; eexists; vm_compute; reflexivity.
Qed.

(** A text of 4300 digits converts, one of 4301 digits does not. *)
Example int_digit_limit :
  int_of_str (repeat 48%N 4300) = Ok 0
  /\ raises (int_of_str (repeat 48%N 4301)) ValueError.
Proof.
  split; [vm_compute; reflexivity|]. eexists; vm_compute; reflexivity.
Qed.

(** 992 nested arrays decode, 993 stop the decoder with a
    [RecursionError], which is not a [JSONDecodeError]. *)
Example json_nesting_at_the_limit :
  (exists v, json_loads (repeat 91%N 992 ++ repeat 93%N 992) = Ok v)
  /\ raises (json_loads (repeat 91%N 993 ++ repeat 93%N 993)) RecursionError
  /\ raises (json_loads (lit "[1,")) JSONDecodeError.
Proof.
  split; [eexists; vm_compute; reflexivity|].
  split; eexists; vm_compute; reflexivity.
Qed.

(** ** Trimming *)

Lemma lstrip_head_nonspace (s : str) (c : char) (r : str) :
  lstrip s = c :: r -> is_space c = false.
Proof.
  induction s as [|a s IH]; simpl; [discriminate|].
  destruct (is_space a) eqn:Ha; [exact IH|].
  intros E. injection E as <- _. exact Ha.
Qed.

Lemma lstrip_snoc_nonspace (x : str) (c : char) :
  is_space c = false -> lstrip (x ++ [c]) = lstrip x ++ [c].
Proof.
  intros Hc. induction x as [|a x IH]; simpl.
  - rewrite Hc. reflexivity.
  - destruct (is_space a); [exact IH | reflexivity].
Qed.

Lemma rstrip_cons_nonspace (c : char) (r : str) :
  is_space c = false -> rstrip (c :: r) = c :: rstrip r.
Proof.
  intros Hc. unfold rstrip. simpl rev.
  rewrite (lstrip_snoc_nonspace _ _ Hc), rev_unit. reflexivity.
Qed.

Lemma rstrip_last_nonspace (s r : str) (z : char) :
  rstrip s = r ++ [z] -> is_space z = false.
Proof.
  unfold rstrip. intros E. apply (f_equal (@rev char)) in E.
  rewrite rev_involutive, rev_unit in E.
  apply (lstrip_head_nonspace _ _ _ E).
Qed.

Lemma lstrip_idem (s : str) : lstrip (lstrip s) = lstrip s.
Proof.
  destruct (lstrip s) as [|c r] eqn:E; [reflexivity|].
  simpl. rewrite (lstrip_head_nonspace _ _ _ E). reflexivity.
Qed.

Lemma rstrip_idem (s : str) : rstrip (rstrip s) = rstrip s.
Proof. unfold rstrip. rewrite rev_involutive, lstrip_idem. reflexivity. Qed.

(** What [strip] returns has no white space at either end. *)
Lemma strip_trimmed (s : str) : trimmed (strip s).
Proof.
  unfold trimmed, strip. split.
  - intros c r E. destruct (lstrip s) as [|a t] eqn:El.
    + discriminate E.
    + pose proof (lstrip_head_nonspace _ _ _ El) as Ha.
      rewrite (rstrip_cons_nonspace _ _ Ha) in E. injection E as <- _. exact Ha.
  - intros r c E. apply (rstrip_last_nonspace _ _ _ E).
Qed.

(** Trimming twice is trimming once. *)
Lemma strip_idem (s : str) : strip (strip s) = strip s.
Proof.
  unfold strip. destruct (lstrip s) as [|a t] eqn:El; [reflexivity|].
  pose proof (lstrip_head_nonspace _ _ _ El) as Ha.
  rewrite (rstrip_cons_nonspace _ _ Ha). simpl lstrip. rewrite Ha.
  rewrite (rstrip_cons_nonspace _ _ Ha), rstrip_idem. reflexivity.
Qed.

(** ** [JsonLdExtractor] *)

Section Extractor.
Context {L : PyLib}.

Import JsonLdExtractor.

Lemma handle_blocks_ok (st : t) (ev : event) :
  Forall block_ok (blocks st) -> Forall block_ok (blocks (handle st ev)).
Proof.
  intros H. destruct ev as [tag attrs|tag|data]; simpl.
  - unfold handle_starttag.
    destruct (_ && _); [exact H | exact H].
  - unfold handle_endtag.
    destruct (_ && _); [|exact H]. cbn [blocks].
    destruct (strip (concat (_buf st))) as [|c r] eqn:E; [exact H|].
    cbn [truthy_str]. apply Forall_app. split; [exact H|].
    constructor; [|constructor]. rewrite <- E.
    split; [rewrite E; discriminate|]. split; [apply strip_idem | apply strip_trimmed].
  - unfold handle_data. destruct (_in_json_ld st); exact H.
Qed.

Lemma fold_handle_blocks_ok (evs : list event) :
  forall st, Forall block_ok (blocks st) ->
             Forall block_ok (blocks (fold_left handle evs st)).
Proof.
  induction evs as [|ev evs IH]; intros st H; simpl; [exact H|].
  apply IH, handle_blocks_ok, H.
Qed.

(** X1: every block the extractor collects is non-empty and trimmed,
    whatever the callbacks of the scan are. *)
Theorem extractor_blocks_nonempty_trimmed (html : str) :
  Forall block_ok (blocks (feed init html)).
Proof.
  unfold feed. apply fold_handle_blocks_ok. constructor.
Qed.

Lemma handle_blocks_extend (st : t) (ev : event) :
  exists new,
    blocks (handle st ev) = blocks st ++ new
    /\ (length new + open_elements (handle st ev)
        <= open_elements st + (if is_start_tag ev then 1 else 0))%nat
    /\ (length new <= (if is_end_tag ev then 1 else 0))%nat.
Proof.
  unfold open_elements.
  destruct ev as [tag attrs|tag|data]; simpl.
  - unfold handle_starttag. destruct (_ && _); exists []; rewrite app_nil_r; simpl;
      repeat split; destruct (_in_json_ld st); simpl; lia.
  - unfold handle_endtag. destruct (str_eqb _ _); simpl.
    + destruct (_in_json_ld st) eqn:Hin; simpl.
      * destruct (truthy_str _); [exists [strip (concat (_buf st))] | exists []];
          rewrite ?app_nil_r; simpl; repeat split; lia.
      * exists []. rewrite app_nil_r, Hin. simpl. repeat split; lia.
    + exists []. rewrite app_nil_r. simpl. repeat split; lia.
  - unfold handle_data. destruct (_in_json_ld st) eqn:Hin; exists [];
      rewrite app_nil_r; simpl; rewrite ?Hin; repeat split; lia.
Qed.

Lemma fold_handle_blocks_extend (evs : list event) :
  forall st,
    exists new,
      blocks (fold_left handle evs st) = blocks st ++ new
      /\ (length new + open_elements (fold_left handle evs st)
          <= open_elements st + length (filter is_start_tag evs))%nat
      /\ (length new <= length (filter is_end_tag evs))%nat.
Proof.
  induction evs as [|ev evs IH]; intros st; simpl.
  - exists []. rewrite app_nil_r. simpl. repeat split; lia.
  - destruct (handle_blocks_extend st ev) as [n1 [E1 [Hs1 He1]]].
    destruct (IH (handle st ev)) as [n2 [E2 [Hs2 He2]]].
    exists (n1 ++ n2). rewrite E2, E1, <- app_assoc, length_app.
    split; [reflexivity|].
    destruct (is_start_tag ev), (is_end_tag ev); simpl; split; lia.
Qed.

(** X2: the scan only appends blocks, and collects at most one block per
    start tag and per end tag it meets. *)
Theorem extractor_one_block_per_element (evs : list event) (st : t) :
  exists new,
    blocks (fold_left handle evs st) = blocks st ++ new
    /\ (length new <= open_elements st + length (filter is_start_tag evs))%nat
    /\ (length new <= length (filter is_end_tag evs))%nat.
Proof.
  destruct (fold_handle_blocks_extend evs st) as [new [E [Hs He]]].
  exists new. repeat split; [exact E | lia | exact He].
Qed.

(** X3: outside a JSON-LD element, text and end tags change nothing, and
    neither does a start tag whose name is not [script]: a page without
    script elements yields no block. *)
Theorem extractor_ignores_other_markup (evs : list event) (st : t) :
  _in_json_ld st = false ->
  Forall (fun ev => match ev with
                    | StartTag tag _ => lower tag <> lit "script"
                    | _ => True
                    end) evs ->
  fold_left handle evs st = st.
Proof.
  intros Hout Hall. induction Hall as [|ev evs Hev Hall IH]; simpl; [reflexivity|].
  assert (E : handle st ev = st).
  { destruct ev as [tag attrs|tag|data]; simpl.
    - unfold handle_starttag. apply str_eqb_neq in Hev. rewrite Hev. reflexivity.
    - unfold handle_endtag. rewrite Hout, andb_false_r. reflexivity.
    - unfold handle_data. rewrite Hout. reflexivity. }
  rewrite E. exact IH.
Qed.

(** X4: a JSON-LD script element, met in any state, gives the trimmed
    concatenation of its text chunks as one block (none when that text is
    blank), drops whatever was buffered before its start tag and leaves
    the scanner outside. *)
Theorem extractor_element_block (st : t) (tag k v tag' : str) (chunks : list str) :
  lower tag = lit "script" ->
  lower k = lit "type" ->
  lower v = lit "application/ld+json" ->
  lower tag' = lit "script" ->
  fold_left handle (StartTag tag [(k, Some v)] :: map Data chunks ++ [EndTag tag']) st
  = mk false []
      (if truthy_str (strip (concat chunks))
       then blocks st ++ [strip (concat chunks)]
       else blocks st).
Proof.
  intros Ht Hk Hv Ht'. cbn [fold_left handle].
  assert (Es : handle_starttag st tag [(k, Some v)] = mk true [] (blocks st)).
  { unfold handle_starttag. cbn [fold_left fst snd dict_setitem].
    rewrite Hk. cbn [assoc]. rewrite str_eqb_refl, Hv, Ht, !str_eqb_refl. reflexivity. }
  rewrite Es, fold_left_app.
  assert (Ed : forall cs buf,
            fold_left handle (map Data cs) (mk true buf (blocks st))
            = mk true (buf ++ cs) (blocks st)).
  { induction cs as [|c cs IH]; intros buf; cbn [map fold_left handle].
    - rewrite app_nil_r. reflexivity.
    - unfold handle_data. cbn [_in_json_ld _buf blocks].
      rewrite IH, <- app_assoc. reflexivity. }
  rewrite Ed. cbn [fold_left handle app]. unfold handle_endtag.
  rewrite Ht', str_eqb_refl. reflexivity.
Qed.

End Extractor.

(** An upper-case element with two text chunks. *)
Lemma extractor_element_block_witness :
  fold_left (JsonLdExtractor.handle (L := ref_lib no_events))
    (StartTag (lit "SCRIPT") [(lit "TYPE", Some (lit "Application/LD+JSON"))]
       :: map Data [lit "  {"; lit "}  "] ++ [EndTag (lit "Script")])
    (JsonLdExtractor.mk true [lit "stale"] [])
  = JsonLdExtractor.mk false [] [lit "{}"].
Proof.
  apply (extractor_element_block (L := ref_lib no_events)); reflexivity.
Defined.

(** A page whose only markup is a paragraph and a closing [script] tag. *)
Lemma extractor_ignores_other_markup_witness :
  fold_left (JsonLdExtractor.handle (L := ref_lib no_events))
    [StartTag (lit "p") []; Data (lit "text"); EndTag (lit "script"); EndTag (lit "p")]
    JsonLdExtractor.init
  = JsonLdExtractor.init.
Proof.
  apply (extractor_ignores_other_markup (L := ref_lib no_events)); [reflexivity|].
  repeat constructor. discriminate.
Defined.

(** ** More on de-duplication *)

Lemma dedupe_keys (l : list Listing) :
  map listing_key (dedupe l) = first_seen (map listing_key l).
Proof.
  destruct (uniq_of_invariant l) as [Hk _]. rewrite <- Hk.
  unfold dedupe, dict_values. rewrite map_map.
  apply map_ext_in. intros [k x] Hin. simpl.
  assert (Hx : In x (dedupe l)).
  { unfold dedupe, dict_values. apply in_map_iff. exists (k, x). auto. }
  pose proof (dedupe_last_of_key l x Hx) as Hl.
  destruct (uniq_of_invariant l) as [Hk' Hv].
  assert (Hl' : last_with_key k l = Some x).
  { rewrite <- Hv. apply assoc_In_NoDup; [|exact Hin]. rewrite Hk'. apply first_seen_NoDup. }
  apply last_with_key_Some in Hl'. apply Hl'.
Qed.

Lemma dedupe_keys_NoDup (l : list Listing) : NoDup (map listing_key (dedupe l)).
Proof. rewrite dedupe_keys. apply first_seen_NoDup. Qed.

Lemma dict_setitem_fresh {V} (k : str) (v : V) (d : list (str * V)) :
  ~ In k (map fst d) -> dict_setitem k v d = d ++ [(k, v)].
Proof.
  induction d as [|[a b] d IH]; simpl; [reflexivity|].
  intros Hn. destruct (str_eqb k a) eqn:E.
  - apply str_eqb_eq in E. subst. exfalso. apply Hn. left. reflexivity.
  - rewrite IH; [reflexivity|]. intros Hin. apply Hn. right. exact Hin.
Qed.

(** Without repeated keys the dictionary holds the listings as they came. *)
Lemma uniq_of_distinct (l : list Listing) :
  NoDup (map listing_key l) -> uniq_of l = map (fun x => (listing_key x, x)) l.
Proof.
  induction l as [|x l IH] using rev_ind; intros Hnd; [reflexivity|].
  rewrite map_app in Hnd. simpl in Hnd.
  apply NoDup_remove in Hnd. rewrite app_nil_r in Hnd. destruct Hnd as [Hnd Hnotin].
  rewrite uniq_of_snoc, (IH Hnd), map_app. simpl.
  apply dict_setitem_fresh. rewrite map_map. simpl. exact Hnotin.
Qed.

Lemma dedupe_distinct (l : list Listing) : NoDup (map listing_key l) -> dedupe l = l.
Proof.
  intros Hnd. unfold dedupe, dict_values. rewrite (uniq_of_distinct l Hnd), map_map.
  simpl. apply map_id.
Qed.

Lemma first_seen_length (ks : list str) : (length (first_seen ks) <= length ks)%nat.
Proof.
  induction ks as [|k ks IH]; simpl; [lia|].
  pose proof (filter_length_le (fun k' => negb (str_eqb k' k)) (first_seen ks)). lia.
Qed.

(** X5: de-duplicating a list whose keys are already distinct changes
    nothing, so de-duplicating twice is de-duplicating once. *)
Theorem dedupe_idempotent (l : list Listing) :
  (NoDup (map listing_key l) -> dedupe l = l)
  /\ dedupe (dedupe l) = dedupe l.
Proof.
  split; [apply dedupe_distinct|].
  apply dedupe_distinct, dedupe_keys_NoDup.
Qed.

(** X6: de-duplication never invents a listing and never loses a key:
    the output is drawn from the input, is no longer than it, covers every
    key of the input and is empty only for an empty input. *)
Theorem dedupe_selects (l : list Listing) :
  (forall x, In x (dedupe l) -> In x l)
  /\ (length (dedupe l) <= length l)%nat
  /\ (forall x, In x l -> exists y, In y (dedupe l) /\ listing_key y = listing_key x)
  /\ (dedupe l = [] <-> l = []).
Proof.
  split; [apply dedupe_incl|].
  assert (Hlen : (length (dedupe l) <= length l)%nat).
  { rewrite <- (length_map listing_key (dedupe l)), dedupe_keys,
      <- (length_map listing_key l). apply first_seen_length. }
  assert (Hcov : forall x, In x l ->
            exists y, In y (dedupe l) /\ listing_key y = listing_key x).
  { intros x Hin.
    assert (Hk : In (listing_key x) (map listing_key (dedupe l))).
    { rewrite dedupe_keys. apply first_seen_In. apply in_map. exact Hin. }
    apply in_map_iff in Hk. destruct Hk as [y [E Hy]]. exists y. auto. }
  split; [exact Hlen|]. split; [exact Hcov|].
  split.
  - intros E. destruct l as [|x l]; [reflexivity|].
    destruct (Hcov x (or_introl eq_refl)) as [y [Hy _]]. rewrite E in Hy. destruct Hy.
  - intros ->. reflexivity.
Qed.

(** Two listings with different detail URLs. *)
Lemma dedupe_idempotent_witness :
  dedupe [listing_osaka; listing_other] = [listing_osaka; listing_other].
Proof.
  apply (proj1 (dedupe_idempotent [listing_osaka; listing_other])).
  vm_compute. constructor; [intros [H|[]]; discriminate H|].
  constructor; [intros []|]. constructor.
Defined.

(** ** More on [apply_filters] *)

Section Filters.
Context {L : PyLib}.

Lemma price_rule_monotone (m1 m2 : Z) (item : Listing) :
  m1 <= m2 -> price_rule (Some m1) item = true -> price_rule (Some m2) item = true.
Proof.
  unfold price_rule. intros Hle. destruct (price_yen item) as [p|]; [|reflexivity].
  rewrite !Z.leb_le. lia.
Qed.

Lemma filter_incl_pointwise {A} (f g : A -> bool) (l : list A) :
  (forall x, f x = true -> g x = true) -> incl (filter f l) (filter g l).
Proof.
  intros H x Hin. apply filter_In in Hin. apply filter_In.
  split; [apply Hin | apply H, Hin].
Qed.

(** X7: loosening a filter never removes a listing: a higher threshold
    keeps everything a lower one keeps, and dropping the threshold or the
    keyword keeps everything the filtered run keeps. *)
Theorem apply_filters_loosening (l : list Listing) (m1 m2 : Z) (m : option Z)
    (r : option str) :
  m1 <= m2 ->
  incl (apply_filters l (Some m1) r) (apply_filters l (Some m2) r)
  /\ incl (apply_filters l m r) (apply_filters l None r)
  /\ incl (apply_filters l m r) (apply_filters l m None)
  /\ incl (apply_filters l m r) l.
Proof.
  intros Hle. rewrite !apply_filters_filter. repeat split.
  - apply filter_incl_pointwise. intros x Hx.
    apply andb_true_iff in Hx. destruct Hx as [Hp Hr].
    rewrite (price_rule_monotone m1 m2 x Hle Hp), Hr. reflexivity.
  - apply filter_incl_pointwise. intros x Hx.
    apply andb_true_iff in Hx. destruct Hx as [_ Hr]. simpl. exact Hr.
  - apply filter_incl_pointwise. intros x Hx.
    apply andb_true_iff in Hx. destruct Hx as [Hp _]. rewrite Hp. reflexivity.
  - apply incl_filter.
Qed.

(** X8: filtering works listing by listing: it distributes over the
    concatenation of two lists, never lengthens a list, and the price and
    region filters can be applied in either order. *)
Theorem apply_filters_pointwise (l1 l2 : list Listing) (m : option Z) (r : option str) :
  apply_filters (l1 ++ l2) m r = apply_filters l1 m r ++ apply_filters l2 m r
  /\ (length (apply_filters l1 m r) <= length l1)%nat
  /\ apply_filters (apply_filters l1 m None) None r
     = apply_filters (apply_filters l1 None r) m None.
Proof.
  rewrite !apply_filters_filter. split; [apply filter_app|].
  split; [apply filter_length_le|].
  rewrite !filter_filter_and. apply filter_ext. intros x.
  unfold price_rule at 2 3. unfold region_rule at 1 4.
  rewrite !andb_true_r. simpl. apply andb_comm.
Qed.

End Filters.

(** A threshold raised from 1,000,000 to 2,000,000. *)
Lemma apply_filters_loosening_witness :
  incl (apply_filters (L := ref_lib no_events)
          [listing_shibuya; listing_osaka; listing_other] (Some 1000000) None)
       (apply_filters (L := ref_lib no_events)
          [listing_shibuya; listing_osaka; listing_other] (Some 2000000) None).
Proof.
  apply (apply_filters_loosening (L := ref_lib no_events)
           [listing_shibuya; listing_osaka; listing_other]
           1000000 2000000 None None).
  lia.
Defined.

(** ** More on [scrape] and [main] *)

Lemma filter_keys_NoDup (keep : Listing -> bool) (ls : list Listing) :
  NoDup (map listing_key ls) -> NoDup (map listing_key (filter keep ls)).
Proof.
  induction ls as [|x ls IH]; simpl; [auto|].
  intros Hnd. inversion Hnd as [|? ? Hfresh Hrest]; subst.
  destruct (keep x); simpl; [|apply IH; exact Hrest].
  constructor; [|apply IH; exact Hrest].
  intros Hin. apply Hfresh. apply in_map_iff in Hin. destruct Hin as [y [E Hy]].
  apply filter_In in Hy. apply in_map_iff. exists y. split; [exact E | apply Hy].
Qed.

Section MainExtra.
Context {L : PyLib}.

Lemma scrape_titles (response : res str) (ls : list Listing) :
  scrape response = Ok ls -> Forall (fun l => title l <> []) ls.
Proof.
  intros H. apply scrape_listings in H.
  destruct H as [html [parsed [_ [-> Hp]]]].
  assert (Hall : Forall (fun l => title l <> []) parsed).
  { destruct Hp as [[_ Hp] | [_ Hp]];
      [apply (parse_json_ld_titles html) | apply (parse_fallback_html_titles html)];
      exact Hp. }
  rewrite Forall_forall in *. intros x Hin. apply Hall, dedupe_incl, Hin.
Qed.

Lemma scrape_keys_NoDup (response : res str) (ls : list Listing) :
  scrape response = Ok ls -> NoDup (map listing_key ls).
Proof.
  intros H. apply scrape_listings in H.
  destruct H as [html [parsed [_ [-> _]]]]. apply dedupe_keys_NoDup.
Qed.

(** X9: in every run the document [main] hands to [write_text] for
    [args.out] is consistent, and it is the document written whenever
    its texts can be encoded: [count] is the number of items, no two
    items share a de-duplication key, every item has a title and passes
    both filters, the query echoes the command line; when [scrape]
    returned there is no error and the items are its filtered result, and
    when it raised the error is the text of the exception and there are
    no items. *)
Theorem main_payload_consistent
    (args : Args) (response : res str) (now : str) (fs : FS) :
  exists payload,
    main args response now fs
    = write_text (out args) payload (mkdir_parent (out args) fs)
    /\ (forallb utf8_encodable (payload_texts payload) = true ->
        main args response now fs
        = (mkFS (out args :: dirs fs) (files fs ++ [(out args, Some payload)]),
           Ok tt))
    /\ count payload = length (items payload)
    /\ NoDup (map listing_key (items payload))
    /\ Forall (fun it => title it <> []
                         /\ price_rule (max_price args) it = true
                         /\ region_rule (region args) it = true) (items payload)
    /\ q_max_price (query payload) = max_price args
    /\ q_region (query payload) = region args
    /\ generated_at payload = now
    /\ (forall ls, scrape response = Ok ls ->
                   error payload = None
                   /\ items payload = apply_filters ls (max_price args) (region args))
    /\ (forall exc, scrape response = Raise exc ->
                    error payload = Some (exn_str exc)
                    /\ items payload = [] /\ count payload = 0%nat).
Proof.
  unfold main. eexists. split; [reflexivity|].
  split; [intros Henc; unfold write_text; rewrite Henc; reflexivity|].
  cbn [count items query q_max_price q_region generated_at error].
  split; [reflexivity|].
  assert (Hsrc : NoDup (map listing_key
                          (fst match scrape response with
                               | Ok listings => (listings, None)
                               | Raise exc => ([], Some (exn_str exc))
                               end))
                 /\ Forall (fun l => title l <> [])
                          (fst match scrape response with
                               | Ok listings => (listings, None (A := str))
                               | Raise exc => ([], Some (exn_str exc))
                               end)).
  { destruct (scrape response) as [ls|e] eqn:Hs; simpl.
    - split; [apply (scrape_keys_NoDup _ _ Hs) | apply (scrape_titles _ _ Hs)].
    - split; constructor. }
  destruct Hsrc as [Hnd Htt].
  rewrite apply_filters_filter.
  split; [apply filter_keys_NoDup; exact Hnd|].
  split.
  { rewrite Forall_forall in *. intros x Hin. apply filter_In in Hin.
    destruct Hin as [Hin Hf]. apply andb_true_iff in Hf.
    split; [apply Htt; exact Hin | exact Hf]. }
  do 3 (split; [reflexivity|]). split.
  - intros ls Hs. rewrite apply_filters_filter, Hs. split; reflexivity.
  - intros exc Hs. rewrite Hs. cbn [fst snd filter length]. repeat split.
Qed.

End MainExtra.

(** ** More on [parse_json_ld] *)

Lemma float_of_str_raises (s : str) (e : exn) :
  float_of_str s = Raise e -> exn_class e = ValueError.
Proof.
  unfold float_of_str, raise. intros H.
  destruct (numeric_text s); [|injection H as <-; reflexivity].
  cbv zeta in H.
  destruct (_ || _); [discriminate|].
  destruct (str_eqb _ _); [discriminate|].
  destruct (float_body _ _); [discriminate | injection H as <-; reflexivity].
Qed.

Lemma int_of_float_raises (f : float) (e : exn) :
  int_of_float f = Raise e ->
  exn_class e = ValueError \/ exn_class e = OverflowError.
Proof.
  destruct f; unfold int_of_float, raise; intros H;
    [injection H as <-; left; reflexivity
    |injection H as <-; right; reflexivity
    |discriminate].
Qed.

Lemma int_of_str_raises (s : str) (e : exn) :
  int_of_str s = Raise e -> exn_class e = ValueError.
Proof.
  unfold int_of_str, raise. intros H.
  destruct (numeric_text s) as [t|]; [|injection H as <-; reflexivity].
  cbv zeta in H.
  destruct (snd (split_sign t)); [injection H as <-; reflexivity|].
  destruct (forallb _ _); [|injection H as <-; reflexivity].
  destruct (int_max_str_digits <? _); [injection H as <-; reflexivity | discriminate].
Qed.

Lemma normalize_price_raises (text : str) (e : exn) :
  normalize_price text = Raise e ->
  exn_class e = ValueError \/ exn_class e = OverflowError.
Proof.
  unfold normalize_price, bind. cbv zeta. intros H.
  destruct (search re_man_yen _) as [[pre [[t g] rest]]|].
  - destruct (float_of_str _) as [f|e'] eqn:Hf.
    + destruct (int_of_float _) as [n|e'] eqn:Hn; [discriminate|].
      injection H as <-. apply (int_of_float_raises _ _ Hn).
    + injection H as <-. left. apply (float_of_str_raises _ _ Hf).
  - destruct (search re_yen _) as [[pre [[t g] rest]]|]; [|discriminate].
    destruct (int_of_str _) as [n|e'] eqn:Hn; [discriminate|].
    injection H as <-. left. apply (int_of_str_raises _ _ Hn).
Qed.

Section ParseExtra.
Context {L : PyLib}.

Lemma price_try_raises (text : str) (e : exn) :
  match (f <- float_of_str text ;; n <- int_of_float f ;; Ok (Some n)) with
  | Ok r0 => Ok r0
  | Raise e0 => if is_instance e0 ValueError then normalize_price text else Raise e0
  end = Raise e ->
  exn_class e = ValueError \/ exn_class e = OverflowError.
Proof.
  unfold bind. intros H.
  destruct (float_of_str text) as [f|e0] eqn:Hf.
  - destruct (int_of_float f) as [k|e0] eqn:Hk; [discriminate|].
    destruct (is_instance e0 ValueError).
    + apply (normalize_price_raises _ _ H).
    + injection H as <-. apply (int_of_float_raises _ _ Hk).
  - destruct (is_instance e0 ValueError).
    + apply (normalize_price_raises _ _ H).
    + injection H as <-. left. apply (float_of_str_raises _ _ Hf).
Qed.

Lemma price_fields_raises (offers : pydict) (e : exn) :
  price_fields offers = Raise e ->
  exn_class e = ValueError \/ exn_class e = OverflowError.
Proof.
  unfold price_fields. cbv zeta. intros H.
  destruct (dict_get offers (lit "price")) eqn:Hprice; try discriminate H;
    match type of H with
    | (x <- ?m ;; _) = _ =>
        destruct m as [r|e0] eqn:Hm;
        [destruct r; discriminate H
        |injection H as <-; apply (price_try_raises _ _ Hm)]
    end.
Qed.

(** How one turn of the loop over [items] can fail. *)
Lemma listing_of_item_raises (item : value) (e : exn) :
  listing_of_item item = Raise e ->
  (as_dict item = None /\ exn_class e = AttributeError)
  \/ exn_class e = ValueError \/ exn_class e = OverflowError
  \/ exists u, urljoin BASE_URL u = Raise e.
Proof.
  unfold listing_of_item. intros H.
  destruct item as [| | | | | |d];
    try (injection H as <-; left; split; reflexivity).
  right. cbn [get_method bind] in H. cbv zeta in H.
  destruct (negb _); [discriminate|].
  unfold bind in H.
  destruct (price_fields _) as [pf|e0] eqn:Hp.
  - right. right.
    destruct (image_field d) as [img|e0] eqn:Hi.
    + destruct (detail_field d) as [det|e0] eqn:Hd; [discriminate|].
      injection H as <-. unfold detail_field in Hd. eexists. exact Hd.
    + injection H as <-. unfold image_field in Hi.
      destruct (dict_get d (lit "image")) eqn:Himg;
        try (eexists; exact Hi).
      destruct l as [|first l]; [discriminate|]. eexists. exact Hi.
  - injection H as <-.
    destruct (price_fields_raises _ _ Hp) as [Hc|Hc]; auto.
Qed.

Lemma items_loop_raises (items : list value) :
  forall acc e,
    items_loop items acc = Raise e ->
    exists item, In item items /\ listing_of_item item = Raise e.
Proof.
  induction items as [|item items IH]; intros acc e H; simpl in H; [discriminate|].
  destruct (listing_of_item item) as [r|e0] eqn:Hi; simpl in H.
  - apply IH in H. destruct H as [it [Hin Hit]]. exists it. split; [right|]; assumption.
  - injection H as <-. exists item. split; [left; reflexivity | exact Hi].
Qed.

Lemma items_loop_acc (items : list value) :
  forall acc,
    items_loop items acc = (l <- items_loop items [] ;; Ok (acc ++ l)).
Proof.
  induction items as [|item items IH]; intros acc; simpl.
  - rewrite app_nil_r. reflexivity.
  - destruct (listing_of_item item) as [[l|]|e]; simpl; [| apply IH | reflexivity].
    rewrite (IH (acc ++ [l])), (IH [l]). unfold bind.
    destruct (items_loop items []); [|reflexivity].
    rewrite <- app_assoc. reflexivity.
Qed.

Lemma blocks_loop_acc (blocks : list str) :
  forall acc,
    blocks_loop blocks acc = (l <- blocks_loop blocks [] ;; Ok (acc ++ l)).
Proof.
  induction blocks as [|raw blocks IH]; intros acc; cbn [blocks_loop].
  - simpl. rewrite app_nil_r. reflexivity.
  - destruct (json_loads raw) as [data|e].
    + rewrite (items_loop_acc (items_of data) acc). unfold bind.
      destruct (items_loop (items_of data) []) as [l1|e]; [|reflexivity].
      cbn [app]. rewrite (IH (acc ++ l1)), (IH l1). unfold bind.
      destruct (blocks_loop blocks []); [|reflexivity].
      simpl. rewrite <- app_assoc. reflexivity.
    + destruct (is_instance e JSONDecodeError); [apply IH | reflexivity].
Qed.

Lemma blocks_loop_app (b1 b2 : list str) :
  forall acc,
    blocks_loop (b1 ++ b2) acc = (l <- blocks_loop b1 acc ;; blocks_loop b2 l).
Proof.
  induction b1 as [|raw b1 IH]; intros acc; cbn [app blocks_loop]; [reflexivity|].
  destruct (json_loads raw) as [data|e].
  - unfold bind. destruct (items_loop (items_of data) acc); [apply IH | reflexivity].
  - destruct (is_instance e JSONDecodeError); [apply IH | reflexivity].
Qed.

(** X11: the blocks are parsed one after the other, each on its own:
    the loop over a concatenation is the loop over the first part
    followed by the loop over the second, what was collected before
    only stays in front, and the listings of two parts that parse are
    those of the first followed by those of the second. *)
Theorem blocks_parsed_in_document_order (b1 b2 : list str) (acc : list Listing) :
  blocks_loop (b1 ++ b2) acc = (l <- blocks_loop b1 acc ;; blocks_loop b2 l)
  /\ blocks_loop b1 acc = (l <- blocks_loop b1 [] ;; Ok (acc ++ l))
  /\ (forall l1 l2,
        blocks_loop b1 [] = Ok l1 -> blocks_loop b2 [] = Ok l2 ->
        blocks_loop (b1 ++ b2) [] = Ok (l1 ++ l2))
  /\ (forall e, blocks_loop b1 [] = Raise e -> blocks_loop (b1 ++ b2) [] = Raise e).
Proof.
  split; [apply blocks_loop_app|]. split; [apply blocks_loop_acc|]. split.
  - intros l1 l2 H1 H2. rewrite blocks_loop_app, H1. simpl.
    rewrite blocks_loop_acc, H2. reflexivity.
  - intros e H1. rewrite blocks_loop_app, H1. reflexivity.
Qed.

(** X12: how the loop over the candidates of a decoded block can fail.
    An [AttributeError] that [urljoin] did not raise comes from an entry
    of [itemListElement] whose [item] is not an object; a top-level
    array skips its non-objects and a scalar has no candidates.  What
    else is raised is a [ValueError] or an [OverflowError] of a price
    conversion, or an exception of [urljoin]. *)
Theorem candidates_failure_modes (data : value) (acc : list Listing) (e : exn) :
  items_loop (items_of data) acc = Raise e ->
  (exn_class e = AttributeError
   /\ exists d l x,
        data = VDict d
        /\ assoc (lit "itemListElement") d = Some (VList l)
        /\ In (VDict x) l
        /\ as_dict (dict_get_default x (lit "item") (VDict x)) = None)
  \/ exn_class e = ValueError \/ exn_class e = OverflowError
  \/ exists u, urljoin BASE_URL u = Raise e.
Proof.
  intros H. apply items_loop_raises in H. destruct H as [item [Hin Hr]].
  apply listing_of_item_raises in Hr.
  destruct Hr as [[Hnd Hc] | Hr]; [|right; exact Hr].
  left. split; [exact Hc|].
  destruct data as [| | | | |l|d]; try contradiction.
  - simpl in Hin. apply filter_In in Hin. destruct Hin as [_ Hd].
    destruct item; discriminate.
  - cbn [items_of] in Hin.
    destruct (assoc (lit "itemListElement") d) as [v|] eqn:Ha.
    + destruct v as [| | | | |l|d'];
        try (destruct Hin as [<-|[]]; discriminate Hnd).
      apply in_flat_map in Hin. destruct Hin as [entry [He Hitem]].
      destruct entry as [| | | | | |x]; try contradiction.
      destruct Hitem as [<-|[]].
      exists d, l, x. repeat split; auto.
    + destruct Hin as [<-|[]]. discriminate Hnd.
Qed.

End ParseExtra.

(** An entry of an item list whose [item] is a string. *)
Lemma candidates_failure_modes_witness :
  items_loop (L := ref_lib no_events)
    (items_of (VDict [(lit "itemListElement",
                       VList [VDict [(lit "item", VStr (lit "/usedcar/"))]])])) []
  = Raise (Exn AttributeError (lit "'str' object has no attribute 'get'"))
  /\ ((AttributeError = AttributeError
       /\ exists d l x,
            VDict [(lit "itemListElement",
                    VList [VDict [(lit "item", VStr (lit "/usedcar/"))]])] = VDict d
            /\ assoc (lit "itemListElement") d = Some (VList l)
            /\ In (VDict x) l
            /\ as_dict (dict_get_default x (lit "item") (VDict x)) = None)
      \/ AttributeError = ValueError \/ AttributeError = OverflowError
      \/ exists u, urljoin (PyLib := ref_lib no_events) BASE_URL u
                   = Raise (Exn AttributeError
                              (lit "'str' object has no attribute 'get'"))).
Proof.
  split; [vm_compute; reflexivity|].
  apply (candidates_failure_modes (L := ref_lib no_events)
           (VDict [(lit "itemListElement",
                    VList [VDict [(lit "item", VStr (lit "/usedcar/"))]])]) []
           (Exn AttributeError (lit "'str' object has no attribute 'get'"))).
  vm_compute. reflexivity.
Defined.

(** ** More on [normalize_price] and the price fields *)

Lemma man_yen_at_In (s pre g : str) : man_yen_at s pre g -> In c_yen s.
Proof.
  intros [ws [post [-> _]]].
  apply in_or_app. right. apply in_or_app. right. apply in_or_app. right.
  right. left. reflexivity.
Qed.

Lemma yen_at_In (s pre g : str) : yen_at s pre g -> In c_yen s.
Proof.
  intros [ws [post [-> _]]].
  apply in_or_app. right. apply in_or_app. right. apply in_or_app. right.
  left. reflexivity.
Qed.

(** X13: commas never matter to [normalize_price], a text without the
    character 円 has no price, and a price that is found is not
    negative. *)
Theorem normalize_price_commas_and_marker (text : str) :
  normalize_price text = normalize_price (remove_char c_comma text)
  /\ (forall a b, text = a ++ c_comma :: b ->
                  normalize_price text = normalize_price (a ++ b))
  /\ (~ In c_yen text -> normalize_price text = Ok None)
  /\ (forall n, normalize_price text = Ok (Some n) -> 0 <= n).
Proof.
  split; [|split; [|split]].
  - unfold normalize_price. rewrite remove_char_idem. reflexivity.
  - intros a b ->. unfold normalize_price. rewrite !remove_char_app.
    unfold remove_char at 2 5. cbn [filter].
    replace (negb (char_eqb c_comma c_comma)) with false by reflexivity.
    reflexivity.
  - intros Hno.
    destruct (normalize_price_cases text)
      as [[pre [g [Hat _]]] | [[_ [pre [g [Hat _]]]] | [_ [_ E]]]].
    + exfalso. apply Hno. apply (remove_char_In c_comma). apply (man_yen_at_In _ _ _ Hat).
    + exfalso. apply Hno. apply (remove_char_In c_comma). apply (yen_at_In _ _ _ Hat).
    + exact E.
  - intros n. apply normalize_price_nonneg.
Qed.

Section PriceFields.
Context {L : PyLib}.

(** The label that goes with the price. *)
Lemma price_fields_label (offers : pydict) (p : option Z) (label : str) :
  price_fields offers = Ok (p, label) ->
  match p with
  | Some n => label = format_thousands n ++ lit " 円"
  | None => strip label = label
  end.
Proof.
  unfold price_fields. cbv zeta. intros H.
  destruct (dict_get offers (lit "price")) eqn:Hprice;
    try (injection H as <- <-; reflexivity);
    match type of H with
    | (x <- ?m ;; _) = _ => destruct m as [r|e] eqn:Hm; [|discriminate H]
    end;
    cbn [bind] in H; destruct r as [n|];
    injection H as <- <-; try reflexivity; apply strip_idem.
Qed.

Lemma listing_of_item_fields (item : value) (l : Listing) :
  listing_of_item item = Ok (Some l) ->
  strip (title l) = title l
  /\ match price_yen l with
     | Some n => price_label l = format_thousands n ++ lit " 円"
     | None => strip (price_label l) = price_label l
     end
  /\ source l = lit "carsensor.net".
Proof.
  intros H. pose proof H as H0. apply listing_of_item_inv in H.
  destruct H as [d [pf [-> [Hp [_ [_ [Ht [_ [Hy [Hl _]]]]]]]]]].
  split; [rewrite Ht; apply strip_idem|]. split.
  - destruct pf as [p label]. apply price_fields_label in Hp.
    rewrite Hy, Hl. exact Hp.
  - unfold listing_of_item in H0. cbn [get_method bind] in H0. cbv zeta in H0.
    destruct (negb _); [discriminate|]. unfold bind in H0.
    destruct (price_fields _); [|discriminate].
    destruct (image_field d); [|discriminate].
    destruct (detail_field d); [|discriminate].
    injection H0 as <-. reflexivity.
Qed.

Lemma fallback_loop_source (ms : list rmatch_result) :
  forall acc ls,
    fallback_loop ms acc = Ok ls ->
    Forall (fun l => source l = lit "carsensor.net") acc ->
    Forall (fun l => source l = lit "carsensor.net") ls.
Proof.
  induction ms as [|[[t g] rest] ms IH]; intros acc ls H Hacc;
    cbn [fallback_loop] in H; cbv zeta in H.
  - injection H as <-. exact Hacc.
  - destruct (negb _); [apply (IH _ _ H Hacc)|].
    unfold bind in H.
    destruct (urljoin BASE_URL (group 1 g)) as [det|e]; [|discriminate H].
    assert (Hacc' : Forall (fun l => source l = lit "carsensor.net")
                      (acc ++ [new_Listing
                                 (strip (re_sub (Plus is_space) (lit " ") (group 2 g)))
                                 None [] [] [] det])).
    { apply Forall_app. split; [exact Hacc|]. constructor; [reflexivity|constructor]. }
    destruct (60 <=? _)%nat; [injection H as <-; exact Hacc' | apply (IH _ _ H Hacc')].
Qed.

(** X14: every listing [scrape] returns has a trimmed title and the
    constant source, and its label goes with its price: with a price
    the label is the price grouped by thousands followed by 円, without
    one the label is trimmed (and empty on the fallback path). *)
Theorem listing_fields_consistent (response : res str) (ls : list Listing) :
  scrape response = Ok ls ->
  Forall (fun l =>
            strip (title l) = title l
            /\ match price_yen l with
               | Some n => price_label l = format_thousands n ++ lit " 円"
               | None => strip (price_label l) = price_label l
               end
            /\ source l = lit "carsensor.net") ls.
Proof.
  intros H. apply scrape_listings in H.
  destruct H as [html [parsed [_ [-> Hp]]]].
  assert (Hall : Forall (fun l =>
            strip (title l) = title l
            /\ match price_yen l with
               | Some n => price_label l = format_thousands n ++ lit " 円"
               | None => strip (price_label l) = price_label l
               end
            /\ source l = lit "carsensor.net") parsed).
  { destruct Hp as [[_ Hp] | [_ Hp]].
    - apply parse_json_ld_provenance in Hp.
      eapply Forall_impl; [|exact Hp]. intros l [item Hi].
      apply (listing_of_item_fields _ _ Hi).
    - pose proof Hp as Hsrc. unfold parse_fallback_html in Hsrc.
      apply fallback_loop_source in Hsrc; [|constructor].
      apply parse_fallback_html_listings in Hp. destruct Hp as [_ Hp].
      rewrite Forall_forall in *. intros l Hin.
      destruct (Hp l Hin) as [m [_ [Ht [_ [_ [Hy [Hl _]]]]]]].
      split; [rewrite Ht; apply strip_idem|].
      split; [rewrite Hy, Hl; reflexivity | apply (Hsrc l Hin)]. }
  rewrite Forall_forall in *. intros x Hin. apply Hall, dedupe_incl, Hin.
Qed.

End PriceFields.

(** The sample item list: a price given in yen and one given in 万円. *)
Lemma listing_fields_consistent_witness :
  exists ls,
    scrape (L := ref_lib (script_events [block_item_list])) (Ok []) = Ok ls
    /\ map price_label ls = [lit "1,480,000 円"; lit "985,000 円"]
    /\ Forall (fun l =>
                 strip (title l) = title l
                 /\ match price_yen l with
                    | Some n => price_label l = format_thousands n ++ lit " 円"
                    | None => strip (price_label l) = price_label l
                    end
                 /\ source l = lit "carsensor.net") ls.
Proof.
  eexists. split; [vm_compute; reflexivity|]. split; [reflexivity|].
  apply (listing_fields_consistent (L := ref_lib (script_events [block_item_list]))
           (Ok [])).
  vm_compute; reflexivity.
Defined.

(** *** Labels read back *)

Lemma digits_val_snoc (ds : str) (c : char) :
  digits_val (ds ++ [c]) = 10 * digits_val ds + (Z.of_N c - 48).
Proof. unfold digits_val. rewrite fold_left_app. reflexivity. Qed.

Lemma forallb_snoc {A} (p : A -> bool) (l : list A) (x : A) :
  forallb p (l ++ [x]) = forallb p l && p x.
Proof. rewrite forallb_app. simpl. rewrite andb_true_r. reflexivity. Qed.

Lemma digits_of_fuel_acc (fuel : nat) :
  forall n acc, digits_of_fuel fuel n acc = digits_of_fuel fuel n [] ++ acc.
Proof.
  induction fuel as [|fuel IH]; intros n acc; simpl; [reflexivity|].
  destruct (n <? 10); [reflexivity|].
  rewrite IH, (IH _ [_]). rewrite <- app_assoc. reflexivity.
Qed.

Lemma digit_char (m : Z) :
  0 <= m < 10 ->
  is_digit (Z.to_N (48 + m)) = true /\ Z.of_N (Z.to_N (48 + m)) - 48 = m.
Proof.
  intros Hm. split; [|lia].
  unfold is_digit. apply andb_true_iff. split; apply N.leb_le; lia.
Qed.

Lemma digits_of_fuel_spec (fuel : nat) :
  forall n,
    0 <= n < 2 ^ Z.of_nat (S fuel) ->
    digits_of_fuel (S fuel) n [] <> []
    /\ forallb is_digit (digits_of_fuel (S fuel) n []) = true
    /\ digits_val (digits_of_fuel (S fuel) n []) = n.
Proof.
  induction fuel as [|fuel IH]; intros n Hn.
  - assert (Hlt : (n <? 10) = true) by (apply Z.ltb_lt; simpl in Hn; lia).
    cbn [digits_of_fuel]. cbv zeta. rewrite Hlt.
    assert (Hm : 0 <= n mod 10 < 10) by (apply Z.mod_pos_bound; lia).
    destruct (digit_char _ Hm) as [Hd Hv].
    split; [discriminate|]. split; [cbn [forallb]; rewrite Hd; reflexivity|].
    unfold digits_val. cbn [fold_left]. rewrite Hv.
    rewrite Z.mod_small; simpl in Hn; lia.
  - change (digits_of_fuel (S (S fuel)) n [])
      with (let acc' := Z.to_N (48 + n mod 10) :: [] in
            if n <? 10 then acc' else digits_of_fuel (S fuel) (n / 10) acc').
    cbv zeta.
    assert (Hm : 0 <= n mod 10 < 10) by (apply Z.mod_pos_bound; lia).
    destruct (digit_char _ Hm) as [Hd Hv].
    destruct (n <? 10) eqn:Hlt.
    + apply Z.ltb_lt in Hlt.
      split; [discriminate|]. split; [cbn [forallb]; rewrite Hd; reflexivity|].
      unfold digits_val. cbn [fold_left]. rewrite Hv.
      rewrite Z.mod_small; lia.
    + apply Z.ltb_ge in Hlt. rewrite digits_of_fuel_acc.
      assert (Hq : 0 <= n / 10 < 2 ^ Z.of_nat (S fuel)).
      { split; [apply Z.div_pos; lia|].
        apply Z.div_lt_upper_bound; [lia|].
        rewrite (Nat2Z.inj_succ (S fuel)), Z.pow_succ_r in Hn by lia. lia. }
      destruct (IH _ Hq) as [Hne [Hall Hval]].
      split; [intros E; apply app_eq_nil in E; destruct E as [_ E]; discriminate E|].
      split; [rewrite forallb_snoc, Hall, Hd; reflexivity|].
      rewrite digits_val_snoc, Hval, Hv.
      pose proof (Z.div_mod n 10). lia.
Qed.

(** The decimal digits of a natural number denote it. *)
Lemma digits_of_spec (n : Z) :
  0 <= n -> digit_string (digits_of n) /\ digits_val (digits_of n) = n.
Proof.
  intros Hn. unfold digits_of, digit_string.
  assert (Hb : 0 <= n < 2 ^ Z.of_nat (S (Z.to_nat (Z.log2 n)))).
  { split; [exact Hn|].
    rewrite Nat2Z.inj_succ, Z2Nat.id by apply Z.log2_nonneg.
    destruct (Z.eq_dec n 0) as [->|Hz]; [reflexivity|].
    apply Z.log2_spec. lia. }
  destruct (digits_of_fuel_spec _ _ Hb) as [Hne [Hall Hval]]. auto.
Qed.

(** A number below [10^k] has at most [k] digits. *)
Lemma digits_of_fuel_length (fuel : nat) :
  forall n k,
    1 <= k -> 0 <= n < 10 ^ k ->
    Z.of_nat (length (digits_of_fuel (S fuel) n [])) <= k.
Proof.
  induction fuel as [|fuel IH]; intros n k Hk Hn.
  - cbn [digits_of_fuel]. cbv zeta. destruct (n <? 10); cbn [length]; lia.
  - change (digits_of_fuel (S (S fuel)) n [])
      with (let acc' := Z.to_N (48 + n mod 10) :: [] in
            if n <? 10 then acc' else digits_of_fuel (S fuel) (n / 10) acc').
    cbv zeta. destruct (n <? 10) eqn:Hlt; [cbn [length]; lia|].
    apply Z.ltb_ge in Hlt. rewrite digits_of_fuel_acc, length_app.
    cbn [length].
    assert (Hk2 : 2 <= k).
    { destruct (Z.eq_dec k 1) as [->|]; [|lia]. change (10 ^ 1) with 10 in Hn. lia. }
    assert (Hq : 0 <= n / 10 < 10 ^ (k - 1)).
    { split; [apply Z.div_pos; lia|].
      apply Z.div_lt_upper_bound; [lia|].
      rewrite <- Z.pow_succ_r by lia. replace (Z.succ (k - 1)) with k by lia.
      apply Hn. }
    specialize (IH (n / 10) (k - 1) ltac:(lia) Hq). lia.
Qed.

Lemma digits_of_length (n k : Z) :
  1 <= k -> 0 <= n < 10 ^ k -> Z.of_nat (length (digits_of n)) <= k.
Proof. intros Hk Hn. unfold digits_of. apply digits_of_fuel_length; assumption. Qed.

Lemma digit_not_comma (c : char) : is_digit c = true -> negb (char_eqb c c_comma) = true.
Proof.
  unfold is_digit, char_eqb, c_comma. intros H.
  apply andb_true_iff in H. destruct H as [H1 H2].
  apply N.leb_le in H1. apply negb_true_iff. apply N.eqb_neq. lia.
Qed.

Lemma remove_char_digits (ds : str) :
  forallb is_digit ds = true -> remove_char c_comma ds = ds.
Proof.
  unfold remove_char. induction ds as [|c ds IH]; simpl; [reflexivity|].
  intros H. apply andb_true_iff in H. destruct H as [Hc Hds].
  rewrite (digit_not_comma _ Hc), (IH Hds). reflexivity.
Qed.

(** Grouping only inserts commas. *)
Lemma group3_commas (k : nat) :
  forall rds,
    (length rds <= k)%nat ->
    remove_char c_comma (group3 rds) = remove_char c_comma rds
    /\ remove_char c_comma (group3_aux rds) = remove_char c_comma rds.
Proof.
  induction k as [|k IH]; intros rds Hlen.
  - destruct rds; [split; reflexivity | simpl in Hlen; lia].
  - destruct rds as [|a [|b [|c [|d r]]]]; try (split; reflexivity).
    assert (Hr : (length (d :: r) <= k)%nat) by (simpl in *; lia).
    destruct (IH _ Hr) as [H1 H2].
    split.
    + change (group3 (a :: b :: c :: d :: r))
        with (a :: b :: c :: 44%N :: group3_aux (d :: r)).
      change (a :: b :: c :: 44%N :: group3_aux (d :: r))
        with ([a; b; c; 44%N] ++ group3_aux (d :: r)).
      change (a :: b :: c :: d :: r) with ([a; b; c] ++ d :: r).
      rewrite !remove_char_app, H2.
      reflexivity.
    + change (group3_aux (a :: b :: c :: d :: r))
        with (a :: b :: c :: 44%N :: group3 (d :: r)).
      change (a :: b :: c :: 44%N :: group3 (d :: r))
        with ([a; b; c; 44%N] ++ group3 (d :: r)).
      change (a :: b :: c :: d :: r) with ([a; b; c] ++ d :: r).
      rewrite !remove_char_app, H1.
      reflexivity.
Qed.

Lemma remove_char_rev (c : char) (s : str) :
  remove_char c (rev s) = rev (remove_char c s).
Proof.
  induction s as [|x s IH]; [reflexivity|].
  cbn [rev]. rewrite remove_char_app, IH. unfold remove_char. cbn [filter].
  destruct (negb (char_eqb x c)); [reflexivity | apply app_nil_r].
Qed.

(** Without its commas, the grouped text of a natural number is its
    decimal digits. *)
Lemma format_thousands_digits (n : Z) :
  0 <= n -> remove_char c_comma (format_thousands n) = digits_of n.
Proof.
  intros Hn. unfold format_thousands. cbv zeta.
  replace (n <? 0) with false by (symmetry; apply Z.ltb_ge; exact Hn).
  rewrite Z.abs_eq by exact Hn.
  rewrite remove_char_rev.
  rewrite (proj1 (group3_commas _ (rev (digits_of n)) (le_n _))).
  rewrite <- remove_char_rev, rev_involutive.
  apply remove_char_digits. apply (digits_of_spec n Hn).
Qed.

Lemma digit_prefix_unique (a b x y : str) :
  a ++ x = b ++ y ->
  forallb is_digit a = true -> forallb is_digit b = true ->
  match x with [] => True | c :: _ => is_digit c = false end ->
  match y with [] => True | c :: _ => is_digit c = false end ->
  a = b /\ x = y.
Proof.
  intros E Ha Hb Hx Hy.
  pose proof (span_all is_digit a x Ha Hx) as Sa.
  pose proof (span_all is_digit b y Hb Hy) as Sb.
  rewrite E in Sa. rewrite Sa in Sb. injection Sb as -> ->. auto.
Qed.

Lemma space_not_digit (c : char) : is_space c = true -> is_digit c = false.
Proof.
  intros Hs. destruct (is_digit c) eqn:Hd; [|reflexivity].
  rewrite (digit_not_space _ Hd) in Hs. discriminate.
Qed.

(** X15: a label written for a price reads back as that price: for a
    natural number [n] within the interpreter's limit of 4300 digits on
    conversions between integers and text, [normalize_price] of [n]
    grouped by thousands and followed by 円 is [n]. *)
Theorem price_label_reads_back (n : Z) :
  0 <= n -> n < 10 ^ 4300 ->
  normalize_price (format_thousands n ++ lit " 円") = Ok (Some n).
Proof.
  intros Hn Hlim.
  destruct (digits_of_spec n Hn) as [[Hne Hall] Hval].
  assert (Hlen : (int_max_str_digits <? Z.of_nat (length (digits_of n))) = false).
  { apply Z.ltb_ge. unfold int_max_str_digits.
    apply digits_of_length; [lia | split; [exact Hn | exact Hlim]]. }
  assert (Hc : remove_char c_comma (format_thousands n ++ lit " 円")
               = digits_of n ++ [32%N; c_yen]).
  { rewrite remove_char_app, (format_thousands_digits n Hn). reflexivity. }
  assert (Hat : yen_at (digits_of n ++ [32%N; c_yen]) [] (digits_of n)).
  { exists [32%N], []. repeat split; auto. }
  assert (Hin : forall c, In c (digits_of n ++ [32%N; c_yen]) ->
                          c <> c_man /\ c <> c_dot).
  { intros c Hc0. apply in_app_or in Hc0. destruct Hc0 as [Hd | [<- | [<- | []]]];
      try (split; discriminate).
    rewrite forallb_forall in Hall. apply Hall in Hd.
    apply digit_range in Hd. unfold c_man, c_dot. lia. }
  destruct (normalize_price_cases (format_thousands n ++ lit " 円"))
    as [[pre [g [Hm _]]] | [[_ [pre [g [Hy [Hleft E]]]]] | [_ [Hno _]]]];
    cbv zeta in *; rewrite Hc in *.
  - exfalso. destruct Hm as [ws [post [Es _]]].
    assert (Hman : In c_man (digits_of n ++ [32%N; c_yen])).
    { rewrite Es. apply in_or_app. right. apply in_or_app. right.
      apply in_or_app. right. left. reflexivity. }
    apply Hin in Hman. destruct Hman as [Hman _]. apply Hman. reflexivity.
  - rewrite E. specialize (Hleft [] (digits_of n) Hat).
    destruct pre; [|simpl in Hleft; lia].
    destruct Hy as [ws [post [Es [[_ Hg] Hws]]]]. simpl in Es.
    assert (Hd : digits_of n = g).
    { apply (digit_prefix_unique _ _ _ _ Es Hall Hg); [reflexivity|].
      destruct ws as [|w ws]; [reflexivity|].
      simpl in Hws. apply andb_true_iff in Hws. destruct Hws as [Hw _].
      apply space_not_digit. exact Hw. }
    rewrite <- Hd, Hlen, Hval. reflexivity.
  - exfalso. apply (Hno [] (digits_of n)). exact Hat.
Qed.

Lemma price_label_reads_back_witness :
  format_thousands 1480000 = lit "1,480,000"
  /\ normalize_price (format_thousands 1480000 ++ lit " 円") = Ok (Some 1480000).
Proof.
  split; [reflexivity|].
  apply (price_label_reads_back 1480000); [lia | vm_compute; reflexivity].
Defined.

(** A digit string of more than 4300 digits before 円 is more than
    [int()] converts: the [ValueError] leaves [normalize_price]. *)
Lemma normalize_price_over_digit_limit (ds : str) :
  digit_string ds -> 4300 < Z.of_nat (length ds) ->
  raises (normalize_price (ds ++ [c_yen])) ValueError.
Proof.
  intros [Hne Hall] Hlen.
  assert (Hc : remove_char c_comma (ds ++ [c_yen]) = ds ++ [c_yen]).
  { rewrite remove_char_app, (remove_char_digits _ Hall). reflexivity. }
  assert (Hat : yen_at (ds ++ [c_yen]) [] ds).
  { exists [], []. repeat split; auto. }
  destruct (normalize_price_cases (ds ++ [c_yen]))
    as [[pre [g [Hm _]]] | [[_ [pre [g [Hy [Hleft E]]]]] | [_ [Hno _]]]];
    cbv zeta in *; rewrite Hc in *.
  - exfalso. destruct Hm as [ws [post [Es _]]].
    assert (Hman : In c_man (ds ++ [c_yen])).
    { rewrite Es. apply in_or_app. right. apply in_or_app. right.
      apply in_or_app. right. left. reflexivity. }
    apply in_app_or in Hman. destruct Hman as [Hd | [Hd | []]]; [|discriminate Hd].
    rewrite forallb_forall in Hall. apply Hall in Hd.
    apply digit_range in Hd. unfold c_man in Hd. lia.
  - specialize (Hleft [] ds Hat). destruct pre; [|simpl in Hleft; lia].
    destruct Hy as [ws [post [Es [[_ Hg] Hws]]]]. simpl in Es.
    assert (Hd : ds = g).
    { apply (digit_prefix_unique _ _ _ _ Es Hall Hg); [reflexivity|].
      destruct ws as [|w ws]; [reflexivity|].
      simpl in Hws. apply andb_true_iff in Hws. destruct Hws as [Hw _].
      apply space_not_digit. exact Hw. }
    rewrite E, <- Hd.
    replace (int_max_str_digits <? Z.of_nat (length ds)) with true
      by (symmetry; apply Z.ltb_lt; unfold int_max_str_digits; exact Hlen).
    eexists. reflexivity.
  - exfalso. apply (Hno [] ds). exact Hat.
Qed.

(** ** Exact prices in 万円 *)

(** X16: an integer number of 万円 is converted exactly. When the text
    without its commas starts with a digit string, optional white space
    and 万円, and ten thousand times the number is below [2^53], the
    result is ten thousand times the number: the double arithmetic of
    the conversion loses nothing in that range. *)
Theorem normalize_price_exact_on_integer_man_yen (text ds ws post : str) :
  remove_char c_comma text = ds ++ ws ++ [c_man; c_yen] ++ post ->
  digit_string ds ->
  forallb is_space ws = true ->
  digits_val ds * 10000 < 2 ^ 53 ->
  normalize_price text = Ok (Some (digits_val ds * 10000)).
Proof.
  intros Hc Hds Hws Hb. pose proof Hds as [Hne Hall].
  assert (Hat : man_yen_at (remove_char c_comma text) [] ds).
  { exists ws, post. split; [exact Hc|]. split; [left; exact Hds | exact Hws]. }
  assert (Hhead : match ws ++ [c_man; c_yen] ++ post with
                  | [] => True
                  | c :: _ => is_digit c = false
                  end).
  { destruct ws as [|w ws']; [reflexivity|].
    simpl in Hws. apply andb_true_iff in Hws. destruct Hws as [Hw _].
    apply space_not_digit. exact Hw. }
  destruct (normalize_price_cases text)
    as [[pre [g [Hm [Hleft E]]]] | [[Hno _] | [Hno _]]]; cbv zeta in *;
    try (exfalso; apply (Hno [] ds); exact Hat).
  rewrite E. specialize (Hleft [] ds Hat).
  destruct pre; [|simpl in Hleft; lia].
  destruct Hm as [ws' [post' [Es [Hnum Hws']]]]. rewrite Hc in Es. simpl in Es.
  assert (Hg : g = ds).
  { destruct Hnum as [[_ Hg] | [ip [fp [-> [[_ Hip] _]]]]].
    - symmetry. apply (digit_prefix_unique _ _ _ _ Es Hall Hg Hhead).
      destruct ws' as [|w ws'']; [reflexivity|].
      simpl in Hws'. apply andb_true_iff in Hws'. destruct Hws' as [Hw _].
      apply space_not_digit. exact Hw.
    - exfalso. rewrite <- !app_assoc in Es.
      destruct (digit_prefix_unique _ _ _ _ Es Hall Hip Hhead eq_refl) as [_ Ex].
      destruct ws as [|w ws0]; simpl in Ex.
      + discriminate Ex.
      + injection Ex as -> _. simpl in Hws. discriminate Hws. }
  subst g. rewrite (numeral_float_digits ds Hds).
  rewrite (times_10000_exact (digits_val ds) (digits_val_nonneg ds Hall) Hb).
  reflexivity.
Qed.

Lemma normalize_price_exact_on_integer_man_yen_witness :
  digits_val (lit "1480") * 10000 = 14800000
  /\ normalize_price (lit "1,480 万円（税込）")
     = Ok (Some (digits_val (lit "1480") * 10000)).
Proof.
  split; [reflexivity|].
  apply (normalize_price_exact_on_integer_man_yen
           (lit "1,480 万円（税込）") (lit "1480") (lit " ") (lit "（税込）")).
  - vm_compute; reflexivity.
  - split; [discriminate | reflexivity].
  - reflexivity.
  - vm_compute; reflexivity.
Defined.

(** ** Titles of the fallback path *)

Section Greedy.
Variable R : Type.

(** A greedy repetition without upper bound whose continuation accepts
    the longest run takes the longest run. *)
Lemma rep_longest (p : char -> bool) (s : str) :
  forall lo (k : str -> str -> option R) x,
    (lo <= length (fst (span p s)))%nat ->
    k (fst (span p s)) (snd (span p s)) = Some x ->
    rep p lo None s k = Some x.
Proof.
  induction s as [|c s IH]; intros lo k x Hlo Hk; cbn [rep span] in *.
  - simpl in Hlo. destruct lo; [exact Hk | lia].
  - destruct (p c) eqn:Hp; cbn [fst snd length andb may_take option_map] in *.
    + rewrite (IH (pred lo) (fun t rest => k (c :: t) rest) x); [reflexivity | lia | exact Hk].
    + destruct lo; [exact Hk | lia].
Qed.

Lemma rep_none (p : char -> bool) (s : str) (lo : nat) (k : str -> str -> option R) :
  match s with c :: _ => p c = false | [] => True end ->
  rep p (S lo) None s k = None.
Proof.
  destruct s as [|c s]; cbn [rep]; [reflexivity|].
  intros ->. reflexivity.
Qed.

End Greedy.

Lemma match_at_spaces (s : str) :
  match_at (Plus is_space) s =
  if starts_space s
  then Some (fst (span is_space s), [], snd (span is_space s))
  else None.
Proof.
  unfold match_at, Plus. cbn [rmatch].
  destruct (starts_space s) eqn:Hs.
  - apply rep_longest; [|reflexivity].
    destruct s as [|c s]; [discriminate|]. simpl in Hs. cbn [span]. rewrite Hs.
    simpl. lia.
  - apply rep_none. destruct s; [exact I | exact Hs].
Qed.

Lemma span_spaces (s : str) :
  s = fst (span is_space s) ++ snd (span is_space s)
  /\ forallb is_space (fst (span is_space s)) = true
  /\ starts_space (snd (span is_space s)) = false.
Proof.
  induction s as [|c s IH]; cbn [span]; [repeat split|].
  destruct (is_space c) eqn:Hc; cbn [fst snd app forallb starts_space].
  - destruct IH as [E [Ha Hh]]. rewrite Hc, Ha, <- E. repeat split. exact Hh.
  - repeat split. exact Hc.
Qed.

Lemma squeeze_run (run rest : str) :
  run <> [] -> forallb is_space run = true -> starts_space rest = false ->
  squeeze (run ++ rest) = 32%N :: squeeze rest.
Proof.
  induction run as [|c run IH]; intros Hne Hall Hrest; [contradiction|].
  cbn [forallb] in Hall. apply andb_true_iff in Hall. destruct Hall as [Hc Hall].
  cbn [app squeeze]. rewrite Hc.
  destruct run as [|c' run'].
  - cbn [app]. rewrite Hrest. reflexivity.
  - cbn [forallb] in Hall. pose proof Hall as Hall'.
    apply andb_true_iff in Hall'. destruct Hall' as [Hc' _].
    cbn [app starts_space]. rewrite Hc'.
    apply IH; [discriminate | exact Hall | exact Hrest].
Qed.

(** The substitution of [parse_fallback_html] replaces every run of
    white space by one space. *)
Lemma sub_fuel_squeeze (fuel : nat) :
  forall s, (length s < fuel)%nat ->
            sub_fuel fuel (Plus is_space) (lit " ") s = squeeze s.
Proof.
  induction fuel as [|fuel IH]; intros s Hlen; [lia|].
  induction s as [|c s IHs].
  - reflexivity.
  - cbn [sub_fuel search]. rewrite match_at_spaces.
    destruct (starts_space (c :: s)) eqn:Hs.
    + destruct (span_spaces (c :: s)) as [E [Hall Hrest]].
      destruct (fst (span is_space (c :: s))) as [|r0 run] eqn:Hrun.
      { cbn [span] in Hrun. simpl in Hs. rewrite Hs in Hrun. discriminate Hrun. }
      cbn [app]. change (lit " ") with [32%N]. cbn [app].
      rewrite IH.
      * rewrite E at 2. symmetry.
        apply (squeeze_run (r0 :: run)); [discriminate | exact Hall | exact Hrest].
      * apply (f_equal (@length char)) in E. rewrite length_app in E.
        cbn [length] in E, Hlen. lia.
    + simpl in Hs. cbn [squeeze]. rewrite Hs.
      assert (Hlen' : (length s < S fuel)%nat) by (simpl in Hlen; lia).
      specialize (IHs Hlen'). cbn [sub_fuel] in IHs.
      destruct (search (Plus is_space) s) as [[pre [[t g] rest]]|].
      * cbn [app]. f_equal. exact IHs.
      * f_equal. exact IHs.
Qed.

Lemma re_sub_squeeze (s : str) : re_sub (Plus is_space) (lit " ") s = squeeze s.
Proof. unfold re_sub. apply sub_fuel_squeeze. lia. Qed.

Lemma squeeze_head (s : str) : starts_space (squeeze s) = starts_space s.
Proof.
  induction s as [|c s IH]; [reflexivity|].
  cbn [squeeze starts_space]. destruct (is_space c) eqn:Hc.
  - destruct (starts_space s) eqn:Hs; [rewrite IH; reflexivity | reflexivity].
  - cbn [starts_space]. exact Hc.
Qed.

Lemma squeeze_single_spaced (s : str) : single_spaced (squeeze s) = true.
Proof.
  induction s as [|c s IH]; [reflexivity|].
  cbn [squeeze]. destruct (is_space c) eqn:Hc.
  - destruct (starts_space s) eqn:Hs; [exact IH|].
    cbn [single_spaced]. rewrite squeeze_head, Hs, IH. reflexivity.
  - cbn [single_spaced]. rewrite Hc, IH. reflexivity.
Qed.

Lemma squeeze_length (s : str) : (length (squeeze s) <= length s)%nat.
Proof.
  induction s as [|c s IH]; [simpl; lia|].
  cbn [squeeze]. destruct (is_space c); [destruct (starts_space s)|]; simpl; lia.
Qed.

Lemma squeeze_In (s : str) (x : char) :
  In x (squeeze s) -> In x s \/ x = 32%N.
Proof.
  induction s as [|c s IH]; [intros []|].
  cbn [squeeze]. destruct (is_space c); [destruct (starts_space s)|]; simpl; intros H.
  - destruct (IH H); auto.
  - destruct H as [<-|H]; [auto | destruct (IH H); auto].
  - destruct H as [<-|H]; [auto | destruct (IH H); auto].
Qed.

Lemma lstrip_suffix (s : str) : exists a, s = a ++ lstrip s.
Proof.
  induction s as [|c s [a E]]; [exists []; reflexivity|].
  simpl. destruct (is_space c); [|exists []; reflexivity].
  exists (c :: a). simpl. f_equal. exact E.
Qed.

Lemma strip_infix (s : str) : exists a b, s = a ++ strip s ++ b.
Proof.
  unfold strip, rstrip.
  destruct (lstrip_suffix s) as [a Ea].
  destruct (lstrip_suffix (rev (lstrip s))) as [b Eb].
  exists a, (rev b). rewrite <- rev_app_distr, <- Eb, rev_involutive. exact Ea.
Qed.

Lemma single_spaced_suffix (a t : str) :
  single_spaced (a ++ t) = true -> single_spaced t = true.
Proof.
  induction a as [|c a IH]; [auto|].
  cbn [app single_spaced]. intros H. apply andb_true_iff in H. apply IH, H.
Qed.

Lemma single_spaced_prefix (t b : str) :
  single_spaced (t ++ b) = true -> single_spaced t = true.
Proof.
  induction t as [|c t IH]; [reflexivity|].
  cbn [app single_spaced]. intros H. apply andb_true_iff in H. destruct H as [Hc Ht].
  rewrite (IH Ht), andb_true_r.
  destruct (negb (is_space c)); [reflexivity|]. cbn [orb] in *.
  apply andb_true_iff in Hc. destruct Hc as [Hc Hn]. rewrite Hc. cbn [andb].
  destruct t; [reflexivity | exact Hn].
Qed.

Lemma strip_single_spaced (s : str) :
  single_spaced s = true -> single_spaced (strip s) = true.
Proof.
  intros H. destruct (strip_infix s) as [a [b E]]. rewrite E in H.
  apply single_spaced_suffix in H. apply single_spaced_prefix in H. exact H.
Qed.

Section FallbackTitles.
Context {L : PyLib}.

(** X17: every title of the fallback path is normalised: each of its
    white-space characters is a single space between two other
    characters, it neither starts nor ends with white space, it has 1 to
    200 characters and contains no [<]. *)
Theorem fallback_titles_normalised (html : str) (ls : list Listing) :
  parse_fallback_html html = Ok ls ->
  Forall (fun l =>
            single_spaced (title l) = true
            /\ trimmed (title l)
            /\ (1 <= length (title l) <= 200)%nat
            /\ ~ In c_lt (title l)) ls.
Proof.
  intros H. apply parse_fallback_html_listings in H. destruct H as [_ H].
  eapply Forall_impl; [|exact H]. clear H.
  intros l [[[t g] rest] [Hin [Ht [Hne _]]]]. cbn [fst snd] in Ht.
  pose proof (finditer_fuel_matches re_detail_anchor (S (length html)) html) as Hall.
  rewrite Forall_forall in Hall. specialize (Hall _ Hin). cbn [fst snd] in Hall.
  apply matches_re_detail_anchor in Hall.
  destruct Hall as [url [ttl [c [more [-> [_ [_ [Hlen Hlt]]]]]]]].
  cbn [group Nat.eqb] in Ht. rewrite re_sub_squeeze in Ht.
  destruct (strip_infix (squeeze ttl)) as [a [b E]].
  split; [rewrite Ht; apply strip_single_spaced, squeeze_single_spaced|].
  split; [rewrite Ht; apply strip_trimmed|].
  split.
  - split; [destruct (title l); [contradiction | simpl; lia]|].
    pose proof (squeeze_length ttl) as Hsq.
    rewrite E, !length_app, <- Ht in Hsq. lia.
  - intros Hc. rewrite Ht in Hc.
    assert (Hsq : In c_lt (squeeze ttl)).
    { rewrite E. apply in_or_app. right. apply in_or_app. left. exact Hc. }
    apply squeeze_In in Hsq. destruct Hsq as [Hsq | Hsq]; [|discriminate Hsq].
    rewrite forallb_forall in Hlt. apply Hlt in Hsq.
    unfold not_char, char_eqb in Hsq. rewrite N.eqb_refl in Hsq. discriminate Hsq.
Qed.

End FallbackTitles.

(** The sample page: the runs of spaces of the first anchor are
    collapsed and its trailing space is dropped. *)
Lemma fallback_titles_normalised_witness :
  exists ls,
    parse_fallback_html (L := ref_lib no_events) page_with_anchors = Ok ls
    /\ map title ls = [lit "Honda N-VAN"; lit "N-VAN Turbo"]
    /\ Forall (fun l =>
                 single_spaced (title l) = true
                 /\ trimmed (title l)
                 /\ (1 <= length (title l) <= 200)%nat
                 /\ ~ In c_lt (title l)) ls.
Proof.
  eexists. split; [vm_compute; reflexivity|]. split; [reflexivity|].
  apply (fallback_titles_normalised (L := ref_lib no_events) page_with_anchors).
  vm_compute; reflexivity.
Defined.

(** ** Listings and what they are made from, in order *)

Section InOrder.
Context {L : PyLib}.

Lemma listing_of_item_titled (item : value) (r : option Listing) :
  listing_of_item item = Ok r ->
  titled item = match r with Some _ => true | None => false end.
Proof.
  unfold listing_of_item, titled. intros H.
  destruct item as [| | | | | |d]; try discriminate H.
  cbn [get_method bind] in H. cbv zeta in H.
  destruct (truthy_str (strip (py_str (dict_get_default d (lit "name") (VStr [])))));
    cbn [negb] in H; [|injection H as <-; reflexivity].
  unfold bind in H.
  destruct (price_fields _); [|discriminate].
  destruct (image_field d); [|discriminate].
  destruct (detail_field d); [|discriminate].
  injection H as <-. reflexivity.
Qed.

Lemma items_loop_in_order (items : list value) :
  forall acc ls,
    items_loop items acc = Ok ls ->
    exists new,
      ls = acc ++ new
      /\ Forall2 (fun item l => listing_of_item item = Ok (Some l))
                 (filter titled items) new.
Proof.
  induction items as [|item items IH]; intros acc ls H; cbn [items_loop] in H.
  - injection H as <-. exists []. rewrite app_nil_r. split; [reflexivity | constructor].
  - destruct (listing_of_item item) as [r|e] eqn:Hi; [|discriminate H].
    cbn [bind] in H. pose proof (listing_of_item_titled _ _ Hi) as Ht.
    apply IH in H. destruct H as [new [-> Hall]].
    cbn [filter]. rewrite Ht. destruct r as [l|].
    + exists (l :: new). rewrite <- app_assoc. split; [reflexivity|].
      constructor; [exact Hi | exact Hall].
    + exists new. split; [reflexivity | exact Hall].
Qed.

Lemma blocks_loop_in_order (blocks : list str) :
  forall acc ls,
    blocks_loop blocks acc = Ok ls ->
    exists new,
      ls = acc ++ new
      /\ Forall2 (fun item l => listing_of_item item = Ok (Some l))
                 (filter titled (candidates blocks)) new.
Proof.
  induction blocks as [|raw blocks IH]; intros acc ls H; cbn [blocks_loop] in H.
  - injection H as <-. exists []. rewrite app_nil_r. split; [reflexivity | constructor].
  - unfold candidates. cbn [flat_map]. fold (candidates blocks).
    destruct (json_loads raw) as [data|e].
    + unfold bind in H.
      destruct (items_loop (items_of data) acc) as [ls1|e] eqn:Hi; [|discriminate H].
      apply items_loop_in_order in Hi. destruct Hi as [new1 [-> Hall1]].
      apply IH in H. destruct H as [new2 [-> Hall2]].
      exists (new1 ++ new2). rewrite app_assoc. split; [reflexivity|].
      rewrite filter_app. apply Forall2_app; assumption.
    + destruct (is_instance e JSONDecodeError); [|discriminate H].
      cbn [app]. apply IH. exact H.
Qed.

(** X18: the structured listings are, one for one and in document
    order, the candidates that have a name: the candidates of the blocks
    that decode, taken block after block, without those whose trimmed
    name is empty. *)
Theorem structured_listings_in_order (html : str) (ls : list Listing) :
  parse_json_ld html = Ok ls ->
  Forall2 (fun item l => listing_of_item item = Ok (Some l))
          (filter titled
             (candidates (JsonLdExtractor.blocks
                            (JsonLdExtractor.feed JsonLdExtractor.init html))))
          ls
  /\ length ls
     = length (filter titled
                 (candidates (JsonLdExtractor.blocks
                                (JsonLdExtractor.feed JsonLdExtractor.init html)))).
Proof.
  unfold parse_json_ld. intros H. apply blocks_loop_in_order in H.
  destruct H as [new [-> Hall]]. cbn [app].
  split; [exact Hall | symmetry; apply (Forall2_length Hall)].
Qed.

Lemma fallback_loop_in_order (ms : list rmatch_result) :
  forall acc ls,
    fallback_loop ms acc = Ok ls ->
    (length acc < 60)%nat ->
    exists new,
      ls = acc ++ new
      /\ Forall2 fallback_listing_of
                 (firstn (60 - length acc) (filter titled_match ms)) new.
Proof.
  induction ms as [|[[t g] rest] ms IH]; intros acc ls H Hlen;
    cbn [fallback_loop] in H; cbv zeta in H.
  - injection H as <-. exists []. rewrite app_nil_r. cbn [filter].
    rewrite firstn_nil. split; [reflexivity | constructor].
  - cbn [filter]. unfold titled_match at 1, fallback_title. cbn [fst snd].
    destruct (strip (re_sub (Plus is_space) (lit " ") (group 2 g))) as [|c ttl] eqn:Ht;
      cbn [truthy_str negb] in H; cbv iota in H; cbn [truthy_str].
    + apply (IH _ _ H Hlen).
    + unfold bind in H.
      destruct (urljoin BASE_URL (group 1 g)) as [det|e] eqn:Hu; [|discriminate H].
      set (item := new_Listing (c :: ttl) None [] [] [] det) in *.
      assert (Hitem : fallback_listing_of (t, g, rest) item).
      { unfold fallback_listing_of, item. simpl. rewrite Ht.
        repeat split; auto. discriminate. }
      assert (Hk : (60 - length acc = S (60 - length (acc ++ [item])))%nat)
        by (rewrite length_app; cbn [length]; lia).
      rewrite Hk. cbn [firstn].
      destruct (60 <=? length (acc ++ [item]))%nat eqn:Hcap.
      * injection H as <-. exists [item]. split; [reflexivity|].
        apply Nat.leb_le in Hcap.
        replace (60 - length (acc ++ [item]))%nat with 0%nat by lia.
        cbn [firstn]. constructor; [exact Hitem | constructor].
      * apply Nat.leb_gt in Hcap. apply (IH _ _ H) in Hcap.
        destruct Hcap as [new [-> Hall]].
        exists (item :: new). rewrite <- app_assoc. split; [reflexivity|].
        constructor; [exact Hitem | exact Hall].
Qed.

(** X19: the fallback listings are, one for one and in the order of the
    page, the first 60 matches of the anchor pattern that have a title:
    matches whose text is blank are passed over without counting, and
    nothing after the sixtieth is looked at. *)
Theorem fallback_listings_first_sixty (html : str) (ls : list Listing) :
  parse_fallback_html html = Ok ls ->
  Forall2 fallback_listing_of
          (firstn 60 (filter titled_match (finditer re_detail_anchor html))) ls
  /\ length ls
     = Nat.min 60 (length (filter titled_match (finditer re_detail_anchor html))).
Proof.
  unfold parse_fallback_html. intros H.
  apply fallback_loop_in_order in H; [|simpl; lia].
  destruct H as [new [-> Hall]]. cbn [app length] in *.
  split; [exact Hall|].
  rewrite <- (Forall2_length Hall). apply length_firstn.
Qed.

End InOrder.

(** The sample item list: three candidates, the second without a name. *)
Lemma structured_listings_in_order_witness :
  exists ls,
    parse_json_ld (L := ref_lib (script_events [block_item_list])) [] = Ok ls
    /\ length (candidates [block_item_list]) = 3%nat
    /\ length ls = 2%nat
    /\ Forall2 (fun item l =>
                  listing_of_item (L := ref_lib (script_events [block_item_list])) item
                  = Ok (Some l))
               (filter (titled (L := ref_lib (script_events [block_item_list])))
                       (candidates [block_item_list])) ls.
Proof.
  eexists. split; [vm_compute; reflexivity|].
  split; [vm_compute; reflexivity|]. split; [reflexivity|].
  apply (proj1 (structured_listings_in_order
                  (L := ref_lib (script_events [block_item_list])) [] _
                  ltac:(vm_compute; reflexivity))).
Defined.

(** The sample page: three anchors match, the third has a blank text. *)
Lemma fallback_listings_first_sixty_witness :
  exists ls,
    parse_fallback_html (L := ref_lib no_events) page_with_anchors = Ok ls
    /\ length (finditer re_detail_anchor page_with_anchors) = 3%nat
    /\ length ls = 2%nat
    /\ Forall2 (fallback_listing_of (L := ref_lib no_events))
               (firstn 60 (filter titled_match
                             (finditer re_detail_anchor page_with_anchors))) ls.
Proof.
  eexists. split; [vm_compute; reflexivity|].
  split; [vm_compute; reflexivity|]. split; [reflexivity|].
  apply (proj1 (fallback_listings_first_sixty
                  (L := ref_lib no_events) page_with_anchors _
                  ltac:(vm_compute; reflexivity))).
Defined.

(** ** The blocks of a page, in order *)

Section ExtractorOrder.
Context {L : PyLib}.
Import JsonLdExtractor.

Lemma other_markup_ignored (evs : list event) (st : t) :
  _in_json_ld st = false -> Forall other_markup evs -> fold_left handle evs st = st.
Proof.
  intros Hout Hall. induction Hall as [|ev evs Hev Hall IH]; cbn [fold_left]; [reflexivity|].
  assert (E : handle st ev = st).
  { destruct ev as [tag attrs|tag|data]; cbn [handle other_markup] in *.
    - unfold handle_starttag. apply str_eqb_neq in Hev. rewrite Hev. reflexivity.
    - unfold handle_endtag. rewrite Hout, andb_false_r. reflexivity.
    - unfold handle_data. rewrite Hout. reflexivity. }
  rewrite E. exact IH.
Qed.

Lemma data_chunks_buffered (cs : list str) (bs : list str) :
  forall buf,
    fold_left handle (map Data cs) (mk true buf bs) = mk true (buf ++ cs) bs.
Proof.
  induction cs as [|c cs IH]; intros buf; cbn [map fold_left handle].
  - rewrite app_nil_r. reflexivity.
  - unfold handle_data. cbn [_in_json_ld _buf blocks].
    rewrite IH, <- app_assoc. reflexivity.
Qed.

Lemma json_ld_element_block (chunks : list str) (st : t) :
  lower (lit "script") = lit "script" ->
  lower (lit "type") = lit "type" ->
  lower (lit "application/ld+json") = lit "application/ld+json" ->
  fold_left handle (json_ld_element chunks) st
  = mk false []
      (if truthy_str (strip (concat chunks))
       then blocks st ++ [strip (concat chunks)]
       else blocks st).
Proof.
  intros Hs Ht Hj. unfold json_ld_element. cbn [fold_left handle].
  assert (Es : handle_starttag st (lit "script")
                 [(lit "type", Some (lit "application/ld+json"))]
               = mk true [] (blocks st)).
  { unfold handle_starttag. cbn [fold_left fst snd dict_setitem].
    rewrite Ht. cbn [assoc]. rewrite str_eqb_refl, Hj, Hs, !str_eqb_refl. reflexivity. }
  rewrite Es, fold_left_app, data_chunks_buffered.
  cbn [fold_left handle app]. unfold handle_endtag.
  rewrite Hs, str_eqb_refl. reflexivity.
Qed.

(** X20: the blocks of a page are the texts of its JSON-LD elements in
    document order, each trimmed, without the blank ones; the markup
    between and after the elements adds nothing. *)
Theorem extractor_blocks_in_document_order
    (segs : list (list event * list str)) (tail : list event) (bs : list str) :
  lower (lit "script") = lit "script" ->
  lower (lit "type") = lit "type" ->
  lower (lit "application/ld+json") = lit "application/ld+json" ->
  Forall (fun seg => Forall other_markup (fst seg)) segs ->
  Forall other_markup tail ->
  fold_left handle (page_events segs tail) (mk false [] bs)
  = mk false []
      (bs ++ filter truthy_str (map (fun seg => strip (concat (snd seg))) segs)).
Proof.
  intros Hs Ht Hj Hsegs Htail. unfold page_events. revert bs.
  induction Hsegs as [|[other chunks] segs Hother Hsegs IH]; intros bs;
    cbn [flat_map map filter app fst snd].
  - rewrite app_nil_r. apply other_markup_ignored; [reflexivity | exact Htail].
  - rewrite <- !app_assoc, fold_left_app.
    rewrite (other_markup_ignored other (mk false [] bs) eq_refl Hother).
    rewrite fold_left_app, (json_ld_element_block chunks _ Hs Ht Hj).
    cbn [blocks]. destruct (truthy_str (strip (concat chunks))).
    + rewrite IH, <- app_assoc. reflexivity.
    + apply IH.
Qed.

End ExtractorOrder.

(** A page with a blank element between two others. *)
Lemma extractor_blocks_in_document_order_witness :
  fold_left (JsonLdExtractor.handle (L := ref_lib no_events))
    (page_events
       [([StartTag (lit "html") []; Data (lit "x")], [lit " {"; lit "} "]);
        ([EndTag (lit "script")], [lit "  "]);
        ([], [lit "[]"])]
       [EndTag (lit "html")])
    (JsonLdExtractor.mk false [] [])
  = JsonLdExtractor.mk false [] [lit "{}"; lit "[]"].
Proof.
  apply (extractor_blocks_in_document_order (L := ref_lib no_events)
           [([StartTag (lit "html") []; Data (lit "x")], [lit " {"; lit "} "]);
            ([EndTag (lit "script")], [lit "  "]);
            ([], [lit "[]"])]
           [EndTag (lit "html")] []); try reflexivity.
  - repeat constructor. discriminate.
  - repeat constructor.
Defined.

(** ** The filters on fallback listings *)

Section FallbackFilters.
Context {L : PyLib}.

Lemma filter_all (p : Listing -> bool) (b : bool) (ls : list Listing) :
  Forall (fun l => p l = b) ls -> filter p ls = if b then ls else [].
Proof.
  induction 1 as [|l ls Hl _ IH]; cbn [filter]; [destruct b; reflexivity|].
  rewrite Hl, IH. destruct b; reflexivity.
Qed.

(** X21: fallback listings carry no price and no location, so the price
    bound never removes one of them, and a region keyword that is not
    empty removes them all ([lower] keeps the empty text empty and a
    non-empty text non-empty). *)
Theorem fallback_listings_under_filters
    (html : str) (ls : list Listing) (m : option Z) (kw : str) :
  lower [] = [] ->
  kw <> [] -> lower kw <> [] ->
  parse_fallback_html html = Ok ls ->
  apply_filters ls m None = ls
  /\ apply_filters ls m (Some []) = ls
  /\ apply_filters ls m (Some kw) = [].
Proof.
  intros Hnil Hkw Hlow H. apply parse_fallback_html_listings in H. destruct H as [_ H].
  assert (Hp : forall r b,
             Forall (fun l => region_rule r l = b) ls ->
             Forall (fun l => price_rule m l && region_rule r l = b) ls).
  { intros r b Hr. rewrite Forall_forall in *. intros l Hin.
    destruct (H l Hin) as [x [_ [_ [_ [_ [Hy _]]]]]].
    unfold price_rule. rewrite Hy, (Hr l Hin). destruct m; reflexivity. }
  rewrite !apply_filters_filter.
  split; [|split].
  - apply (filter_all _ true), Hp. apply Forall_forall. reflexivity.
  - apply (filter_all _ true), Hp. apply Forall_forall. reflexivity.
  - apply (filter_all _ false), Hp. rewrite Forall_forall in *. intros l Hin.
    destruct (H l Hin) as [x [_ [_ [_ [_ [_ [_ [Hloc _]]]]]]]].
    unfold region_rule. destruct kw as [|c k]; [contradiction|].
    rewrite Hloc, Hnil. destruct (lower (c :: k)); [contradiction | reflexivity].
Qed.

End FallbackFilters.

(** The sample page filtered by price and by a region keyword. *)
Lemma fallback_listings_under_filters_witness :
  exists ls,
    parse_fallback_html (L := ref_lib no_events) page_with_anchors = Ok ls
    /\ length ls = 2%nat
    /\ apply_filters (L := ref_lib no_events) ls (Some 0) None = ls
    /\ apply_filters (L := ref_lib no_events) ls (Some 0) (Some []) = ls
    /\ apply_filters (L := ref_lib no_events) ls (Some 0) (Some (lit "Tokyo")) = [].
Proof.
  eexists. split; [vm_compute; reflexivity|]. split; [reflexivity|].
  apply (fallback_listings_under_filters (L := ref_lib no_events)
           page_with_anchors _ (Some 0) (lit "Tokyo"));
    [reflexivity | discriminate | discriminate | vm_compute; reflexivity].
Defined.
